(** * Graph construction and feature pipeline of [datasets.py]

    A shallow embedding of the functions of [src/datasets.py] that build
    the thresholded graph, balance the classes, normalise the series and
    compute the descriptor bank, with the properties the specification
    states about them.

    Conventions of the embedding.
    - A 2-D numpy array is a list of rows ([ndarray E]); its shape is
      [(nrows, ncols)] with [ncols] read off the first row, so an array
      without rows has shape (0, 0) here.
    - Python objects that are mutated in place live in a store ([heap])
      and are passed by reference ([loc]).
    - A raised Python exception is the [Raise] outcome of [result]. *)

From Stdlib Require Import ZArith QArith Qround Qminmax SpecFloat Lia.
From stdpp Require Import base list sorting gmap strings pretty.

Close Scope Q_scope.
Open Scope Z_scope.

(** * Part I: the model *)

(** ** Outcomes of a Python call *)

(** The exception classes the modelled code can raise; [LibraryError]
    stands for whatever a third-party routine raises. *)
Inductive exn : Type :=
  | IndexError
  | ValueError
  | AssertionError
  | AttributeError
  | LibraryError.

Inductive result (A : Type) : Type :=
  | Ok (a : A)
  | Raise (e : exn).
Arguments Ok {A} a.
Arguments Raise {A} e.

Definition result_bind {A B} (m : result A) (f : A → result B) : result B :=
  match m with
  | Ok a => f a
  | Raise e => Raise e
  end.

Definition assert (b : bool) : result unit :=
  if b then Ok tt else Raise AssertionError.

(** ** numpy arrays as lists of rows *)

Abbreviation ndarray E := (list (list E)).

Section Ndarray.
Context {E : Type}.

Definition nrows (X : ndarray E) : nat := length X.
Definition ncols (X : ndarray E) : nat := length (default [] (head X)).

Definition is_shape (r c : nat) (X : ndarray E) : Prop :=
  length X = r ∧ Forall (λ row, length row = c) X.

Definition shape_eqb (r c : nat) (X : ndarray E) : bool :=
  Nat.eqb (length X) r && forallb (λ row, Nat.eqb (length row) c) X.

(** [X[i, j]] when the index is inside the array. *)
Definition entry (X : ndarray E) (i j : nat) : option E :=
  X !! i ≫= (.!! j).

(** [X.T]: column [j] of [X] becomes row [j]. *)
Definition transpose (X : ndarray E) : ndarray E :=
  (λ j, omap (.!! j) X) <$> seq 0 (ncols X).

(** [X.flatten()], row-major. *)
Definition flatten (X : ndarray E) : list E := concat X.

(** The rows of a flat buffer cut into [r] rows of [c] entries. *)
Fixpoint chunks (r c : nat) (l : list E) : ndarray E :=
  match r with
  | O => []
  | S r' => take c l :: chunks r' c (drop c l)
  end.

(** [X.reshape(r, c)]: numpy raises ValueError when the sizes differ. *)
Definition reshape (r c : nat) (X : ndarray E) : result (ndarray E) :=
  if Nat.eqb (length (flatten X)) (r * c)
  then Ok (chunks r c (flatten X))
  else Raise ValueError.

(** [X.reshape(-1, 1)]: one column, as many rows as entries. *)
Definition reshape_column (X : ndarray E) : ndarray E :=
  (λ x, [x]) <$> flatten X.

(** [X[i, j] = v] for one in-range index. *)
Definition set_entry (i j : nat) (v : E) (X : ndarray E) : ndarray E :=
  alter (<[j := v]>) i X.

Definition in_bounds (X : ndarray E) (p : nat * nat) : bool :=
  Nat.ltb p.1 (nrows X) && Nat.ltb p.2 (ncols X).

(** [X[(rows, cols)] = v] with index arrays, the pairs zipped:
    IndexError when an index is outside the shape. *)
Definition assign (ps : list (nat * nat)) (v : E) (X : ndarray E)
  : ndarray E :=
  foldr (λ p acc, set_entry p.1 p.2 v acc) X ps.

Definition setitem (ps : list (nat * nat)) (v : E) (X : ndarray E)
  : result (ndarray E) :=
  if forallb (in_bounds X) ps then Ok (assign ps v X) else Raise IndexError.

End Ndarray.

(** Index generators of numpy, in numpy's (row-major) order. *)
Definition grid (r c : nat) : list (nat * nat) :=
  i ← seq 0 r; (λ j, (i, j)) <$> seq 0 c.

(** [np.tril_indices(n)]: the pairs [(i, j)] with [j <= i < n]. *)
Definition tril_indices (n : nat) : list (nat * nat) :=
  i ← seq 0 n; (λ j, (i, j)) <$> seq 0 (S i).

(** [np.diag_indices(n)]. *)
Definition diag_indices (n : nat) : list (nat * nat) :=
  (λ i, (i, i)) <$> seq 0 n.

(** Python's [l[k:]], also for a negative [k]. *)
Definition py_slice_from {A} (k : Z) (l : list A) : list A :=
  if Z.leb 0 k then drop (Z.to_nat k) l
  else drop (length l - Z.to_nat (- k))%nat l.

(** ** Arrays of strengths

    The graph builder compares entries with each other, tests them against
    zero and adds zero to them; entries are integers here. *)

Definition get (A : ndarray Z) (i j : nat) : Z := default 0 (entry A i j).

Definition nonzero (A : ndarray Z) (p : nat * nat) : Prop := get A p.1 p.2 ≠ 0.

#[global] Instance nonzero_dec A p : Decision (nonzero A p).
Proof. unfold nonzero. apply _. Defined.

(** [np.where(A)] for a 2-D array: the positions of the nonzero entries in
    row-major order (numpy returns the two coordinate arrays; the code
    always indexes both with the same index array). *)
Definition np_where (A : ndarray Z) : list (nat * nat) :=
  filter (nonzero A) (grid (nrows A) (ncols A)).

(** [A[indices]]: the entries at the listed positions. *)
Definition gather (A : ndarray Z) (ps : list (nat * nat)) : list Z :=
  (λ p, get A p.1 p.2) <$> ps.

(** [a[idx]] for an index array [idx] into a 1-D array. *)
Definition take_at {A} `{Inhabited A} (a : list A) (idx : list nat) : list A :=
  (λ s, a !!! s) <$> idx.

(** [A + B] on arrays of one shape (no broadcasting is modelled). *)
Definition np_add (A B : ndarray Z) : result (ndarray Z) :=
  if shape_eqb (nrows A) (ncols A) B && shape_eqb (nrows A) (ncols A) A
  then Ok (zip_with (zip_with Z.add) A B)
  else Raise ValueError.

(** [np.argsort]: the default sort kind is not stable, so only its
    contract is fixed: the result is a permutation of the positions that
    lists the values in ascending order. *)
Class ArgSort := {
  argsort : list Z → list nat;
  argsort_perm : ∀ l, argsort l ≡ₚ seq 0 (length l);
  argsort_sorted : ∀ l, StronglySorted Z.le (take_at l (argsort l));
}.

(** A merge sort on (value, position) pairs as one implementation. *)
Definition pair_le (x y : Z * nat) : Prop := x.1 ≤ y.1.

#[global] Instance pair_le_dec x y : Decision (pair_le x y).
Proof. unfold pair_le. apply _. Defined.

Definition merge_argsort (l : list Z) : list nat :=
  (merge_sort pair_le (zip l (seq 0 (length l)))).*2.

(** ** The store of mutable arrays *)

Definition loc : Type := nat.
Abbreviation heap := (gmap nat (list (list Z))).

(** A Python computation: reads and writes the store, returns or raises. *)
Definition Py (A : Type) : Type := heap → result (A * heap).

Definition py_ret {A} (a : A) : Py A := λ h, Ok (a, h).

Definition py_bind {A B} (m : Py A) (f : A → Py B) : Py B :=
  λ h, match m h with
       | Ok (a, h') => f a h'
       | Raise e => Raise e
       end.

Notation "'do' x <- m ; k" := (py_bind m (λ x, k))
  (at level 10, x name, m at level 100, k at level 200,
   format "'[v' 'do'  x  <-  m ; '/' k ']'").
Notation "'run' m ; k" := (py_bind m (λ _, k))
  (at level 10, m at level 100, k at level 200,
   format "'[v' 'run'  m ; '/' k ']'").

(** Reading the object a name is bound to. *)
Definition load (r : loc) : Py (list (list Z)) :=
  λ h, match h !! r with
       | Some A => Ok (A, h)
       | None => Raise ValueError
       end.

(** In-place update of the object at [r]. *)
Definition store (r : loc) (A : list (list Z)) : Py unit :=
  λ h, Ok (tt, <[r := A]> h).

(** A new array object. *)
Definition alloc (A : list (list Z)) : Py loc :=
  λ h, let r := fresh (dom h) in Ok (r, <[r := A]> h).

(** A pure array operation that may raise. *)
Definition lift {A} (m : result A) : Py A :=
  λ h, match m with
       | Ok a => Ok (a, h)
       | Raise e => Raise e
       end.

(** ** [threshold_adj_array] and [create_thresholded_graph] *)

(** Line 42: [int((threshold / 100.0) * (num_nodes * (num_nodes - 1) / 2))],
    evaluated in exact arithmetic; [int] truncates towards zero.  Python
    evaluates the expression in binary64: [num_to_filter_binary64] below
    does the same, and the two are compared there. *)
Definition num_to_filter (threshold : Z) (num_nodes : nat) : Z :=
  Z.quot (threshold * Z.of_nat (num_nodes * (num_nodes - 1))) 200.

(** A directed graph of networkx: nodes and the edge list [G.edges()]. *)
Record DiGraph : Type := {
  nodes : list nat;
  edges : list (nat * nat);
}.

(** [nx.from_numpy_array(A, create_using=nx.DiGraph)]: one node per row and
    an edge [(i, j)] for every nonzero entry, added in row-major order. *)
Definition from_numpy_array (A : list (list Z)) : DiGraph :=
  {| nodes := seq 0 (nrows A); edges := np_where A |}.

Section Builder.
Context `{ArgSort}.

(** [indices[..][sorted_indices]]: the nonzero positions of [A] in
    descending order of strength. *)
Definition ranked (A : list (list Z)) : list (nat * nat) :=
  let indices := np_where A in
  let sorted_indices := reverse (argsort (gather A indices)) in
  take_at indices sorted_indices.

(** The positions that line 50 sets to zero: the ranked positions
    without the first [num_to_filter]. *)
Definition filtered_out (num_to_filter : Z) (A : list (list Z))
  : list (nat * nat) :=
  py_slice_from num_to_filter (ranked A).

(** Lines 44 to 58, for the value of [num_to_filter] of line 42.
    [adj_array] is the caller's array object until line 53 binds the
    name to the new array of the sum. *)
Definition threshold_adj_array_from
    (num_to_filter : Z) (adj_array : loc) (num_nodes : nat) : Py loc :=
  do A <- load adj_array;
  do A1 <- lift (setitem (tril_indices num_nodes) 0 A);
  run store adj_array A1;
  do A2 <- lift (setitem (filtered_out num_to_filter A1) 0 A1);
  run store adj_array A2;
  do S <- lift (np_add A2 (transpose A2));
  do adj_array' <- alloc S;
  do S1 <- lift (setitem (diag_indices num_nodes) 1 S);
  run store adj_array' S1;
  py_ret adj_array'.

Definition threshold_adj_array
    (adj_array : loc) (threshold : Z) (num_nodes : nat) : Py loc :=
  threshold_adj_array_from (num_to_filter threshold num_nodes)
    adj_array num_nodes.

Definition create_thresholded_graph_from
    (num_to_filter : Z) (adj_array : loc) (num_nodes : nat) : Py DiGraph :=
  do r <- threshold_adj_array_from num_to_filter adj_array num_nodes;
  do B <- load r;
  py_ret (from_numpy_array B).

Definition create_thresholded_graph
    (adj_array : loc) (threshold : Z) (num_nodes : nat) : Py DiGraph :=
  do r <- threshold_adj_array adj_array threshold num_nodes;
  do B <- load r;
  py_ret (from_numpy_array B).

End Builder.

(** ** The stages of the builder as array functions *)

(** How many of [len] ranked positions survive [l[k:] = 0]. *)
Definition keep_len (k : Z) (len : nat) : nat :=
  if Z.leb 0 k then Nat.min (Z.to_nat k) len else (len - Z.to_nat (- k))%nat.

Section Stages.
Context `{ArgSort}.

(** The ranked positions that line 50 leaves alone. *)
Definition kept (k : Z) (A : list (list Z)) : list (nat * nat) :=
  take (keep_len k (length (ranked A))) (ranked A).

(** The caller's array after line 45, and after line 50. *)
Definition zero_tril (n : nat) (A : list (list Z)) : list (list Z) :=
  assign (tril_indices n) 0 A.

Definition caller_array (k : Z) (n : nat) (A : list (list Z))
  : list (list Z) :=
  assign (filtered_out k (zero_tril n A)) 0 (zero_tril n A).

(** The new array after line 53, and after line 56. *)
Definition symmetrised (k : Z) (n : nat) (A : list (list Z))
  : list (list Z) :=
  zip_with (zip_with Z.add) (caller_array k n A)
    (transpose (caller_array k n A)).

Definition returned_array (k : Z) (n : nat) (A : list (list Z))
  : list (list Z) :=
  assign (diag_indices n) 1 (symmetrised k n A).

End Stages.

(** ** Measures on the built graph *)

(** The number of edges of [G] that are not self-loops. *)
Definition non_loop_edge_count (G : DiGraph) : nat :=
  length (filter (λ p, p.1 ≠ p.2) (edges G)).

(** The strength recorded for the pair [{i, j}]: the entry above the
    diagonal. *)
Definition upper_entry (A : list (list Z)) (i j : nat) : Z :=
  get A (Nat.min i j) (Nat.max i j).

Definition upper_nonzero (A : list (list Z)) (p : nat * nat) : Prop :=
  (p.1 < p.2)%nat ∧ get A p.1 p.2 ≠ 0.

#[global] Instance upper_nonzero_dec A p : Decision (upper_nonzero A p).
Proof. unfold upper_nonzero. apply _. Defined.

(** The number of nonzero entries strictly above the diagonal. *)
Definition upper_nonzero_count (n : nat) (A : list (list Z)) : nat :=
  length (filter (upper_nonzero A) (grid n n)).

(** [floor(threshold/100 * n(n-1)/2)] as the specification writes it. *)
Definition floor_keep (threshold : Z) (n : nat) : Z :=
  threshold * Z.of_nat (n * (n - 1) / 2) / 100.

(** The thresholds of the edge-count property. *)
Definition count_threshold (threshold : Z) : Prop :=
  threshold = 0 ∨ threshold = 5 ∨ threshold = 20 ∨ threshold = 50
  ∨ threshold = 100.

(** The pairs [(i, j)] with [j < i < n]. *)
Definition strict_lower (n : nat) : list (nat * nat) :=
  i ← seq 0 n; (λ j, (i, j)) <$> seq 0 i.

(** ** Concrete inputs of the builder *)

(** The 4-node matrix of the specification's end-to-end example. *)
Definition example_matrix : list (list Z) :=
  [[0; 4; 3; 1]; [0; 0; 2; 0]; [0; 0; 0; 5]; [0; 0; 0; 0]].

(** ** [random_downsample]: class balancing *)

(** A sample as far as balancing looks at it: its label [y] and a tag that
    tells samples with equal labels apart. *)
Record Data : Type := {
  y : Z;
  tag : nat;
}.

#[global] Instance Data_eq_dec : EqDecision Data.
Proof. solve_decision. Defined.

(** [numpy.random.Generator]: the bit generator is not modelled, only the
    contract of [choice(a, size, replace=False)]: [size] distinct numbers
    below [a]. *)
Class Generator := {
  rng_state : Type;
  default_rng : Z → rng_state;
  choice : rng_state → nat → nat → list nat;
  choice_NoDup : ∀ st a size, (size ≤ a)%nat → NoDup (choice st a size);
  choice_length : ∀ st a size, (size ≤ a)%nat → length (choice st a size) = size;
  choice_lt : ∀ st a size x, (size ≤ a)%nat → x ∈ choice st a size → (x < a)%nat;
}.

(** [rng.choice(a, size=size, replace=False)]: ValueError when the sample
    is larger than the population. *)
Definition rng_choice `{Generator} (rng : rng_state) (a size : nat)
  : result (list nat) :=
  if Nat.leb size a then Ok (choice rng a size) else Raise ValueError.

(** [enumerate(l)]. *)
Definition enumerate {A} (l : list A) : list (nat * A) :=
  zip (seq 0 (length l)) l.

(** [[elem for id, elem in enumerate(l) if id in numbers]]. *)
Definition pick {A} (numbers : list nat) (l : list A) : list A :=
  (filter (λ p, p.1 ∈ numbers) (enumerate l)).*2.

Definition print_count (label : string) (n : nat) : string :=
  label +:+ " " +:+ pretty n.

(** The function reads and extends the standard output and nothing else
    of its surroundings; the generator is created inside the call. *)
Definition random_downsample `{Generator}
    (data_list : list Data) (stdout : list string)
  : result (list Data * list string) :=
  let negative_num := length (filter (λ x, y x = 0) data_list) in
  let positive_num := length (filter (λ x, y x = 1) data_list) in
  let stdout := stdout ++ [print_count "Negative class:" negative_num] in
  let stdout := stdout ++ [print_count "Positive class:" positive_num] in
  let smallest_value := if Nat.ltb positive_num negative_num then 1 else 0 in
  let highest_value := if Nat.ltb positive_num negative_num then 0 else 1 in
  let '(negative_num, positive_num) :=
    if Nat.ltb negative_num positive_num
    then (positive_num, negative_num)
    else (negative_num, positive_num) in
  let rng := default_rng 0 in
  result_bind (rng_choice rng negative_num positive_num) (λ numbers_sample,
    let y_0 := filter (λ x, y x = highest_value) data_list in
    let data_list := filter (λ x, y x = smallest_value) data_list in
    let y_0 := pick numbers_sample y_0 in
    Ok (data_list ++ y_0, stdout)).

(** The label with the fewer samples (0 on a tie, as in the code). *)
Definition minority_label (data_list : list Data) : Z :=
  if Nat.ltb (length (filter (λ x, y x = 1) data_list))
             (length (filter (λ x, y x = 0) data_list))
  then 1 else 0.

Definition label_count (v : Z) (data_list : list Data) : nat :=
  length (filter (λ x, y x = v) data_list).

(** One generator satisfying the contract: a rotation of [0 .. a-1] by the
    state, cut to [size]. *)
Definition rotate_choice (st a size : nat) : list nat :=
  take size (rotate st (seq 0 a)).

(** ** [normalise_timeseries] *)

(** Modelled from the spec: the [Normalisation] enumeration of [utils]
    (not part of the sources at hand), with the three modes the
    specification and the constructor of [BrainDataset] name: none,
    per node (ROI) and pooled over the subject. *)
Inductive Normalisation : Type :=
  | NONE
  | ROI
  | SUBJECT.

(** [sklearn.preprocessing.RobustScaler]: the estimator is a parameter of
    the model.  Its contract on a block with at least one sample and one
    feature: fitting succeeds, and transforming the fitted block returns a
    block of the same shape. *)
Class RobustScaler (E : Type) := {
  scaler : Type;
  scaler_fit : list (list E) → result scaler;
  scaler_transform : scaler → list (list E) → result (list (list E));
  scaler_fit_transform : ∀ X r c,
    is_shape r c X → (0 < r)%nat → (0 < c)%nat →
    ∃ s Y, scaler_fit X = Ok s ∧ scaler_transform s X = Ok Y ∧ is_shape r c Y;
}.

Section Normalise.
Context {E : Type} `{RobustScaler E}.

(** [timeseries] comes in the format time x nodes. *)
Definition normalise_timeseries
    (timeseries : list (list E)) (normalisation : Normalisation)
  : result (list (list E)) :=
  match normalisation with
  | ROI =>
      result_bind (scaler_fit timeseries) (λ scaler,
      result_bind (scaler_transform scaler timeseries) (λ scaled,
      Ok (transpose scaled)))
  | SUBJECT =>
      let flatten_timeseries := reshape_column timeseries in
      result_bind (scaler_fit flatten_timeseries) (λ scaler,
      result_bind (scaler_transform scaler flatten_timeseries) (λ scaled,
      result_bind (reshape (nrows timeseries) (ncols timeseries) scaled)
        (λ reshaped, Ok (transpose reshaped))))
  | NONE => Ok (transpose timeseries)
  end.

End Normalise.

(** *** A robust scaler on rationals

    Median and interquartile range per column, with the linear
    interpolation of [numpy.percentile]; a zero range scales by 1. *)

#[global] Instance Qle_dec : RelDecision Qle.
Proof.
intros a b. destruct (Qlt_le_dec b a) as [Hlt|Hle].
- right. by apply Qlt_not_le.
- by left.
Defined.

Definition percentile (q : Q) (values : list Q) : Q :=
  let sorted := merge_sort Qle values in
  let pos := (q / 100 * inject_Z (Z.of_nat (length values) - 1))%Q in
  let lo := Z.to_nat (Qfloor pos) in
  let frac := (pos - inject_Z (Qfloor pos))%Q in
  let a := nth lo sorted 0%Q in
  let b := nth (S lo) sorted a in
  (a + frac * (b - a))%Q.

Definition column {E} (j : nat) (X : list (list E)) : list E :=
  omap (.!! j) X.

Definition centre_and_scale (values : list Q) : Q * Q :=
  let centre := percentile 50 values in
  let range := (percentile 75 values - percentile 25 values)%Q in
  (centre, if Qeq_bool range 0 then 1%Q else range).

Definition robust_fit (X : list (list Q)) : result (list (Q * Q)) :=
  if Nat.eqb (nrows X) 0 || Nat.eqb (ncols X) 0 then Raise ValueError
  else Ok ((λ j, centre_and_scale (column j X)) <$> seq 0 (ncols X)).

Definition robust_transform (s : list (Q * Q)) (X : list (list Q))
  : result (list (list Q)) :=
  if forallb (λ row, Nat.eqb (length row) (length s)) X
  then Ok ((λ row, zip_with (λ x p, Qred ((x - p.1) / p.2)) row s) <$> X)
  else Raise ValueError.

(** ** [calculate_stats_features]: the descriptor bank *)

Notation "'try' x <- m ; k" := (result_bind m (λ x, k))
  (at level 10, x name, m at level 100, k at level 200,
   format "'[v' 'try'  x  <-  m ; '/' k ']'").

Definition succeeds {A} (m : result A) : Prop := ∃ a, m = Ok a.

(** The sixteen descriptors come from numpy, scipy, [entropy] and [nolds];
    each maps one series to a number or raises.  They are parameters of the
    model, with the keyword arguments of the call sites fixed
    ([bias=False], [normalize=True], [sf=1]). *)
Class DescriptorBank (E : Type) := {
  np_mean : list E → result E;
  np_std : list E → result E;
  np_min : list E → result E;
  np_max : list E → result E;
  skew : list E → result E;
  kurtosis : list E → result E;
  app_entropy : list E → result E;
  perm_entropy : list E → result E;
  sample_entropy : list E → result E;
  spectral_entropy : list E → result E;
  svd_entropy : list E → result E;
  detrended_fluctuation : list E → result E;
  higuchi_fd : list E → result E;
  katz_fd : list E → result E;
  petrosian_fd : list E → result E;
  hurst_rs : list E → result E;
}.

(** [np.apply_along_axis(f, 1, X)] and the [axis=1] reductions: [f] on
    every row, in order; the first exception ends the call. *)
Fixpoint apply_along_rows {E} (f : list E → result E) (X : list (list E))
  : result (list E) :=
  match X with
  | [] => Ok []
  | row :: X' =>
      try v <- f row;
      try vs <- apply_along_rows f X';
      Ok (v :: vs)
  end.

(** [np.vstack] of 1-D arrays: ValueError unless all have one length. *)
Definition vstack {E} (arrays : list (list E)) : result (list (list E)) :=
  if forallb (λ a, Nat.eqb (length a) (ncols arrays)) arrays
  then Ok arrays else Raise ValueError.

Section Descriptors.
Context {E : Type} `{DescriptorBank E}.

Definition calculate_stats_features (timeseries : list (list E))
  : result (list (list E)) :=
  try _ <- assert (Nat.ltb (nrows timeseries) (ncols timeseries));
  try means <- apply_along_rows np_mean timeseries;
  try variances <- apply_along_rows np_std timeseries;
  try mins <- apply_along_rows np_min timeseries;
  try maxs <- apply_along_rows np_max timeseries;
  try skewnesses <- apply_along_rows skew timeseries;
  try kurtos <- apply_along_rows kurtosis timeseries;
  try entro_app <- apply_along_rows app_entropy timeseries;
  try entro_perm <- apply_along_rows perm_entropy timeseries;
  try entro_sample <- apply_along_rows sample_entropy timeseries;
  try entro_spectr <- apply_along_rows spectral_entropy timeseries;
  try entro_svd <- apply_along_rows svd_entropy timeseries;
  try fractal_dfa <- apply_along_rows detrended_fluctuation timeseries;
  try fractal_higuchi <- apply_along_rows higuchi_fd timeseries;
  try fractal_katz <- apply_along_rows katz_fd timeseries;
  try fractal_petro <- apply_along_rows petrosian_fd timeseries;
  try hursts <- apply_along_rows hurst_rs timeseries;
  let merged_stats :=
    [means; variances; mins; maxs; skewnesses; kurtos; entro_app;
     entro_perm; entro_sample; entro_spectr; entro_svd; fractal_dfa;
     fractal_higuchi; fractal_katz; fractal_petro; hursts] in
  try merged_stats <- vstack merged_stats;
  Ok (transpose merged_stats).

(** The order of the columns the specification fixes: mean, standard
    deviation, min, max, skewness, excess kurtosis, approximate,
    permutation, sample, spectral and SVD entropy, DFA exponent, Higuchi,
    Katz and Petrosian fractal dimension, Hurst exponent. *)
Definition descriptor_order : list (list E → result E) :=
  [np_mean; np_std; np_min; np_max; skew; kurtosis; app_entropy;
   perm_entropy; sample_entropy; spectral_entropy; svd_entropy;
   detrended_fluctuation; higuchi_fd; katz_fd; petrosian_fd; hurst_rs].

(** A block on which no descriptor raises. *)
Definition describable (timeseries : list (list E)) : Prop :=
  Forall (λ row, Forall (λ d, succeeds (d row)) descriptor_order) timeseries.

End Descriptors.

(** *** A stand-in descriptor library on rationals

    Used to run the bank on concrete blocks.  Mean, minimum and maximum are
    computed; the other thirteen descriptors are not rational functions and
    are constant here. *)

Definition rational_mean (series : list Q) : result Q :=
  Ok (Qred (fold_right Qplus 0%Q series
            / inject_Z (Z.of_nat (length series)))).

Definition rational_min (series : list Q) : result Q :=
  match series with
  | [] => Raise ValueError
  | v :: rest => Ok (fold_right Qmin v rest)
  end.

Definition rational_max (series : list Q) : result Q :=
  match series with
  | [] => Raise ValueError
  | v :: rest => Ok (fold_right Qmax v rest)
  end.

Definition rational_constant (series : list Q) : result Q := Ok 0%Q.

#[global] Instance rational_DescriptorBank : DescriptorBank Q := {|
  np_mean := rational_mean;
  np_std := rational_constant;
  np_min := rational_min;
  np_max := rational_max;
  skew := rational_constant;
  kurtosis := rational_constant;
  app_entropy := rational_constant;
  perm_entropy := rational_constant;
  sample_entropy := rational_constant;
  spectral_entropy := rational_constant;
  svd_entropy := rational_constant;
  detrended_fluctuation := rational_constant;
  higuchi_fd := rational_constant;
  katz_fd := rational_constant;
  petrosian_fd := rational_constant;
  hurst_rs := rational_constant;
|}.

(** Two nodes with three timepoints each. *)
Definition example_block : list (list Q) :=
  [[inject_Z 1; inject_Z 2; inject_Z 3]; [inject_Z 4; inject_Z 6; inject_Z 8]].

(** ** [UKBDataset.process]: the loop over the subjects *)

(** Modelled from the spec: the [ConnType] enumeration of [utils] (not part
    of the sources at hand): connectivity derived from the series (FMRI) or
    from the structural tracks (STRUCT). *)
Inductive ConnType : Type :=
  | FMRI
  | STRUCT.

Section UKBProcess.
(** [Sample] is the type of the [Data] objects of [data_list]. *)
Context {E Sample : Type}.
(** [np.loadtxt] on the subject's file: the raw-data reader. *)
Variable loadtxt : Z → result (list (list E)).
(** [conn_measure.fit_transform] of nilearn on a list of series blocks:
    the stack of their connectivity matrices, or the error of the
    library. *)
Variable fit_transform :
  list (list (list E)) → result (list (list (list E))).
Variable connectivity_type : ConnType.

(** [ts[:, :490]]. *)
Definition first_columns (k : nat) (ts : list (list E)) : list (list E) :=
  take k <$> ts.

(** [ts[-68:, :]]: the last [k] rows, all the rows when there are fewer. *)
Definition last_rows (k : nat) (ts : list (list E)) : list (list E) :=
  drop (nrows ts - k) ts.

(** [corr_arr.shape == (k, r, c)] for a stack of matrices. *)
Definition stack_shape_eqb (k r c : nat) (X : list (list (list E))) : bool :=
  Nat.eqb (length X) k && forallb (shape_eqb r c) X.


(** Lines 337 to 357: the sample of a subject whose series has passed the
    assertion of line 335.  Written inside [class UKBDataset], the name
    [self.__create_thresholded_graph] of line 346 stands for the attribute
    [_UKBDataset__create_thresholded_graph], and no class defines it (the
    same holds for [self.__normalise_timeseries] of line 349): the lookup
    raises AttributeError, so lines 347 to 357 are never reached. *)
Definition ukb_sample (person : Z) (ts : list (list E)) : result Sample :=
  let ts := last_rows 68 ts in
  let ts := transpose ts in
  try corr_arr <- fit_transform [ts];
  try _ <- assert (stack_shape_eqb 1 68 68 corr_arr);
  Raise AttributeError.

(** The body of the [for] loop, lines 328 to 358, on the rest of
    [filtered_people] with the [data_list] built so far. *)
Fixpoint process_loop (filtered_people : list Z) (data_list : list Sample)
  : result (list Sample) :=
  match filtered_people with
  | [] => Ok data_list
  | person :: rest =>
      match connectivity_type with
      | FMRI =>
          try ts <- loadtxt person;
          if Nat.ltb (nrows ts) 84 then process_loop rest data_list
          else
            let ts := if Nat.eqb (ncols ts) 523 then first_columns 490 ts
                      else ts in
            try _ <- assert (Nat.eqb (nrows ts) 84 && Nat.eqb (ncols ts) 490);
            try data <- ukb_sample person ts;
            process_loop rest (data_list ++ [data])
      | STRUCT => process_loop rest data_list
      end
  end.

(** [process] up to the list handed to [collate]. *)
Definition process (filtered_people : list Z) : result (list Sample) :=
  process_loop filtered_people [].




End UKBProcess.

(** *** Concrete inputs of the loop *)

(** A raw-data reader for four kinds of subjects: subject 1 has 84 series
    of length 500, subject 2 has only 10 series, subject 5 has 84 series of
    length 523, every other subject has 84 series of length 490. *)
Definition example_loadtxt (person : Z) : result (list (list Z)) :=
  if Z.eqb person 1 then Ok (replicate 84 (replicate 500 0))
  else if Z.eqb person 2 then Ok (replicate 10 (replicate 490 0))
  else if Z.eqb person 5 then Ok (replicate 84 (replicate 523 0))
  else Ok (replicate 84 (replicate 490 0)).

(** A connectivity library that returns one matrix of 68 x 68 for every
    block. *)
Definition example_fit_transform (blocks : list (list (list Z)))
  : result (list (list (list Z))) :=
  Ok ((λ _, replicate 68 (replicate 68 0)) <$> blocks).

(** ** Line 42 in binary64

    [num_to_filter] evaluates line 42 in exact arithmetic.  The same
    expression in IEEE binary64, as Python evaluates it: both divisions and
    the product are rounded to nearest, [int] truncates. *)

Definition b64_of_Z (z : Z) : spec_float := binary_normalize 53 1024 z 0 false.

Definition b64_to_Z (x : spec_float) : option Z :=
  match x with
  | S754_zero _ => Some 0
  | S754_finite sign m e =>
      let magnitude :=
        if Z.leb 0 e then Z.pos m * 2 ^ e else Z.pos m / 2 ^ (- e) in
      Some (if sign then - magnitude else magnitude)
  | S754_infinity _ | S754_nan => None
  end.

Definition num_to_filter_binary64 (threshold : Z) (num_nodes : nat)
  : option Z :=
  b64_to_Z
    (SFmul 53 1024
       (SFdiv 53 1024 (b64_of_Z threshold) (b64_of_Z 100))
       (SFdiv 53 1024
          (b64_of_Z (Z.of_nat num_nodes * (Z.of_nat num_nodes - 1)))
          (b64_of_Z 2))).

(** ** [HCPDataset.__create_data_object] *)

(** Modelled from the spec: the [EncodingStrategy] enumeration of [utils]
    (not part of the sources at hand): node features are the normalised
    series themselves (NONE) or the sixteen descriptors (STATS). *)
Module EncodingStrategy.
Inductive t : Type :=
  | NONE
  | STATS.
End EncodingStrategy.

(** Modelled from the spec: the [AnalysisType] enumeration of [utils] (not
    part of the sources at hand), with the two members this file uses: the
    features of a node are its series alone (ST_UNIMODAL) or its static
    covariates followed by its series (ST_MULTIMODAL). *)
Inductive AnalysisType : Type :=
  | ST_UNIMODAL
  | ST_MULTIMODAL.

(** [np.isnan] and the constant 0 of the element type. *)
Class NanTest (E : Type) := {
  isnan : E → bool;
  float_zero : E;
  float_zero_not_nan : isnan float_zero = false;
}.

(** [X[np.isnan(X)] = 0]. *)
Definition nan_to_zero {E} `{NanTest E} (X : list (list E)) : list (list E) :=
  (λ row : list E, (λ v, if isnan v then float_zero else v) <$> row) <$> X.

(** [np.isnan(X).any()]. *)
Definition has_nan {E} `{NanTest E} (X : list (list E)) : bool :=
  existsb (existsb isnan) X.

(** [X.shape == (r, c)]. *)
Definition shape_is {E} (r c : nat) (X : list (list E)) : bool :=
  Nat.eqb (nrows X) r && Nat.eqb (ncols X) c.

(** [np.concatenate((X, Y), axis=1)]: ValueError unless both have the same
    number of rows. *)
Definition concatenate_columns {E} (X Y : list (list E))
  : result (list (list E)) :=
  if Nat.eqb (nrows X) (nrows Y) then Ok (zip_with app X Y)
  else Raise ValueError.

(** The sample of one scan: [Data(x, edge_index, y)] with the attributes
    [hcp_id] and [index]. *)
Record HCPData (E : Type) : Type := {
  hcp_x : list (list E);
  hcp_edge_index : list (nat * nat);
  hcp_y : E;
  hcp_id : Z;
  hcp_index : nat;
}.
Arguments hcp_x {E} _.
Arguments hcp_edge_index {E} _.
Arguments hcp_y {E} _.
Arguments hcp_id {E} _.
Arguments hcp_index {E} _.

Section CreateDataObject.
Context {E : Type} `{RobustScaler E} `{DescriptorBank E} `{NanTest E}.
(** The attributes of [self] that the method reads. *)
Variable num_nodes time_length : nat.
Variable normalisation : Normalisation.
Variable encoding_strategy : EncodingStrategy.t.
Variable analysis_type : AnalysisType.
(** [self.nodefeats_df.loc[person, ...]] for every structural column, as an
    array with one row per column name: a lookup in a table read from a
    file; it raises for an unknown subject. *)
Variable nodefeats : Z → result (list (list E)).
(** [self.info_df.loc[person, 'Gender']]. *)
Variable info_gender : Z → result E.

(** Lines 206 to 232, with [target_var = 'gender'] as the constructor
    requires. *)
Definition create_data_object
    (person : Z) (ts : list (list E)) (ind : nat)
    (edge_index : list (nat * nat)) : result (HCPData E) :=
  try _ <- assert (Nat.ltb (ncols ts) (nrows ts));
  try timeseries <- normalise_timeseries ts normalisation;
  try timeseries <-
    match encoding_strategy with
    | EncodingStrategy.STATS =>
        try _ <- assert (shape_is num_nodes time_length timeseries);
        try timeseries <- calculate_stats_features timeseries;
        try _ <- assert (shape_is num_nodes 16 timeseries);
        let timeseries := nan_to_zero timeseries in
        try _ <- assert (negb (has_nan timeseries));
        Ok timeseries
    | EncodingStrategy.NONE => Ok timeseries
    end;
  try x <-
    match analysis_type with
    | ST_UNIMODAL => Ok timeseries
    | ST_MULTIMODAL =>
        try x <- nodefeats person;
        concatenate_columns x timeseries
    end;
  try y <- info_gender person;
  Ok {| hcp_x := x; hcp_edge_index := edge_index; hcp_y := y;
        hcp_id := person; hcp_index := ind |}.

End CreateDataObject.
(** *** Rationals with a NaN

    [None] plays the part of NaN.  The stand-in descriptors of above are
    lifted: a NaN in the series gives NaN, and the descriptors that the
    stand-in library does not compute give NaN on every series. *)

#[global] Instance option_NanTest : NanTest (option Q) := {|
  isnan := λ v, match v with None => true | Some _ => false end;
  float_zero := Some 0%Q;
  float_zero_not_nan := eq_refl;
|}.

Definition lift_descriptor (d : list Q → result Q) (series : list (option Q))
  : result (option Q) :=
  match mapM id series with
  | Some values =>
      match d values with
      | Ok v => Ok (Some v)
      | Raise e => Raise e
      end
  | None => Ok None
  end.

Definition nan_descriptor (series : list (option Q)) : result (option Q) :=
  Ok None.

#[global] Instance option_DescriptorBank : DescriptorBank (option Q) := {|
  np_mean := lift_descriptor rational_mean;
  np_std := nan_descriptor;
  np_min := lift_descriptor rational_min;
  np_max := lift_descriptor rational_max;
  skew := nan_descriptor;
  kurtosis := nan_descriptor;
  app_entropy := nan_descriptor;
  perm_entropy := nan_descriptor;
  sample_entropy := nan_descriptor;
  spectral_entropy := nan_descriptor;
  svd_entropy := nan_descriptor;
  detrended_fluctuation := nan_descriptor;
  higuchi_fd := nan_descriptor;
  katz_fd := nan_descriptor;
  petrosian_fd := nan_descriptor;
  hurst_rs := nan_descriptor;
|}.

(** A scaler that leaves every block as it is. *)
Definition identity_fit {E} (X : list (list E)) : result unit := Ok tt.
Definition identity_transform {E} (s : unit) (X : list (list E))
  : result (list (list E)) := Ok X.

#[global] Instance identity_RobustScaler : RobustScaler (option Q) := {|
  scaler := unit;
  scaler_fit := identity_fit;
  scaler_transform := identity_transform;
  scaler_fit_transform := λ X r c HX _ _,
    ex_intro _ tt (ex_intro _ X (conj eq_refl (conj eq_refl HX)));
|}.

(** Three timepoints of two nodes, the covariate and the label of every
    subject. *)
Definition example_series : list (list (option Q)) :=
  [[Some (inject_Z 1); Some (inject_Z 4)];
   [Some (inject_Z 2); Some (inject_Z 6)];
   [Some (inject_Z 3); Some (inject_Z 8)]].

Definition example_nodefeats (person : Z) : result (list (list (option Q))) :=
  Ok [[Some (inject_Z 10)]; [Some (inject_Z 20)]].

Definition example_gender (person : Z) : result (option Q) :=
  Ok (Some (inject_Z 1)).

Definition example_normalised : list (list (option Q)) :=
  [[Some (inject_Z 1); Some (inject_Z 2); Some (inject_Z 3)];
   [Some (inject_Z 4); Some (inject_Z 6); Some (inject_Z 8)]].

Definition example_stats : list (list (option Q)) :=
  [[Some (inject_Z 2); None; Some (inject_Z 1); Some (inject_Z 3);
    None; None; None; None; None; None; None; None; None; None; None; None];
   [Some (inject_Z 6); None; Some (inject_Z 4); Some (inject_Z 8);
    None; None; None; None; None; None; None; None; None; None; None; None]].
(** ** [HCPDataset.process] *)

(** How a call ends: it returns, it raises, or it leaves the interpreter
    through [exit(code)]. *)
Inductive outcome (A : Type) : Type :=
  | Returned (a : A)
  | Raised (e : exn)
  | Exited (code : Z).
Arguments Returned {A} a.
Arguments Raised {A} e.
Arguments Exited {A} code.

(** [A[idx, :]] with an index array: IndexError when an index is not a row
    of [A]. *)
Definition take_rows {E} (idx : list nat) (A : list (list E))
  : result (list (list E)) :=
  match mapM (λ i, A !! i) idx with
  | Some rows => Ok rows
  | None => Raise IndexError
  end.

(** [A[:, idx]] with an index array: IndexError when an index is not a
    column of [A]. *)
Definition take_columns {E} (idx : list nat) (A : list (list E))
  : result (list (list E)) :=
  if forallb (λ j, Nat.ltb j (ncols A)) idx
  then Ok ((λ row : list E, omap (λ j, row !! j) idx) <$> A)
  else Raise IndexError.

(** [sorted(list(set(a).intersection(set(b))))]. *)
Definition sorted_intersection (a b : list Z) : list Z :=
  merge_sort Z.le (remove_dups (list_intersection a b)).

(** [create_thresholded_graph] on an array object that the caller has just
    made and does not use again: what the builder writes into it is seen
    by no one. *)
Definition graph_of_copy `{ArgSort}
    (arr : list (list Z)) (threshold : Z) (num_nodes : nat) : result DiGraph :=
  match (do r <- alloc arr; create_thresholded_graph r threshold num_nodes) ∅
  with
  | Ok (G, _) => Ok G
  | Raise e => Raise e
  end.

Module HCPDataset.
Section Process.
Context {E : Type} `{RobustScaler E} `{DescriptorBank E} `{NanTest E}.
Context `{ArgSort}.
(** The attributes of [self] and the constants of [utils_datasets] that the
    method reads. *)
Variable num_nodes time_length : nat.
Variable threshold : Z.
Variable connectivity_type : ConnType.
Variable normalisation : Normalisation.
Variable encoding_strategy : EncodingStrategy.t.
Variable analysis_type : AnalysisType.
Variable nodefeats : Z → result (list (list E)).
Variable info_gender : Z → result E.
Variable DESIKAN_COMPLETE_TS DESIKAN_TRACKS : list Z.
(** [np.genfromtxt(get_desikan_tracks_path(person))] and
    [np.genfromtxt(get_desikan_ts_path(person, direction))]: what the files
    hold, or the error of reading them. *)
Variable genfromtxt_tracks : Z → result (list (list Z)).
Variable genfromtxt_ts : Z → string → result (list (list E)).

(** Line 267: [np.concatenate((np.arange(0, 34), np.arange(49, 83)))]. *)
Definition idx_to_filter : list nat := seq 0 34 ++ seq 49 34.

Definition directions : list string := ["1_LR"; "1_RL"; "2_LR"; "2_RL"].

(** Lines 275 to 285: the scans of one subject. *)
Fixpoint direction_loop (person : Z) (edge_index : list (nat * nat))
    (todo : list (nat * string)) (data_list : list (HCPData E))
  : result (list (HCPData E)) :=
  match todo with
  | [] => Ok data_list
  | (ind, direction) :: todo =>
      try ts <- genfromtxt_ts person direction;
      let ts := transpose ts in
      try ts <- take_columns idx_to_filter ts;
      try _ <- assert (Nat.eqb (nrows ts) 1200);
      try _ <- assert (Nat.eqb (ncols ts) 68);
      try data <- create_data_object num_nodes time_length normalisation
                    encoding_strategy analysis_type nodefeats info_gender
                    person ts ind edge_index;
      direction_loop person edge_index todo (data_list ++ [data])
  end.

(** Lines 267 to 285: the body of the loop for structural connectivity. *)
Definition struct_body (person : Z) (data_list : list (HCPData E))
  : result (list (HCPData E)) :=
  try arr_struct <- genfromtxt_tracks person;
  try arr_struct <- take_rows idx_to_filter arr_struct;
  try arr_struct <- take_columns idx_to_filter arr_struct;
  try G <- graph_of_copy arr_struct threshold num_nodes;
  let edge_index := edges G in
  direction_loop person edge_index (enumerate directions) data_list.

(** Lines 247 to 285. *)
Fixpoint person_loop (filtered_people : list Z) (data_list : list (HCPData E))
  : outcome (list (HCPData E)) :=
  match filtered_people with
  | [] => Returned data_list
  | person :: filtered_people =>
      match connectivity_type with
      | FMRI => Exited (-2)
      | STRUCT =>
          match struct_body person data_list with
          | Ok data_list => person_loop filtered_people data_list
          | Raise e => Raised e
          end
      end
  end.

(** Lines 234 to 288; the result is the list handed to [self.collate]. *)
Definition process : outcome (list (HCPData E)) :=
  if negb (Nat.eqb time_length 1200) then Raised AssertionError
  else if Nat.eqb num_nodes 50 then Exited (-1)
  else person_loop (sorted_intersection DESIKAN_COMPLETE_TS DESIKAN_TRACKS) [].

(** What the loop body requires of one scan and makes of it. *)
Definition scan_sample (person : Z) (edge_index : list (nat * nat))
    (scan : nat * string) (data : HCPData E) : Prop :=
  ∃ raw ts,
    genfromtxt_ts person scan.2 = Ok raw ∧
    take_columns idx_to_filter (transpose raw) = Ok ts ∧
    nrows ts = 1200%nat ∧ ncols ts = 68%nat ∧
    create_data_object num_nodes time_length normalisation encoding_strategy
      analysis_type nodefeats info_gender person ts scan.1 edge_index
    = Ok data.

(** The cortical block of the tract matrix of a subject and its graph. *)
Definition subject_graph (person : Z) (G : DiGraph) : Prop :=
  ∃ tracks rows arr_struct,
    genfromtxt_tracks person = Ok tracks ∧
    take_rows idx_to_filter tracks = Ok rows ∧
    take_columns idx_to_filter rows = Ok arr_struct ∧
    graph_of_copy arr_struct threshold num_nodes = Ok G.

End Process.
End HCPDataset.
(** *** A run on two subjects

    Integers with a NaN ([None]) as measurements, a scaler that leaves
    every block as it is, and a descriptor library in which no descriptor
    is defined: every descriptor is NaN on every series. *)

#[global] Instance integer_NanTest : NanTest (option Z) := {|
  isnan := λ v, match v with None => true | Some _ => false end;
  float_zero := Some 0;
  float_zero_not_nan := eq_refl;
|}.

#[global] Instance integer_RobustScaler : RobustScaler (option Z) := {|
  scaler := unit;
  scaler_fit := identity_fit;
  scaler_transform := identity_transform;
  scaler_fit_transform := λ X r c HX _ _,
    ex_intro _ tt (ex_intro _ X (conj eq_refl (conj eq_refl HX)));
|}.

Definition undefined_descriptor (series : list (option Z))
  : result (option Z) :=
  Ok None.

#[global] Instance undefined_DescriptorBank : DescriptorBank (option Z) := {|
  np_mean := undefined_descriptor;
  np_std := undefined_descriptor;
  np_min := undefined_descriptor;
  np_max := undefined_descriptor;
  skew := undefined_descriptor;
  kurtosis := undefined_descriptor;
  app_entropy := undefined_descriptor;
  perm_entropy := undefined_descriptor;
  sample_entropy := undefined_descriptor;
  spectral_entropy := undefined_descriptor;
  svd_entropy := undefined_descriptor;
  detrended_fluctuation := undefined_descriptor;
  higuchi_fd := undefined_descriptor;
  katz_fd := undefined_descriptor;
  petrosian_fd := undefined_descriptor;
  hurst_rs := undefined_descriptor;
|}.

(** Tract matrices of 83 regions with entries above the diagonal only,
    scans of 83 regions and 1200 timepoints in which the series of a region
    is constant, one covariate per cortical region. *)

Definition example_tracks (person : Z) : result (list (list Z)) :=
  Ok ((λ a, (λ b, if Nat.ltb a b then Z.of_nat ((a + b) mod 5) else 0)
              <$> seq 0 83) <$> seq 0 83).

Definition example_scan (person : Z) (direction : string)
  : result (list (list (option Z))) :=
  Ok ((λ a, replicate 1200 (Some (Z.of_nat a))) <$> seq 0 83).

Definition example_cortical_nodefeats (person : Z)
  : result (list (list (option Z))) :=
  Ok ((λ a, [Some (Z.of_nat a)]) <$> seq 0 68).

Definition example_subject_gender (person : Z) : result (option Z) :=
  Ok (Some (person mod 2)).

Definition example_complete_ts : list Z := [100408; 100206; 100307].
Definition example_with_tracks : list Z := [100307; 100206; 100610].

Abbreviation example_hcp_process :=
  (HCPDataset.process 68 1200 20 STRUCT NONE EncodingStrategy.STATS
     ST_MULTIMODAL example_cortical_nodefeats example_subject_gender
     example_complete_ts example_with_tracks example_tracks example_scan).

Definition example_hcp_samples `{ArgSort} : list (HCPData (option Z)) :=
  match example_hcp_process with
  | Returned data_list => data_list
  | _ => []
  end.

(** The first sample of the run. *)
Definition example_hcp_sample `{ArgSort} : HCPData (option Z) :=
  default {| hcp_x := []; hcp_edge_index := []; hcp_y := None;
             hcp_id := 0; hcp_index := 0 |}
    (head example_hcp_samples).

(** Whether a call has returned a list that is not empty. *)
Definition returned_some {A} (o : outcome (list A)) : bool :=
  match o with
  | Returned (_ :: _) => true
  | _ => false
  end.
(** ** [create_hcp_correlation_vals] *)

(** [np.triu_indices(n, k=1)]: the pairs [(i, j)] with [i < j < n], row by
    row. *)
Definition triu_indices (n : nat) : list (nat * nat) :=
  i ← seq 0 n; (λ j, (i, j)) <$> seq (S i) (n - S i).

(** [A[(rows, cols)]] with index arrays: a new 1-D array of the entries;
    IndexError when an index is outside the shape. *)
Definition getitem (ps : list (nat * nat)) (A : list (list Z))
  : result (list Z) :=
  if forallb (in_bounds A) ps then Ok (gather A ps) else Raise IndexError.

(** [a[a != 0] = 1] on a 1-D array. *)
Definition set_nonzero_to_one (a : list Z) : list Z :=
  (λ v, if decide (v ≠ 0) then 1 else v) <$> a.

(** [threshold_adj_array] on an array object that the caller has just
    loaded and binds to no other name: the array that the call returns. *)
Definition thresholded_copy `{ArgSort}
    (arr : list (list Z)) (threshold : Z) (num_nodes : nat)
  : result (list (list Z)) :=
  match (do r <- alloc arr;
         do r' <- threshold_adj_array r threshold num_nodes;
         load r') ∅
  with
  | Ok (B, _) => Ok B
  | Raise e => Raise e
  end.

Section CorrelationVals.
Context `{ArgSort}.
Variable OLD_NETMATS_PEOPLE : list Z.
(** [np.load(get_adj_50_path(person, index, ts_split))]. *)
Variable np_load : Z → nat → nat → result (list (list Z)).
Variable num_nodes ts_split_num : nat.
Variable binarise : bool.
Variable threshold : Z.

(** Lines 385 to 391: the vector stored for one loaded matrix. *)
Definition flatten_array (corr_arr : list (list Z)) : result (list Z) :=
  try corr_arr <-
    (if binarise then thresholded_copy corr_arr threshold num_nodes
     else Ok corr_arr);
  try flatten_array <- getitem (triu_indices num_nodes) corr_arr;
  Ok (if binarise then set_nonzero_to_one flatten_array else flatten_array).

(** Lines 382 to 393 for one subject. *)
Fixpoint split_loop (person : Z) (inds : list nat)
    (final_dict : gmap (Z * nat) (list Z))
  : result (gmap (Z * nat) (list Z)) :=
  match inds with
  | [] => Ok final_dict
  | ind :: inds =>
      try corr_arr <- np_load person ind ts_split_num;
      try flatten_array <- flatten_array corr_arr;
      split_loop person inds (<[(person, ind) := flatten_array]> final_dict)
  end.

Fixpoint correlation_loop (people : list Z)
    (final_dict : gmap (Z * nat) (list Z))
  : result (gmap (Z * nat) (list Z)) :=
  match people with
  | [] => Ok final_dict
  | person :: people =>
      try final_dict <- split_loop person (seq 0 ts_split_num) final_dict;
      correlation_loop people final_dict
  end.

(** Lines 378 to 395. *)
Definition create_hcp_correlation_vals
  : result (gmap (Z * nat) (list Z)) :=
  correlation_loop OLD_NETMATS_PEOPLE ∅.

(** What the loop computes for the key [(person, ind)]. *)
Definition stored_vector (person : Z) (ind : nat) : result (list Z) :=
  try corr_arr <- np_load person ind ts_split_num;
  flatten_array corr_arr.

End CorrelationVals.
(** *** Stored matrices of two subjects *)

Definition example_np_load (person : Z) (ind ts_split : nat)
  : result (list (list Z)) :=
  Ok ((λ a, (λ b, if Nat.eqb a b then 1
                  else (person + Z.of_nat (ind + a + b)) mod 3)
              <$> seq 0 4) <$> seq 0 4).

Abbreviation example_correlation_call :=
  (create_hcp_correlation_vals [100206; 100307] example_np_load 4 2 true 50).

Definition example_correlation_vals `{ArgSort} : gmap (Z * nat) (list Z) :=
  match example_correlation_call with
  | Ok final_dict => final_dict
  | Raise _ => ∅
  end.

(** Whether a call has returned. *)
Definition returned {A} (m : result A) : bool :=
  match m with
  | Ok _ => true
  | Raise _ => false
  end.

(** * Part II: properties *)

(** ** The merge sort is an [argsort] *)

Lemma zip_seq_lookup_total (l : list Z) (p : Z * nat) :
  p ∈ zip l (seq 0 (length l)) → l !!! p.2 = p.1.
Proof.
  intros Hp. apply list_elem_of_lookup in Hp as [i Hi].
  apply lookup_zip_with_Some in Hi as (x & y & -> & Hx & Hy).
  apply lookup_seq in Hy as [-> _]. simpl.
  by apply list_lookup_total_correct.
Qed.

#[global] Instance pair_le_total : Total pair_le.
Proof. intros x y. unfold pair_le. lia. Qed.

#[global] Instance pair_le_trans : Transitive pair_le.
Proof. intros x y z. unfold pair_le. lia. Qed.

Lemma merge_argsort_perm (l : list Z) :
  merge_argsort l ≡ₚ seq 0 (length l).
Proof.
  unfold merge_argsort. rewrite merge_sort_Permutation.
  rewrite snd_zip; [done | by rewrite length_seq].
Qed.

Lemma merge_argsort_sorted (l : list Z) :
  StronglySorted Z.le (take_at l (merge_argsort l)).
Proof.
  unfold take_at, merge_argsort. rewrite <- list_fmap_compose.
  assert (Hval : Forall (λ p, l !!! p.2 = p.1)
                   (merge_sort pair_le (zip l (seq 0 (length l))))).
  { apply Forall_forall. intros p Hp. apply zip_seq_lookup_total.
    by rewrite merge_sort_Permutation in Hp. }
  rewrite (Forall_fmap_ext_1 ((λ s, l !!! s) ∘ snd) fst _ Hval).
  apply StronglySorted_fmap with (R1 := pair_le); [by intros x y |].
  apply StronglySorted_merge_sort; apply _.
Qed.

#[global] Instance merge_ArgSort : ArgSort := {|
  argsort := merge_argsort;
  argsort_perm := merge_argsort_perm;
  argsort_sorted := merge_argsort_sorted;
|}.

Section NdarrayFacts.
Context {E : Type}.
Implicit Types X : list (list E).

(** ** Shapes and entries of the array operations *)

Lemma is_shape_nrows r c X : is_shape r c X → nrows X = r.
Proof. by intros [? _]. Qed.

Lemma is_shape_ncols r c X : is_shape r c X → (0 < r)%nat → ncols X = c.
Proof.
  intros [Hr Hc] Hpos. destruct X as [|row X]; simpl in *; [lia |].
  by inv Hc.
Qed.

Lemma is_square_ncols n X : is_shape n n X → ncols X = n.
Proof.
  intros HX. destruct n as [|n]; [| apply (is_shape_ncols _ _ _ HX); lia].
  destruct HX as [Hr _]. by destruct X.
Qed.

Lemma shape_eqb_spec r c X : shape_eqb r c X = true ↔ is_shape r c X.
Proof.
  unfold shape_eqb, is_shape.
  rewrite andb_true_iff, Nat.eqb_eq, forallb_forall, Forall_forall.
  split; intros [? Hall]; (split; [done |]); intros row Hrow.
  - apply Nat.eqb_eq, Hall. by apply list_elem_of_In.
  - apply Nat.eqb_eq, Hall. by apply list_elem_of_In.
Qed.

Lemma entry_Some_lt r c X i j x :
  is_shape r c X → entry X i j = Some x → (i < r ∧ j < c)%nat.
Proof.
  intros [Hr Hc] He. unfold entry in He.
  destruct (X !! i) as [row|] eqn:Hrow; [simpl in He | done].
  split; [rewrite <- Hr; by eapply lookup_lt_Some |].
  rewrite Forall_lookup in Hc. rewrite <- (Hc _ _ Hrow).
  by eapply lookup_lt_Some.
Qed.

Lemma entry_is_Some r c X i j :
  is_shape r c X → (i < r)%nat → (j < c)%nat → is_Some (entry X i j).
Proof.
  intros [Hr Hc] Hi Hj. unfold entry.
  destruct (lookup_lt_is_Some_2 X i) as [row Hrow]; [lia |].
  rewrite Hrow. simpl. apply lookup_lt_is_Some_2.
  rewrite Forall_lookup in Hc. rewrite (Hc _ _ Hrow). lia.
Qed.

Lemma entry_set_entry i j v X i' j' :
  entry (set_entry i j v X) i' j' =
    if decide ((i, j) = (i', j')) then (λ _, v) <$> entry X i' j'
    else entry X i' j'.
Proof.
  unfold entry, set_entry. destruct (decide (i = i')) as [->|Hi].
  - rewrite list_lookup_alter_eq. destruct (X !! i') as [row|]; simpl.
    + rewrite list_lookup_insert.
      destruct (decide (j = j')) as [->|Hj]; repeat case_decide;
        try done; try (exfalso; intuition congruence).
      * destruct (lookup_lt_is_Some_2 row j') as [? ->]; [lia | done].
      * rewrite lookup_ge_None_2; [done | lia].
    + by case_decide.
  - rewrite list_lookup_alter_ne by done. case_decide; by simplify_eq.
Qed.

Lemma entry_assign ps v X i j :
  entry (assign ps v X) i j =
    if decide ((i, j) ∈ ps) then (λ _, v) <$> entry X i j else entry X i j.
Proof.
  induction ps as [|[a b] ps IH].
  - rewrite decide_False; [done | apply not_elem_of_nil].
  - change (assign ((a, b) :: ps) v X)
      with (set_entry a b v (assign ps v X)).
    rewrite entry_set_entry, IH.
    destruct (decide ((a, b) = (i, j))) as [Heq|Hne].
    + rewrite (decide_True (P := (i, j) ∈ (a, b) :: ps))
        by (rewrite <- Heq; left).
      case_decide; [by destruct (entry X i j) | done].
    + destruct (decide ((i, j) ∈ ps)) as [Hin|Hin].
      * by rewrite decide_True by (by right).
      * rewrite decide_False; [done |].
        intros [?|?]%elem_of_cons; congruence.
Qed.

Lemma is_shape_set_entry r c i j v X :
  is_shape r c X → is_shape r c (set_entry i j v X).
Proof.
  intros [Hr Hc]. unfold set_entry. split; [by rewrite length_alter |].
  apply Forall_lookup. intros k row Hk. rewrite Forall_lookup in Hc.
  rewrite list_lookup_alter in Hk. case_decide; [subst | by eauto].
  destruct (X !! k) as [row'|] eqn:Hrow; simplify_eq/=.
  rewrite length_insert. by eauto.
Qed.

Lemma is_shape_assign r c ps v X :
  is_shape r c X → is_shape r c (assign ps v X).
Proof.
  intros HX. induction ps as [|p ps IH]; simpl; [done |].
  by apply is_shape_set_entry.
Qed.

Lemma setitem_Ok n ps v X :
  is_shape n n X → Forall (λ p, (p.1 < n ∧ p.2 < n)%nat) ps →
  setitem ps v X = Ok (assign ps v X).
Proof.
  intros HX Hps. unfold setitem.
  assert (forallb (in_bounds X) ps = true) as ->; [| done].
  apply forallb_forall. intros p Hp%list_elem_of_In.
  rewrite Forall_forall in Hps. unfold in_bounds.
  rewrite (is_shape_nrows _ _ _ HX), (is_square_ncols _ _ HX).
  apply andb_true_iff. rewrite !Nat.ltb_lt. by apply Hps.
Qed.

Lemma omap_lookup_column X j i :
  Forall (λ row, (j < length row)%nat) X →
  omap (.!! j) X !! i = X !! i ≫= (.!! j).
Proof.
  intros Hall. revert i. induction Hall as [|row X Hrow _ IH]; intros i.
  - done.
  - simpl. destruct (lookup_lt_is_Some_2 row j Hrow) as [x Hx].
    rewrite Hx. destruct i; simpl; [done | apply IH].
Qed.

Lemma entry_transpose r c X i j :
  is_shape r c X → entry (transpose X) j i = entry X i j.
Proof.
  intros HX. unfold transpose, entry at 1.
  rewrite list_lookup_fmap.
  destruct (decide (j < ncols X)%nat) as [Hj|Hj].
  - rewrite lookup_seq_lt by done. simpl.
    apply omap_lookup_column. destruct HX as [Hr Hc].
    destruct X as [|row X]; [done |].
    unfold ncols in Hj. simpl in Hj. inv Hc.
    constructor; [done |]. eapply Forall_impl; [done |]. simpl. lia.
  - rewrite lookup_seq_ge by lia. simpl. symmetry.
    destruct (entry X i j) as [x|] eqn:He; [| done].
    destruct (entry_Some_lt _ _ _ _ _ _ HX He) as [Hi Hj'].
    rewrite (is_shape_ncols _ _ _ HX) in Hj; lia.
Qed.

Lemma is_shape_transpose r c X :
  is_shape r c X → (0 < r)%nat → is_shape c r (transpose X).
Proof.
  intros HX Hpos. unfold transpose.
  rewrite (is_shape_ncols _ _ _ HX Hpos). destruct HX as [Hr Hc].
  split; [by rewrite length_fmap, length_seq |].
  apply Forall_fmap, Forall_forall. intros j Hj%elem_of_seq. simpl.
  clear Hpos. subst r. induction Hc as [|row X Hrow _ IH]; [done |].
  simpl. destruct (lookup_lt_is_Some_2 row j) as [x ->]; [lia |].
  simpl. f_equal. exact IH.
Qed.

Lemma is_square_transpose n X : is_shape n n X → is_shape n n (transpose X).
Proof.
  intros HX. destruct n as [|n]; [| apply is_shape_transpose; [done | lia]].
  destruct HX as [Hr _]. by destruct X.
Qed.

End NdarrayFacts.

Lemma elem_of_grid r c i j : (i, j) ∈ grid r c ↔ (i < r ∧ j < c)%nat.
Proof.
unfold grid. rewrite list_elem_of_bind. split.
- intros (a & Hj & Ha). apply list_elem_of_fmap in Hj as (b & Heq & Hb).
  apply elem_of_seq in Ha, Hb. simplify_eq. lia.
- intros [Hi Hj]. exists i. split; [| apply elem_of_seq; lia].
  apply list_elem_of_fmap. exists j. split; [done | apply elem_of_seq; lia].
Qed.

Lemma NoDup_grid r c : NoDup (grid r c).
Proof.
unfold grid. apply NoDup_bind; [| | apply NoDup_seq].
- intros a b [i j] _ _ Ha Hb.
  apply list_elem_of_fmap in Ha as (? & ? & _).
  apply list_elem_of_fmap in Hb as (? & ? & _). congruence.
- intros a _. apply NoDup_fmap; [| apply NoDup_seq].
  intros x y. congruence.
Qed.

Lemma elem_of_tril_indices n i j :
  (i, j) ∈ tril_indices n ↔ (j ≤ i ∧ i < n)%nat.
Proof.
unfold tril_indices. rewrite list_elem_of_bind. split.
- intros (a & Hj & Ha). apply list_elem_of_fmap in Hj as (b & Heq & Hb).
  apply elem_of_seq in Ha, Hb. simplify_eq. lia.
- intros [Hj Hi]. exists i. split; [| apply elem_of_seq; lia].
  apply list_elem_of_fmap. exists j. split; [done | apply elem_of_seq; lia].
Qed.

Lemma elem_of_diag_indices n i j :
  (i, j) ∈ diag_indices n ↔ (i = j ∧ i < n)%nat.
Proof.
unfold diag_indices. rewrite list_elem_of_fmap. split.
- intros (a & Heq & Ha). apply elem_of_seq in Ha. simplify_eq. lia.
- intros [-> Hi]. exists j. split; [done | apply elem_of_seq; lia].
Qed.

Lemma get_outside r c (A : list (list Z)) i j :
  is_shape r c A → ¬ (i < r ∧ j < c)%nat → get A i j = 0.
Proof.
intros HA Hout. unfold get. destruct (entry A i j) as [x|] eqn:He; [| done].
destruct Hout. by eapply entry_Some_lt.
Qed.

Lemma get_assign r c ps v (A : list (list Z)) i j :
  is_shape r c A → Forall (λ p, (p.1 < r ∧ p.2 < c)%nat) ps →
  get (assign ps v A) i j = if decide ((i, j) ∈ ps) then v else get A i j.
Proof.
intros HA Hps. unfold get. rewrite entry_assign. case_decide as Hin; [| done].
rewrite Forall_forall in Hps. destruct (Hps _ Hin) as [Hi Hj].
cbn [fst snd] in Hi, Hj.
by destruct (entry_is_Some _ _ _ _ _ HA Hi Hj) as [x ->].
Qed.

Lemma elem_of_np_where r c (A : list (list Z)) i j :
  is_shape r c A → (i, j) ∈ np_where A ↔ get A i j ≠ 0.
Proof.
intros HA. unfold np_where. rewrite list_elem_of_filter, elem_of_grid.
unfold nonzero. cbn [fst snd]. split; [by intros [? _] |]. intros Hnz.
split; [done |]. destruct (decide (i < r ∧ j < c)%nat) as [[Hi Hj]|Hout].
- rewrite (is_shape_nrows _ _ _ HA), (is_shape_ncols _ _ _ HA); lia.
- by rewrite (get_outside _ _ _ _ _ HA Hout) in Hnz.
Qed.

Lemma np_where_in_range r c (A : list (list Z)) :
  is_shape r c A → Forall (λ p, (p.1 < r ∧ p.2 < c)%nat) (np_where A).
Proof.
intros HA. apply Forall_forall. intros [i j] Hp. cbn [fst snd].
apply (elem_of_np_where _ _ _ _ _ HA) in Hp.
destruct (decide (i < r ∧ j < c)%nat) as [|Hout]; [done |].
by rewrite (get_outside _ _ _ _ _ HA Hout) in Hp.
Qed.

Lemma NoDup_np_where (A : list (list Z)) : NoDup (np_where A).
Proof. apply NoDup_filter, NoDup_grid. Qed.

Lemma is_shape_zip_add r c (A B : list (list Z)) :
  is_shape r c A → is_shape r c B →
  is_shape r c (zip_with (zip_with Z.add) A B).
Proof.
intros [HrA HcA] [HrB HcB]. split.
- rewrite length_zip_with. lia.
- apply Forall_lookup. intros i row Hi.
  apply lookup_zip_with_Some in Hi as (a & b & -> & Ha & Hb).
  rewrite Forall_lookup in HcA, HcB.
  rewrite length_zip_with, (HcA _ _ Ha), (HcB _ _ Hb). lia.
Qed.

Lemma get_zip_add r c (A B : list (list Z)) i j :
  is_shape r c A → is_shape r c B →
  get (zip_with (zip_with Z.add) A B) i j = get A i j + get B i j.
Proof.
intros HA HB. destruct (decide (i < r ∧ j < c)%nat) as [[Hi Hj]|Hout].
- destruct (entry_is_Some _ _ _ _ _ HA Hi Hj) as [x Hx].
  destruct (entry_is_Some _ _ _ _ _ HB Hi Hj) as [y Hy].
  unfold get. rewrite Hx, Hy. simpl.
  unfold entry in *. rewrite lookup_zip_with.
  destruct (A !! i) as [ra|]; [| done]. destruct (B !! i) as [rb|]; [| done].
  simpl in *. rewrite lookup_zip_with, Hx, Hy. done.
- rewrite (get_outside _ _ _ _ _ HA Hout), (get_outside _ _ _ _ _ HB Hout).
  apply (get_outside r c); [by apply is_shape_zip_add | done].
Qed.

Lemma np_add_Ok n (A B : list (list Z)) :
  is_shape n n A → is_shape n n B →
  np_add A B = Ok (zip_with (zip_with Z.add) A B).
Proof.
intros HA HB. unfold np_add.
rewrite (is_shape_nrows _ _ _ HA), (is_square_ncols _ _ HA).
apply shape_eqb_spec in HA, HB. by rewrite HA, HB.
Qed.

Lemma get_transpose r c (A : list (list Z)) i j :
  is_shape r c A → get (transpose A) j i = get A i j.
Proof. intros HA. unfold get. by rewrite (entry_transpose r c). Qed.

(** ** The stages of the builder *)

Section StagesFacts.
Context `{ArgSort}.

Lemma py_slice_from_drop {T} (k : Z) (l : list T) :
  py_slice_from k l = drop (keep_len k (length l)) l.
Proof.
unfold py_slice_from, keep_len. destruct (Z.leb 0 k); [| done].
destruct (Nat.min_spec (Z.to_nat k) (length l)) as [[_ ->]|[Hle ->]]; [done |].
by rewrite !drop_ge by lia.
Qed.

Lemma take_at_seq {T} `{Inhabited T} (a : list T) :
  take_at a (seq 0 (length a)) = a.
Proof.
unfold take_at. apply list_eq. intros i. rewrite list_lookup_fmap.
destruct (decide (i < length a)%nat) as [Hi|Hi].
- rewrite lookup_seq_lt by done. simpl.
  by rewrite list_lookup_lookup_total_lt.
- rewrite lookup_seq_ge by lia. simpl. symmetry. apply lookup_ge_None_2. lia.
Qed.

Lemma take_at_perm {T} `{Inhabited T} (a : list T) (idx : list nat) :
  idx ≡ₚ seq 0 (length a) → take_at a idx ≡ₚ a.
Proof.
intros Hperm. rewrite <- (take_at_seq a) at 2. unfold take_at.
by apply fmap_Permutation.
Qed.

Lemma ranked_perm (A : list (list Z)) : ranked A ≡ₚ np_where A.
Proof.
unfold ranked. apply take_at_perm. rewrite reverse_Permutation, argsort_perm.
unfold gather. by rewrite length_fmap.
Qed.

Lemma kept_filtered_out k (A : list (list Z)) :
  kept k A ++ filtered_out k A = ranked A.
Proof.
unfold kept, filtered_out. rewrite py_slice_from_drop. apply take_drop.
Qed.

Lemma NoDup_ranked (A : list (list Z)) : NoDup (ranked A).
Proof. rewrite ranked_perm. apply NoDup_np_where. Qed.

Lemma elem_of_kept_ranked k (A : list (list Z)) p :
  p ∈ ranked A ↔ p ∈ kept k A ∨ p ∈ filtered_out k A.
Proof. by rewrite <- (kept_filtered_out k A), elem_of_app. Qed.

Lemma kept_not_filtered_out k (A : list (list Z)) p :
  p ∈ kept k A → p ∉ filtered_out k A.
Proof.
intros Hk. pose proof (NoDup_ranked A) as Hnd.
rewrite <- (kept_filtered_out k A) in Hnd.
apply NoDup_app in Hnd as (_ & Hdisj & _). by apply Hdisj.
Qed.

Lemma NoDup_kept k (A : list (list Z)) : NoDup (kept k A).
Proof.
pose proof (NoDup_ranked A) as Hnd.
rewrite <- (kept_filtered_out k A) in Hnd.
by apply NoDup_app in Hnd as (? & _ & _).
Qed.

Lemma length_kept k (A : list (list Z)) :
  length (kept k A) = keep_len k (length (np_where A)).
Proof.
unfold kept. rewrite length_take, (Permutation_length (ranked_perm A)).
unfold keep_len. destruct (Z.leb 0 k); lia.
Qed.

Lemma filtered_out_in_range r c k (A : list (list Z)) :
  is_shape r c A →
  Forall (λ p, (p.1 < r ∧ p.2 < c)%nat) (filtered_out k A).
Proof.
intros HA. apply Forall_forall. intros p Hp.
pose proof (np_where_in_range _ _ _ HA) as Hall.
rewrite Forall_forall in Hall. apply Hall.
rewrite <- ranked_perm. apply (elem_of_kept_ranked k). by right.
Qed.

Lemma kept_nonzero r c k (A : list (list Z)) i j :
  is_shape r c A → (i, j) ∈ kept k A → get A i j ≠ 0.
Proof.
intros HA Hk. apply (elem_of_np_where _ _ _ _ _ HA).
rewrite <- ranked_perm. apply (elem_of_kept_ranked k). by left.
Qed.

(** Line 50 keeps the entries at the [kept] positions and zeroes the rest. *)
Lemma get_keep_top r c k (A : list (list Z)) i j :
  is_shape r c A →
  get (assign (filtered_out k A) 0 A) i j =
    if decide ((i, j) ∈ kept k A) then get A i j else 0.
Proof.
intros HA.
rewrite (get_assign r c) by eauto using filtered_out_in_range.
case_decide as Hout; case_decide as Hin; try done.
- by destruct (kept_not_filtered_out _ _ _ Hin).
- destruct (decide (get A i j = 0)) as [|Hnz]; [done |].
  apply (elem_of_np_where _ _ _ _ _ HA) in Hnz.
  rewrite <- ranked_perm in Hnz.
  apply (elem_of_kept_ranked k) in Hnz as [|]; done.
Qed.

(** Line 45 zeroes the lower triangle and the diagonal. *)
Lemma get_zero_tril n (A : list (list Z)) i j :
  is_shape n n A →
  get (zero_tril n A) i j = if decide (i < j)%nat then get A i j else 0.
Proof.
intros HA. unfold zero_tril. rewrite (get_assign n n); [| done |].
- case_decide as Hin; case_decide as Hlt; try done.
  + apply elem_of_tril_indices in Hin. lia.
  + rewrite elem_of_tril_indices in Hin.
    apply (get_outside n n); [done | lia].
- apply Forall_forall. intros [a b] Hp%elem_of_tril_indices. simpl. lia.
Qed.

Lemma is_shape_zero_tril r c n (A : list (list Z)) :
  is_shape r c A → is_shape r c (zero_tril n A).
Proof. apply is_shape_assign. Qed.

Lemma is_shape_caller_array r c k n (A : list (list Z)) :
  is_shape r c A → is_shape r c (caller_array k n A).
Proof. intros HA. by apply is_shape_assign, is_shape_zero_tril. Qed.

Lemma is_shape_symmetrised k n (A : list (list Z)) :
  is_shape n n A → is_shape n n (symmetrised k n A).
Proof.
intros HA. apply is_shape_zip_add; [| apply is_square_transpose];
  by apply is_shape_caller_array.
Qed.

Lemma is_shape_returned_array k n (A : list (list Z)) :
  is_shape n n A → is_shape n n (returned_array k n A).
Proof. intros HA. by apply is_shape_assign, is_shape_symmetrised. Qed.

(** The kept positions lie strictly above the diagonal. *)
Lemma kept_upper k n (A : list (list Z)) i j :
  is_shape n n A → (i, j) ∈ kept k (zero_tril n A) → (i < j ∧ j < n)%nat.
Proof.
intros HA Hk.
pose proof (kept_nonzero n n k _ i j (is_shape_zero_tril _ _ n _ HA) Hk)
  as Hnz.
rewrite (get_zero_tril _ _ _ _ HA) in Hnz. case_decide; [| done].
split; [done |]. destruct (decide (j < n)%nat); [done |].
destruct Hnz. apply (get_outside n n); [done | lia].
Qed.

Lemma get_caller_array k n (A : list (list Z)) i j :
  is_shape n n A →
  get (caller_array k n A) i j =
    if decide ((i, j) ∈ kept k (zero_tril n A)) then get A i j else 0.
Proof.
intros HA. unfold caller_array.
rewrite (get_keep_top n n) by by apply is_shape_zero_tril.
case_decide as Hin; [| done].
rewrite (get_zero_tril _ _ _ _ HA).
destruct (kept_upper _ _ _ _ _ HA Hin). by rewrite decide_True.
Qed.

Lemma get_returned_array k n (A : list (list Z)) i j :
  is_shape n n A →
  get (returned_array k n A) i j =
    if decide (i = j ∧ i < n)%nat then 1
    else get (caller_array k n A) i j + get (caller_array k n A) j i.
Proof.
intros HA. unfold returned_array.
rewrite (get_assign n n); [| by apply is_shape_symmetrised |].
- unfold symmetrised.
  rewrite (get_zip_add n n), (get_transpose n n);
    [| by apply is_shape_caller_array ..
     | by apply is_square_transpose, is_shape_caller_array].
  repeat case_decide; try done.
  + rewrite elem_of_diag_indices in *. done.
  + rewrite elem_of_diag_indices in *. done.
- apply Forall_forall. intros [a b] Hp%elem_of_diag_indices. simpl. lia.
Qed.

(** *** Running the builder on the store *)

Lemma threshold_adj_array_from_run k (r : loc) n (h : heap) A :
  h !! r = Some A → is_shape n n A →
  ∃ r', h !! r' = None ∧
    threshold_adj_array_from k r n h =
      Ok (r', <[r' := returned_array k n A]> (<[r := caller_array k n A]> h)).
Proof.
intros Hr HA.
pose proof (is_shape_zero_tril _ _ n _ HA) as HA1.
pose proof (is_shape_caller_array _ _ k n _ HA) as HA2.
pose proof (is_shape_symmetrised k _ _ HA) as HS.
set (h2 := <[r := caller_array k n A]> h).
exists (fresh (dom h2)).
assert (h2 !! fresh (dom h2) = None) as Hfresh.
{ apply not_elem_of_dom, is_fresh. }
split.
- unfold h2 in Hfresh. apply lookup_insert_None in Hfresh. tauto.
- unfold threshold_adj_array_from, py_bind, load, lift, store, alloc, py_ret.
  rewrite Hr.
  rewrite (setitem_Ok n) by
    (done || (apply Forall_forall; intros [a b] Hp%elem_of_tril_indices;
              simpl; lia)).
  fold (zero_tril n A).
  rewrite (setitem_Ok n) by (done || by apply filtered_out_in_range).
  fold (caller_array k n A).
  rewrite (np_add_Ok n) by (done || by apply is_square_transpose).
  fold (symmetrised k n A).
  rewrite (setitem_Ok n) by
    (done || (apply Forall_forall; intros [a b] Hp%elem_of_diag_indices;
              simpl; lia)).
  fold (returned_array k n A).
  rewrite !insert_insert_eq. done.
Qed.

Lemma create_thresholded_graph_from_run k (r : loc) n (h : heap) A :
  h !! r = Some A → is_shape n n A →
  ∃ h', create_thresholded_graph_from k r n h =
          Ok (from_numpy_array (returned_array k n A), h').
Proof.
intros Hr HA.
destruct (threshold_adj_array_from_run k r n h A Hr HA) as (r' & _ & Hrun).
eexists. unfold create_thresholded_graph_from, py_bind at 1 2.
rewrite Hrun. unfold load, py_ret. by rewrite lookup_insert_eq.
Qed.

(** The edges of the returned adjacency: the self-loops, the kept
    positions and their mirror images. *)
Lemma elem_of_returned_edges k n A i j :
  is_shape n n A →
  (i, j) ∈ edges (from_numpy_array (returned_array k n A)) ↔
    (i = j ∧ i < n)%nat
    ∨ (i, j) ∈ kept k (zero_tril n A)
    ∨ (j, i) ∈ kept k (zero_tril n A).
Proof.
intros HA. simpl.
rewrite (elem_of_np_where n n) by by apply is_shape_returned_array.
rewrite (get_returned_array _ _ _ _ _ HA).
rewrite !(get_caller_array _ _ _ _ _ HA).
pose proof (kept_upper k n A i j HA) as Hij.
pose proof (kept_upper k n A j i HA) as Hji.
pose proof (kept_nonzero n n k (zero_tril n A) i j
              (is_shape_zero_tril _ _ n _ HA)) as Hnij.
pose proof (kept_nonzero n n k (zero_tril n A) j i
              (is_shape_zero_tril _ _ n _ HA)) as Hnji.
rewrite (get_zero_tril _ _ _ _ HA) in Hnij.
rewrite (get_zero_tril _ _ _ _ HA) in Hnji.
repeat case_decide; try tauto; try lia.
all: split; [tauto | intros _].
all: try specialize (Hnij ltac:(assumption)).
all: try specialize (Hnji ltac:(assumption)).
all: lia.
Qed.

End StagesFacts.

Lemma consecutive_product_even (n : nat) :
  (n * (n - 1) = 2 * (n * (n - 1) / 2))%nat.
Proof.
assert (∃ m, n * (n - 1) = 2 * m)%nat as [m Hm].
{ induction n as [|n [m Hm]]; [by exists 0%nat |]. exists (m + n)%nat. nia. }
rewrite Hm, (Nat.mul_comm 2 m), Nat.div_mul by lia. lia.
Qed.

Lemma num_to_filter_floor threshold n :
  0 ≤ threshold → num_to_filter threshold n = floor_keep threshold n.
Proof.
intros Ht. unfold num_to_filter, floor_keep.
rewrite Z.quot_div_nonneg by lia.
rewrite (consecutive_product_even n) at 1.
rewrite Nat2Z.inj_mul.
replace (threshold * (Z.of_nat 2 * Z.of_nat (n * (n - 1) / 2)))
  with (threshold * Z.of_nat (n * (n - 1) / 2) * 2) by lia.
change 200 with (100 * 2). by rewrite Z.div_mul_cancel_r by lia.
Qed.

Lemma length_strict_lower n : (2 * length (strict_lower n) = n * (n - 1))%nat.
Proof.
unfold strict_lower. induction n as [|n IH]; [done |].
rewrite seq_S, bind_app, length_app, Nat.mul_add_distr_l, IH. simpl.
rewrite app_nil_r, length_fmap, length_seq. nia.
Qed.

Lemma elem_of_strict_lower n i j :
  (i, j) ∈ strict_lower n ↔ (j < i ∧ i < n)%nat.
Proof.
unfold strict_lower. rewrite list_elem_of_bind. split.
- intros (a & Hj & Ha). apply list_elem_of_fmap in Hj as (b & Heq & Hb).
  apply elem_of_seq in Ha, Hb. simplify_eq. lia.
- intros [Hj Hi]. exists i. split; [| apply elem_of_seq; lia].
  apply list_elem_of_fmap. exists j. split; [done | apply elem_of_seq; lia].
Qed.

Section BuilderFacts.
Context `{ArgSort}.

Lemma np_where_zero_tril n A :
  is_shape n n A →
  np_where (zero_tril n A) = filter (upper_nonzero A) (grid n n).
Proof.
intros HA. pose proof (is_shape_zero_tril _ _ n _ HA) as HA1.
unfold np_where.
rewrite (is_shape_nrows _ _ _ HA1), (is_square_ncols _ _ HA1).
apply list_filter_iff. intros [i j]. unfold nonzero, upper_nonzero.
cbn [fst snd]. rewrite (get_zero_tril _ _ _ _ HA). case_decide; tauto.
Qed.

(** At most [n(n-1)/2] entries lie above the diagonal. *)
Lemma upper_nonzero_count_le n A :
  (upper_nonzero_count n A ≤ n * (n - 1) / 2)%nat.
Proof.
unfold upper_nonzero_count.
assert (length (filter (upper_nonzero A) (grid n n))
        ≤ length (strict_lower n))%nat as Hle.
{ rewrite <- (length_fmap prod_swap). apply submseteq_length.
  apply NoDup_submseteq.
  - apply NoDup_fmap; [apply _ |]. apply NoDup_filter, NoDup_grid.
  - intros [i j] (p & Heq & Hp)%list_elem_of_fmap.
    apply list_elem_of_filter in Hp as [[Hlt _] Hg]. destruct p as [a b].
    apply elem_of_grid in Hg. simpl in *. simplify_eq.
    apply elem_of_strict_lower. lia. }
pose proof (length_strict_lower n). pose proof (consecutive_product_even n).
lia.
Qed.

(** The edges that are not self-loops: each kept position and its mirror. *)
Lemma non_loop_edges_perm k n A :
  is_shape n n A →
  filter (λ p, p.1 ≠ p.2) (edges (from_numpy_array (returned_array k n A)))
    ≡ₚ kept k (zero_tril n A) ++ (prod_swap <$> kept k (zero_tril n A)).
Proof.
intros HA. apply NoDup_Permutation.
- apply NoDup_filter, NoDup_np_where.
- apply NoDup_app. split_and!.
  + apply NoDup_kept.
  + intros [i j] Hk (p & Heq & Hp)%list_elem_of_fmap. destruct p as [a b].
    simpl in Heq. simplify_eq.
    apply (kept_upper _ _ _ _ _ HA) in Hk, Hp. lia.
  + apply NoDup_fmap; [apply _ | apply NoDup_kept].
- intros [i j]. rewrite list_elem_of_filter, elem_of_app.
  rewrite (elem_of_returned_edges _ _ _ _ _ HA). cbn [fst snd].
  assert ((i, j) ∈ prod_swap <$> kept k (zero_tril n A)
          ↔ (j, i) ∈ kept k (zero_tril n A)) as ->.
  { rewrite list_elem_of_fmap. split.
    - intros ([a b] & Heq & Hp). simpl in Heq. by simplify_eq.
    - intros Hp. by exists (j, i). }
  pose proof (kept_upper k n A i j HA) as Hij.
  pose proof (kept_upper k n A j i HA) as Hji.
  split; [tauto |]. intros [Hk|Hk]; (split; [| tauto]).
  + specialize (Hij Hk). lia.
  + specialize (Hji Hk). lia.
Qed.

Lemma non_loop_edge_count_returned k n A :
  is_shape n n A →
  non_loop_edge_count (from_numpy_array (returned_array k n A)) =
    (2 * keep_len k (upper_nonzero_count n A))%nat.
Proof.
intros HA. unfold non_loop_edge_count.
rewrite (Permutation_length (non_loop_edges_perm k n A HA)).
rewrite length_app, length_fmap, length_kept, (np_where_zero_tril _ _ HA).
unfold upper_nonzero_count. lia.
Qed.

End BuilderFacts.

(** ** Properties of the thresholded-graph builder *)

Section BuilderClaims.
Context `{ArgSort}.

Lemma create_thresholded_graph_run (r : loc) threshold n (h : heap) A :
  h !! r = Some A → is_shape n n A →
  ∃ h', create_thresholded_graph r threshold n h =
    Ok (from_numpy_array (returned_array (num_to_filter threshold n) n A), h').
Proof. apply create_thresholded_graph_from_run. Qed.

(** Symmetry and self-loops do not depend on how many positions are kept:
    they hold for every value that line 42 may produce, the binary64 value
    included. *)
Lemma thresholded_graph_from_symmetric_with_self_loops
    (h : heap) (r : loc) (A : list (list Z)) (k : Z) (n : nat) :
  h !! r = Some A → is_shape n n A →
  ∃ G h', create_thresholded_graph_from k r n h = Ok (G, h') ∧
    nodes G = seq 0 n ∧
    (∀ i j, (i, j) ∈ edges G ↔ (j, i) ∈ edges G) ∧
    (∀ i, (i < n)%nat → (i, i) ∈ edges G).
Proof.
intros Hr HA.
destruct (create_thresholded_graph_from_run k r n h A Hr HA) as [h' Hrun].
eexists _, h'. split; [exact Hrun |]. split_and!.
- simpl. f_equal. apply (is_shape_nrows n n).
  by apply is_shape_returned_array.
- intros i j. rewrite !(elem_of_returned_edges _ _ _ _ _ HA).
  split; intros [[-> ?]|[?|?]]; tauto.
- intros i Hi. apply (elem_of_returned_edges _ _ _ _ _ HA). left. done.
Qed.

(** C2. For a square matrix and a threshold in [0,100]
    [create_thresholded_graph] returns a graph on the nodes
    [0 .. num_nodes-1] whose edge relation is symmetric and in which every
    node has a self-loop.  The sign of the entries plays no role. *)
Theorem thresholded_graph_symmetric_with_self_loops
    (h : heap) (r : loc) (A : list (list Z)) (threshold : Z) (n : nat) :
  h !! r = Some A → is_shape n n A → 0 ≤ threshold ≤ 100 →
  ∃ G h', create_thresholded_graph r threshold n h = Ok (G, h') ∧
    nodes G = seq 0 n ∧
    (∀ i j, (i, j) ∈ edges G ↔ (j, i) ∈ edges G) ∧
    (∀ i, (i < n)%nat → (i, i) ∈ edges G).
Proof.
intros Hr HA _.
exact (thresholded_graph_from_symmetric_with_self_loops
         h r A (num_to_filter threshold n) n Hr HA).
Qed.

(** The count for any non-negative value of line 42. *)
Lemma thresholded_graph_from_edge_count
    (h : heap) (r : loc) (A : list (list Z)) (k : Z) (n : nat) :
  h !! r = Some A → is_shape n n A → 0 ≤ k →
  ∃ G h', create_thresholded_graph_from k r n h = Ok (G, h') ∧
    Z.of_nat (non_loop_edge_count G) =
      2 * Z.min k (Z.of_nat (upper_nonzero_count n A)).
Proof.
intros Hr HA Hk.
destruct (create_thresholded_graph_from_run k r n h A Hr HA) as [h' Hrun].
eexists _, h'. split; [exact Hrun |].
rewrite (non_loop_edge_count_returned _ _ _ HA).
unfold keep_len. rewrite (proj2 (Z.leb_le 0 _) Hk). lia.
Qed.

(** C1, amended. For a threshold in {0, 5, 20, 50, 100} the number of
    edges that are not self-loops is twice the smaller of
    [floor(threshold/100 * n(n-1)/2)] and the number of nonzero entries
    strictly above the diagonal: zero entries are never ranked. *)
Theorem thresholded_graph_edge_count
    (h : heap) (r : loc) (A : list (list Z)) (threshold : Z) (n : nat) :
  h !! r = Some A → is_shape n n A → count_threshold threshold →
  ∃ G h', create_thresholded_graph r threshold n h = Ok (G, h') ∧
    Z.of_nat (non_loop_edge_count G) =
      2 * Z.min (floor_keep threshold n) (Z.of_nat (upper_nonzero_count n A)).
Proof.
intros Hr HA Ht.
assert (0 ≤ threshold) as Hpos by (unfold count_threshold in Ht; lia).
assert (0 ≤ num_to_filter threshold n) as Hk.
{ rewrite (num_to_filter_floor _ n Hpos). unfold floor_keep.
  apply Z.div_pos; lia. }
destruct (thresholded_graph_from_edge_count h r A (num_to_filter threshold n)
            n Hr HA Hk) as (G & h' & Hrun & Hcount).
exists G, h'. split; [exact Hrun |].
by rewrite Hcount, (num_to_filter_floor _ n Hpos).
Qed.

(** When every entry above the diagonal is nonzero the count is the one
    the specification gives. *)
Lemma thresholded_graph_edge_count_dense
    (h : heap) (r : loc) (A : list (list Z)) (threshold : Z) (n : nat) :
  h !! r = Some A → is_shape n n A → count_threshold threshold →
  (∀ i j, (i < j < n)%nat → get A i j ≠ 0) →
  ∃ G h', create_thresholded_graph r threshold n h = Ok (G, h') ∧
    Z.of_nat (non_loop_edge_count G) = 2 * floor_keep threshold n.
Proof.
intros Hr HA Ht Hdense.
assert (0 ≤ threshold ≤ 100) as Hrange by (unfold count_threshold in Ht; lia).
assert (0 ≤ floor_keep threshold n) as Hk.
{ unfold floor_keep. apply Z.div_pos; lia. }
destruct (thresholded_graph_from_edge_count h r A (floor_keep threshold n) n
            Hr HA Hk) as (G & h' & Hrun & Hcount).
exists G, h'. split.
{ unfold create_thresholded_graph, threshold_adj_array.
  rewrite num_to_filter_floor by lia. exact Hrun. }
rewrite Hcount. f_equal. apply Z.min_l.
assert (upper_nonzero_count n A = length (strict_lower n)) as ->.
{ unfold upper_nonzero_count. rewrite <- (length_fmap prod_swap).
  apply Permutation_length, NoDup_Permutation.
  - apply NoDup_fmap; [apply _ |]. apply NoDup_filter, NoDup_grid.
  - unfold strict_lower. apply NoDup_bind; [| | apply NoDup_seq].
    + intros a b [i j] _ _ Ha Hb.
      apply list_elem_of_fmap in Ha as (? & ? & _).
      apply list_elem_of_fmap in Hb as (? & ? & _). congruence.
    + intros a _. apply NoDup_fmap; [| apply NoDup_seq].
      intros x y. congruence.
  - intros [i j]. rewrite elem_of_strict_lower, list_elem_of_fmap. split.
    + intros ([a b] & Heq & Hp). simpl in Heq. simplify_eq.
      apply list_elem_of_filter in Hp as [[Hlt _] Hg].
      apply elem_of_grid in Hg. simpl in *. lia.
    + intros [Hj Hi]. exists (j, i). split; [done |].
      apply list_elem_of_filter. split; [| apply elem_of_grid; lia].
      split; simpl; [done |]. apply Hdense. lia. }
pose proof (length_strict_lower n) as Hlen.
pose proof (consecutive_product_even n) as Heven.
assert (length (strict_lower n) = n * (n - 1) / 2)%nat as -> by lia.
unfold floor_keep. apply Z.div_le_upper_bound; [lia |]. nia.
Qed.

(** C3, amended. With threshold 0 the edges are exactly the self-loops.
    With threshold 100 a pair of distinct nodes is joined exactly when its
    entry above the diagonal is nonzero, so the graph is complete (plus the
    self-loops) when every entry above the diagonal is nonzero. *)
Theorem thresholded_graph_extremes
    (h : heap) (r : loc) (A : list (list Z)) (n : nat) :
  h !! r = Some A → is_shape n n A →
  (∃ G h', create_thresholded_graph r 0 n h = Ok (G, h') ∧
     ∀ i j, (i, j) ∈ edges G ↔ (i = j ∧ i < n)%nat) ∧
  (∃ G h', create_thresholded_graph r 100 n h = Ok (G, h') ∧
     (∀ i j, (i, j) ∈ edges G ↔
        (i < n ∧ j < n)%nat ∧ (i = j ∨ upper_entry A i j ≠ 0)) ∧
     ((∀ i j, (i < j < n)%nat → get A i j ≠ 0) →
      ∀ i j, (i, j) ∈ edges G ↔ (i < n ∧ j < n)%nat)).
Proof.
intros Hr HA. split.
- destruct (create_thresholded_graph_run r 0 n h A Hr HA) as [h' Hrun].
  eexists _, h'. split; [exact Hrun |]. intros i j.
  rewrite (elem_of_returned_edges _ _ _ _ _ HA).
  change (num_to_filter 0 n) with 0. unfold kept, keep_len. simpl.
  rewrite !elem_of_nil. tauto.
- destruct (create_thresholded_graph_run r 100 n h A Hr HA) as [h' Hrun].
  eexists _, h'. split; [exact Hrun |].
  assert (Hedge : ∀ i j,
    (i, j) ∈ edges (from_numpy_array
                      (returned_array (num_to_filter 100 n) n A)) ↔
    (i < n ∧ j < n)%nat ∧ (i = j ∨ upper_entry A i j ≠ 0)).
  { intros i j. rewrite (elem_of_returned_edges _ _ _ _ _ HA).
    assert (Hkept : ∀ p, p ∈ kept (num_to_filter 100 n) (zero_tril n A) ↔
                         upper_nonzero A p).
    { intros p. unfold kept. rewrite take_ge.
      - rewrite ranked_perm, (np_where_zero_tril _ _ HA).
        rewrite list_elem_of_filter. split; [tauto |]. intros Hp.
        split; [done |]. destruct p as [a b], Hp as [Hlt Hnz].
        simpl in *. apply elem_of_grid.
        destruct (decide (a < n ∧ b < n)%nat); [done |].
        by rewrite (get_outside n n) in Hnz.
      - rewrite num_to_filter_floor by lia. unfold keep_len, floor_keep.
        rewrite Z.mul_comm, Z.div_mul by lia.
        rewrite (proj2 (Z.leb_le 0 _)) by lia.
        rewrite Nat2Z.id, (Permutation_length (ranked_perm _)).
        rewrite (np_where_zero_tril _ _ HA).
        pose proof (upper_nonzero_count_le n A) as Hle.
        unfold upper_nonzero_count in Hle. lia. }
    rewrite !Hkept. unfold upper_nonzero, upper_entry. cbn [fst snd].
    assert (∀ a b, get A a b ≠ 0 → (a < n ∧ b < n)%nat) as Hin.
    { intros a b Hnz. destruct (decide (a < n ∧ b < n)%nat); [done |].
      by rewrite (get_outside n n) in Hnz. }
    split.
    - intros [[-> Hi]|[[Hlt Hnz]|[Hlt Hnz]]].
      + tauto.
      + rewrite Nat.min_l, Nat.max_r by lia. split; [by apply Hin | tauto].
      + rewrite Nat.min_r, Nat.max_l by lia.
        split; [apply Hin in Hnz; lia | tauto].
    - intros [[Hi Hj] [->|Hnz]]; [tauto |].
      destruct (Nat.lt_trichotomy i j) as [Hlt|[->|Hlt]]; [| tauto |].
      + rewrite Nat.min_l, Nat.max_r in Hnz by lia. tauto.
      + rewrite Nat.min_r, Nat.max_l in Hnz by lia. tauto. }
  split; [exact Hedge |]. intros Hdense i j. rewrite Hedge.
  split; [tauto |]. intros [Hi Hj]. split; [done |].
  destruct (Nat.lt_trichotomy i j) as [Hlt|[->|Hlt]]; [| tauto |];
    right; unfold upper_entry.
  + rewrite Nat.min_l, Nat.max_r by lia. apply Hdense. lia.
  + rewrite Nat.min_r, Nat.max_l by lia. apply Hdense. lia.
Qed.


End BuilderClaims.

(** *** Concrete runs of the builder *)

(** The end-to-end example of the specification: the top 3 of the 6
    possible edges (strengths 5, 4 and 3) and the 4 self-loops. *)
Example create_thresholded_graph_example :
  ∃ h', create_thresholded_graph 0%nat 50 4 {[0%nat := example_matrix]} =
    Ok ({| nodes := [0; 1; 2; 3]%nat;
           edges := [(0, 0); (0, 1); (0, 2); (1, 0); (1, 1); (2, 0); (2, 2);
                     (2, 3); (3, 2); (3, 3)]%nat |}, h').
Proof. eexists. vm_compute. reflexivity. Qed.

Lemma thresholded_graph_symmetric_witness :
  ({[0%nat := example_matrix]} : heap) !! 0%nat = Some example_matrix ∧
  is_shape 4 4 example_matrix ∧ 0 ≤ 50 ≤ 100 ∧
  ∃ G h', create_thresholded_graph 0%nat 50 4 {[0%nat := example_matrix]}
            = Ok (G, h') ∧
    nodes G = seq 0 4 ∧
    (∀ i j, (i, j) ∈ edges G ↔ (j, i) ∈ edges G) ∧
    (∀ i, (i < 4)%nat → (i, i) ∈ edges G).
Proof.
split; [reflexivity |]. split; [split; [reflexivity | repeat constructor] |].
split; [lia |].
apply (thresholded_graph_symmetric_with_self_loops
         {[0%nat := example_matrix]} 0%nat example_matrix 50 4);
  [reflexivity | split; [reflexivity | repeat constructor] | lia].
Defined.

(** C1 as stated fails on the 2 x 2 zero matrix at threshold 100: the
    formula gives 2 edges, the graph has only the two self-loops. *)
Lemma edge_count_zero_matrix_counterexample :
  ∃ G h', create_thresholded_graph 0%nat 100 2 {[0%nat := [[0; 0]; [0; 0]]]}
            = Ok (G, h') ∧
    edges G = [(0, 0); (1, 1)]%nat ∧
    non_loop_edge_count G = 0%nat ∧
    floor_keep 100 2 = 1 ∧
    Z.of_nat (non_loop_edge_count G) ≠ 2 * floor_keep 100 2.
Proof. eexists _, _. split; [vm_compute; reflexivity |]. by vm_compute. Qed.

Lemma thresholded_graph_edge_count_witness :
  ({[0%nat := example_matrix]} : heap) !! 0%nat = Some example_matrix ∧
  is_shape 4 4 example_matrix ∧ count_threshold 50 ∧
  ∃ G h', create_thresholded_graph 0%nat 50 4 {[0%nat := example_matrix]}
            = Ok (G, h') ∧
    Z.of_nat (non_loop_edge_count G) =
      2 * Z.min (floor_keep 50 4)
            (Z.of_nat (upper_nonzero_count 4 example_matrix)).
Proof.
split; [reflexivity |]. split; [split; [reflexivity | repeat constructor] |].
split; [unfold count_threshold; lia |].
apply (thresholded_graph_edge_count
         {[0%nat := example_matrix]} 0%nat example_matrix 50 4);
  [reflexivity | split; [reflexivity | repeat constructor]
  | unfold count_threshold; lia].
Defined.

(** C3 as stated fails at threshold 100 on a non-negative matrix with a
    zero entry above the diagonal: nodes 0 and 1 are not joined. *)
Lemma complete_graph_counterexample :
  ∃ G h', create_thresholded_graph 0%nat 100 3
            {[0%nat := [[0; 0; 0]; [0; 0; 7]; [0; 0; 0]]]} = Ok (G, h') ∧
    edges G = [(0, 0); (1, 1); (1, 2); (2, 1); (2, 2)]%nat ∧
    (0, 1)%nat ∉ edges G.
Proof.
eexists _, _. split; [vm_compute; reflexivity |]. split; [reflexivity |].
simpl. intros Hin. repeat (apply elem_of_cons in Hin as [Hin|Hin]; [done |]).
by apply elem_of_nil in Hin.
Qed.

Lemma thresholded_graph_extremes_witness :
  ({[0%nat := example_matrix]} : heap) !! 0%nat = Some example_matrix ∧
  is_shape 4 4 example_matrix ∧
  (∃ G h', create_thresholded_graph 0%nat 0 4 {[0%nat := example_matrix]}
             = Ok (G, h') ∧
     ∀ i j, (i, j) ∈ edges G ↔ (i = j ∧ i < 4)%nat) ∧
  (∃ G h', create_thresholded_graph 0%nat 100 4 {[0%nat := example_matrix]}
             = Ok (G, h') ∧
     (∀ i j, (i, j) ∈ edges G ↔
        (i < 4 ∧ j < 4)%nat ∧ (i = j ∨ upper_entry example_matrix i j ≠ 0)) ∧
     ((∀ i j, (i < j < 4)%nat → get example_matrix i j ≠ 0) →
      ∀ i j, (i, j) ∈ edges G ↔ (i < 4 ∧ j < 4)%nat)).
Proof.
split; [reflexivity |]. split; [split; [reflexivity | repeat constructor] |].
apply (thresholded_graph_extremes
         {[0%nat := example_matrix]} 0%nat example_matrix 4);
  [reflexivity | split; [reflexivity | repeat constructor]].
Defined.



Lemma rotate_perm {A} (n : nat) (l : list A) : rotate n l ≡ₚ l.
Proof.
unfold rotate. rewrite Permutation_app_comm. by rewrite take_drop.
Qed.

Lemma rotate_choice_NoDup st a size : NoDup (rotate_choice st a size).
Proof.
unfold rotate_choice.
apply (sublist_NoDup _ (rotate st (seq 0 a))); [| apply sublist_take].
rewrite rotate_perm. apply NoDup_seq.
Qed.

Lemma rotate_choice_length st a size :
  (size ≤ a)%nat → length (rotate_choice st a size) = size.
Proof.
intros Hle. unfold rotate_choice.
rewrite length_take, length_rotate, length_seq. lia.
Qed.

Lemma rotate_choice_lt st a size x :
  x ∈ rotate_choice st a size → (x < a)%nat.
Proof.
unfold rotate_choice. intros Hx%subseteq_take.
rewrite rotate_perm in Hx. apply elem_of_seq in Hx. lia.
Qed.

#[global] Instance rotate_Generator : Generator := {|
  rng_state := nat;
  default_rng := λ seed, S (Z.abs_nat seed);
  choice := rotate_choice;
  choice_NoDup := λ st a size _, rotate_choice_NoDup st a size;
  choice_length := rotate_choice_length;
  choice_lt := λ st a size x _, rotate_choice_lt st a size x;
|}.

Lemma filter_zip_seq_fst {A} (numbers : list nat) (l : list A) (start : nat) :
  (filter (λ p : nat * A, p.1 ∈ numbers) (zip (seq start (length l)) l)).*1
  = filter (λ i, i ∈ numbers) (seq start (length l)).
Proof.
revert start. induction l as [|a l IH]; intros start; [done |].
simpl. rewrite !filter_cons. simpl.
case_decide; csimpl; by rewrite IH.
Qed.

Lemma length_pick {A} (numbers : list nat) (l : list A) :
  NoDup numbers → (∀ x, x ∈ numbers → (x < length l)%nat) →
  length (pick numbers l) = length numbers.
Proof.
intros Hnd Hlt. unfold pick.
rewrite length_fmap, <- (length_fmap fst).
assert ((filter (λ p : nat * A, p.1 ∈ numbers) (enumerate l)).*1
        = filter (λ i, i ∈ numbers) (seq 0 (length l))) as ->.
{ apply filter_zip_seq_fst. }
apply Permutation_length, NoDup_Permutation; [| done |].
- apply NoDup_filter, NoDup_seq.
- intros x. rewrite list_elem_of_filter, elem_of_seq.
  split; [tauto |]. intros Hx. specialize (Hlt x Hx). split; [done | lia].
Qed.

Lemma Forall_pick {A} (P : A → Prop) (numbers : list nat) (l : list A) :
  Forall P l → Forall P (pick numbers l).
Proof.
intros Hl. unfold pick. apply Forall_fmap, Forall_forall.
intros [i a] [_ Hin]%list_elem_of_filter. simpl.
rewrite Forall_forall in Hl. apply Hl. unfold enumerate in Hin.
by apply elem_of_zip_r in Hin.
Qed.

Lemma filter_all {A} (P : A → Prop) `{∀ a, Decision (P a)} (l : list A) :
  Forall P l → filter P l = l.
Proof.
induction 1 as [|a l Ha _ IH]; [done |].
by rewrite filter_cons, decide_True, IH.
Qed.

Lemma filter_none {A} (P : A → Prop) `{∀ a, Decision (P a)} (l : list A) :
  Forall (λ a, ¬ P a) l → filter P l = [].
Proof.
induction 1 as [|a l Ha _ IH]; [done |].
by rewrite filter_cons, decide_False, IH.
Qed.

(** ** Properties of [random_downsample] *)

Section DownsampleFacts.
Context `{Generator}.

(** What a call returns, whatever was printed before it. *)
Lemma random_downsample_run (data_list : list Data) (stdout : list string) :
  let s := minority_label data_list in
  let hi := 1 - s in
  ∃ numbers stdout',
    random_downsample data_list stdout =
      Ok (filter (λ x, y x = s) data_list
            ++ pick numbers (filter (λ x, y x = hi) data_list), stdout') ∧
    numbers = choice (default_rng 0)
                (Nat.max (label_count 0 data_list) (label_count 1 data_list))
                (Nat.min (label_count 0 data_list) (label_count 1 data_list)).
Proof.
unfold random_downsample, minority_label, label_count, rng_choice.
set (neg := length (filter (λ x, y x = 0) data_list)).
set (pos := length (filter (λ x, y x = 1) data_list)).
destruct (Nat.ltb_spec pos neg) as [Hlt|Hge];
  destruct (Nat.ltb_spec neg pos) as [Hlt'|Hge']; try lia; simpl.
- rewrite (proj2 (Nat.leb_le pos neg)) by lia. simpl.
  eexists _, _. split; [reflexivity |].
  by rewrite Nat.max_l, Nat.min_r by lia.
- rewrite (proj2 (Nat.leb_le neg pos)) by lia. simpl.
  eexists _, _. split; [reflexivity |].
  by rewrite Nat.max_r, Nat.min_l by lia.
- rewrite (proj2 (Nat.leb_le pos neg)) by lia. simpl.
  eexists _, _. split; [reflexivity |].
  by rewrite Nat.max_l, Nat.min_r by lia.
Qed.

Lemma Forall_filter_label (v : Z) (l : list Data) :
  Forall (λ x, y x = v) (filter (λ x, y x = v) l).
Proof. apply Forall_forall. by intros x [? _]%list_elem_of_filter. Qed.

(** C6. Class balancing does not depend on anything outside its argument
    (the generator is seeded inside the call), so two calls on the same
    list return the same samples, drawn with the same index array; every
    minority sample is kept and both labels end up with the minority
    count. *)
Theorem random_downsample_deterministic_balanced
    (data_list : list Data) (stdout1 stdout2 : list string) :
  ∃ sampled stdout1' stdout2',
    random_downsample data_list stdout1 = Ok (sampled, stdout1') ∧
    random_downsample data_list stdout2 = Ok (sampled, stdout2') ∧
    filter (λ x, y x = minority_label data_list) sampled
      = filter (λ x, y x = minority_label data_list) data_list ∧
    label_count 0 sampled
      = Nat.min (label_count 0 data_list) (label_count 1 data_list) ∧
    label_count 1 sampled
      = Nat.min (label_count 0 data_list) (label_count 1 data_list).
Proof.
destruct (random_downsample_run data_list stdout1)
  as (numbers & out1 & Hrun1 & Hnum).
destruct (random_downsample_run data_list stdout2)
  as (numbers' & out2 & Hrun2 & Hnum').
rewrite <- Hnum in Hnum'. subst numbers'.
set (s := minority_label data_list) in *.
set (c0 := label_count 0 data_list) in *.
set (c1 := label_count 1 data_list) in *.
assert (Hcounts : label_count s data_list = Nat.min c0 c1
                  ∧ label_count (1 - s) data_list = Nat.max c0 c1
                  ∧ (s = 0 ∨ s = 1)).
{ unfold s, minority_label. fold (label_count 1 data_list).
  fold (label_count 0 data_list). fold c0 c1.
  destruct (Nat.ltb_spec c1 c0); simpl; fold c0 c1.
  - change (1 - 1) with 0. fold c0. lia.
  - change (1 - 0) with 1. fold c1. lia. }
destruct Hcounts as (Hmin & Hmax & Hs).
assert (Hlen : length (pick numbers (filter (λ x, y x = 1 - s) data_list))
               = Nat.min c0 c1).
{ rewrite length_pick.
  - rewrite Hnum. apply choice_length. lia.
  - rewrite Hnum. apply choice_NoDup. lia.
  - intros x Hx. rewrite Hnum in Hx. apply choice_lt in Hx; [| lia].
    fold (label_count (1 - s) data_list). by rewrite Hmax. }
assert (Hpick : Forall (λ x, y x = 1 - s)
                  (pick numbers (filter (λ x, y x = 1 - s) data_list))).
{ apply Forall_pick, Forall_filter_label. }
assert (Hsame : ∀ v, label_count v
          (filter (λ x, y x = v) data_list ++
           pick numbers (filter (λ x, y x = 1 - v) data_list))
        = label_count v data_list
        ∧ filter (λ x, y x = v)
            (filter (λ x, y x = v) data_list ++
             pick numbers (filter (λ x, y x = 1 - v) data_list))
          = filter (λ x, y x = v) data_list).
{ intros v.
  assert (filter (λ x, y x = v)
            (filter (λ x, y x = v) data_list ++
             pick numbers (filter (λ x, y x = 1 - v) data_list))
          = filter (λ x, y x = v) data_list) as Heq.
  { rewrite filter_app, (filter_all _ _ (Forall_filter_label v data_list)).
    rewrite (filter_none (λ x, y x = v)
               (pick numbers (filter (λ x, y x = 1 - v) data_list)));
      [by rewrite app_nil_r |].
    eapply Forall_impl; [apply Forall_pick, Forall_filter_label |].
    simpl. intros x Hx. lia. }
  split; [| done]. unfold label_count. by rewrite Heq. }
assert (Hother : label_count (1 - s)
          (filter (λ x, y x = s) data_list ++
           pick numbers (filter (λ x, y x = 1 - s) data_list))
        = Nat.min c0 c1).
{ unfold label_count. rewrite filter_app, length_app.
  rewrite (filter_none (λ x, y x = 1 - s) (filter (λ x, y x = s) data_list)),
    (filter_all _ _ Hpick), Hlen; [done |].
  eapply Forall_impl; [apply Forall_filter_label |]. simpl. intros x Hx. lia. }
destruct (Hsame s) as [Hcount Hkeep].
eexists _, out1, out2. split; [exact Hrun1 |]. split; [exact Hrun2 |].
split; [exact Hkeep |].
destruct Hs as [Hs|Hs]; rewrite Hs in *;
  change (1 - 0) with 1 in *; change (1 - 1) with 0 in *; split; congruence.
Qed.

End DownsampleFacts.

Lemma random_downsample_balanced_witness :
  ∃ sampled stdout1' stdout2',
    random_downsample
      [{| y := 0; tag := 0 |}; {| y := 1; tag := 1 |};
       {| y := 0; tag := 2 |}; {| y := 0; tag := 3 |}] [] = Ok (sampled, stdout1') ∧
    random_downsample
      [{| y := 0; tag := 0 |}; {| y := 1; tag := 1 |};
       {| y := 0; tag := 2 |}; {| y := 0; tag := 3 |}] ["earlier output"]
      = Ok (sampled, stdout2') ∧
    filter (λ x, y x = 1) sampled = [{| y := 1; tag := 1 |}] ∧
    label_count 0 sampled = 1%nat ∧
    label_count 1 sampled = 1%nat.
Proof.
exact (random_downsample_deterministic_balanced
         [{| y := 0; tag := 0 |}; {| y := 1; tag := 1 |};
          {| y := 0; tag := 2 |}; {| y := 0; tag := 3 |}]
         [] ["earlier output"]).
Defined.

(** A run of the balancing step: three samples of label 0 and one of
    label 1; the minority sample and one of the others remain. *)
Example random_downsample_example :
  random_downsample
    [{| y := 0; tag := 0 |}; {| y := 1; tag := 1 |};
     {| y := 0; tag := 2 |}; {| y := 0; tag := 3 |}] []
  = Ok ([{| y := 1; tag := 1 |}; {| y := 0; tag := 2 |}],
        ["Negative class: 3"; "Positive class: 1"]).
Proof. vm_compute. reflexivity. Qed.

(** ** Properties of [normalise_timeseries] *)

Section NormaliseFacts.
Context {E : Type} `{RobustScaler E}.

Lemma length_flatten r c (X : list (list E)) :
  is_shape r c X → length (flatten X) = (r * c)%nat.
Proof.
intros [Hr Hc]. subst r. unfold flatten.
induction Hc as [|row X Hrow _ IH]; [done |].
simpl. rewrite length_app, IH, Hrow. lia.
Qed.

Lemma is_shape_reshape_column (X : list (list E)) :
  is_shape (length (flatten X)) 1 (reshape_column X).
Proof.
unfold reshape_column. split; [by rewrite length_fmap |].
apply Forall_fmap, Forall_forall. by intros x _.
Qed.

Lemma is_shape_chunks r c (l : list E) :
  length l = (r * c)%nat → is_shape r c (chunks r c l).
Proof.
revert l. induction r as [|r IH]; intros l Hl; [by split |].
destruct (IH (drop c l)) as [Hr Hc]; [rewrite length_drop; lia |].
split; simpl; [by rewrite Hr |].
constructor; [rewrite length_take; lia | done].
Qed.

Lemma reshape_Ok r c r' c' (X : list (list E)) :
  is_shape r' c' X → (r' * c' = r * c)%nat →
  ∃ Y, reshape r c X = Ok Y ∧ is_shape r c Y.
Proof.
intros HX Hsize. unfold reshape.
rewrite (length_flatten _ _ _ HX), Hsize, Nat.eqb_refl.
eexists. split; [done |]. apply is_shape_chunks.
by rewrite (length_flatten _ _ _ HX).
Qed.

(** C7. On a time x nodes block with more timepoints than nodes (and at
    least one node) every mode returns a nodes x time block. *)
Theorem normalise_timeseries_shape
    (timeseries : list (list E)) (normalisation : Normalisation)
    (time_length num_nodes : nat) :
  is_shape time_length num_nodes timeseries →
  (num_nodes < time_length)%nat → (0 < num_nodes)%nat →
  ∃ normalised,
    normalise_timeseries timeseries normalisation = Ok normalised ∧
    is_shape num_nodes time_length normalised.
Proof.
intros HX Hlt Hpos. destruct normalisation; simpl.
- eexists. split; [done |]. apply is_shape_transpose; [done | lia].
- destruct (scaler_fit_transform timeseries _ _ HX)
    as (s & Y & Hfit & Htrans & HY); [lia | lia |].
  rewrite Hfit. simpl. rewrite Htrans. simpl. eexists. split; [done |]. apply is_shape_transpose; [done | lia].
- pose proof (is_shape_reshape_column timeseries) as Hcol.
  rewrite (length_flatten _ _ _ HX) in Hcol.
  destruct (scaler_fit_transform _ _ _ Hcol)
    as (s & Y & Hfit & Htrans & HY); [nia | lia |].
  rewrite Hfit. simpl. rewrite Htrans. simpl.
  rewrite (is_shape_nrows _ _ _ HX), (is_shape_ncols _ _ _ HX) by lia.
  destruct (reshape_Ok time_length num_nodes _ _ Y HY) as (Z & HZ & HsZ);
    [lia |].
  rewrite HZ. simpl. eexists. split; [done |]. apply is_shape_transpose; [done | lia].
Qed.

End NormaliseFacts.

Lemma robust_fit_transform (X : list (list Q)) r c :
  is_shape r c X → (0 < r)%nat → (0 < c)%nat →
  ∃ s Y, robust_fit X = Ok s ∧ robust_transform s X = Ok Y ∧ is_shape r c Y.
Proof.
intros HX Hr Hc. unfold robust_fit.
rewrite (is_shape_nrows _ _ _ HX), (is_shape_ncols _ _ _ HX) by done.
rewrite (proj2 (Nat.eqb_neq r 0)), (proj2 (Nat.eqb_neq c 0)) by lia.
cbn [orb]. eexists _, _. split; [done |]. unfold robust_transform.
destruct HX as [Hrows Hcols].
assert (forallb (λ row : list Q, Nat.eqb (length row)
          (length ((λ j, centre_and_scale (column j X)) <$> seq 0 c)))
          X = true) as ->.
{ apply forallb_forall. intros row Hrow%list_elem_of_In.
  rewrite Forall_forall in Hcols.
  rewrite length_fmap, length_seq, (Hcols _ Hrow). apply Nat.eqb_refl. }
split; [done |]. split; [by rewrite length_fmap |].
apply Forall_fmap. eapply Forall_impl; [exact Hcols |].
intros row Hrow. simpl in *.
rewrite length_zip_with, length_fmap, length_seq. lia.
Qed.

#[global] Instance rational_RobustScaler : RobustScaler Q := {|
  scaler := list (Q * Q);
  scaler_fit := robust_fit;
  scaler_transform := robust_transform;
  scaler_fit_transform := robust_fit_transform;
|}.

(** Three timepoints of two nodes: each node's series is centred on its
    median and scaled by its interquartile range. *)
Example normalise_timeseries_example :
  normalise_timeseries
    [[inject_Z 1; inject_Z 10]; [inject_Z 2; inject_Z 20];
     [inject_Z 3; inject_Z 30]] ROI
  = Ok [[inject_Z (-1); inject_Z 0; inject_Z 1];
        [inject_Z (-1); inject_Z 0; inject_Z 1]].
Proof. vm_compute. reflexivity. Qed.

Lemma normalise_timeseries_shape_witness :
  is_shape 3 2 [[inject_Z 1; inject_Z 10]; [inject_Z 2; inject_Z 20];
                [inject_Z 3; inject_Z 30]] ∧
  (2 < 3)%nat ∧ (0 < 2)%nat ∧
  ∃ normalised,
    normalise_timeseries
      [[inject_Z 1; inject_Z 10]; [inject_Z 2; inject_Z 20];
       [inject_Z 3; inject_Z 30]] SUBJECT = Ok normalised ∧
    is_shape 2 3 normalised.
Proof.
split; [split; [reflexivity | repeat constructor] |].
split; [lia |]. split; [lia |].
apply (normalise_timeseries_shape
         [[inject_Z 1; inject_Z 10]; [inject_Z 2; inject_Z 20];
          [inject_Z 3; inject_Z 30]] SUBJECT 3 2);
  [split; [reflexivity | repeat constructor] | lia | lia].
Defined.

(** ** Properties of [calculate_stats_features] *)

Section DescriptorsFacts.
Context {E : Type} `{DescriptorBank E}.

Lemma apply_along_rows_Ok (f : list E → result E) (X : list (list E)) :
  Forall (λ row, succeeds (f row)) X →
  ∃ vs, apply_along_rows f X = Ok vs ∧ length vs = length X ∧
    ∀ i row, X !! i = Some row → ∃ v, vs !! i = Some v ∧ f row = Ok v.
Proof.
induction 1 as [|row X [v Hv] _ (vs & Hvs & Hlen & Hrows)]; simpl.
- exists []. split_and!; [done | done |]. intros i row Hi. by destruct i.
- rewrite Hv. simpl. rewrite Hvs. simpl. exists (v :: vs).
  split_and!; [done | simpl; by rewrite Hlen |].
  intros [|i] row' Hi; simpl in *; [| by apply Hrows].
  simplify_eq. by exists v.
Qed.

Lemma describable_column (X : list (list E)) (d : list E → result E) :
  describable X → d ∈ descriptor_order →
  Forall (λ row, succeeds (d row)) X.
Proof.
intros HX Hd. eapply Forall_impl; [exact HX |]. simpl. intros row Hrow.
rewrite Forall_forall in Hrow. by apply Hrow.
Qed.

#[local] Ltac in_order :=
  unfold descriptor_order;
  repeat first [apply list_elem_of_here | apply list_elem_of_further].

#[local] Ltac column d X HX :=
  let vs := fresh "vs" in
  let Hrun := fresh "Hrun" in
  let Hlen := fresh "Hlen" in
  let Hrows := fresh "Hrows" in
  destruct (apply_along_rows_Ok d X
              (describable_column X d HX ltac:(in_order)))
    as (vs & Hrun & Hlen & Hrows);
  rewrite Hrun; cbn [result_bind].

(** C9. On a nodes x time block with more timepoints than nodes on which
    the descriptors are defined, the bank returns one row per node with
    exactly 16 entries: the descriptors of that node's series in the fixed
    order. *)
Theorem calculate_stats_features_columns
    (timeseries : list (list E)) (num_nodes time_length : nat) :
  is_shape num_nodes time_length timeseries →
  (num_nodes < time_length)%nat → (0 < num_nodes)%nat →
  describable timeseries →
  ∃ stats, calculate_stats_features timeseries = Ok stats ∧
    is_shape num_nodes 16 stats ∧
    ∀ i series, timeseries !! i = Some series →
      ∃ features, stats !! i = Some features ∧
        Forall2 (λ d x, d series = Ok x) descriptor_order features.
Proof.
intros HX Hlt Hpos Hdesc. unfold calculate_stats_features.
rewrite (is_shape_nrows _ _ _ HX), (is_shape_ncols _ _ _ HX) by done.
rewrite (proj2 (Nat.ltb_lt _ _) Hlt). cbn [assert result_bind].
column np_mean timeseries Hdesc. column np_std timeseries Hdesc.
column np_min timeseries Hdesc. column np_max timeseries Hdesc.
column skew timeseries Hdesc. column kurtosis timeseries Hdesc.
column app_entropy timeseries Hdesc. column perm_entropy timeseries Hdesc.
column sample_entropy timeseries Hdesc.
column spectral_entropy timeseries Hdesc.
column svd_entropy timeseries Hdesc.
column detrended_fluctuation timeseries Hdesc.
column higuchi_fd timeseries Hdesc. column katz_fd timeseries Hdesc.
column petrosian_fd timeseries Hdesc. column hurst_rs timeseries Hdesc.
destruct HX as [Hn _]. unfold vstack, ncols. cbn [head default forallb].
unfold id. rewrite !Hlen, !Hlen0, !Hlen1, !Hlen2, !Hlen3, !Hlen4, !Hlen5, !Hlen6,
  !Hlen7, !Hlen8, !Hlen9, !Hlen10, !Hlen11, !Hlen12, !Hlen13, !Hlen14.
rewrite Nat.eqb_refl. cbn [andb result_bind].
eexists. split; [reflexivity |]. unfold transpose, ncols.
cbn [head default]. unfold id. rewrite Hlen, Hn.
assert (Hrow : ∀ i series, timeseries !! i = Some series →
  ∃ features,
    omap (.!! i) [vs; vs0; vs1; vs2; vs3; vs4; vs5; vs6; vs7; vs8; vs9;
                  vs10; vs11; vs12; vs13; vs14] = features ∧
    length features = 16%nat ∧
    Forall2 (λ d x, d series = Ok x) descriptor_order features).
{ intros i series Hi.
  destruct (Hrows _ _ Hi) as (x & Hx & ?).
  destruct (Hrows0 _ _ Hi) as (x0 & Hx0 & ?).
  destruct (Hrows1 _ _ Hi) as (x1 & Hx1 & ?).
  destruct (Hrows2 _ _ Hi) as (x2 & Hx2 & ?).
  destruct (Hrows3 _ _ Hi) as (x3 & Hx3 & ?).
  destruct (Hrows4 _ _ Hi) as (x4 & Hx4 & ?).
  destruct (Hrows5 _ _ Hi) as (x5 & Hx5 & ?).
  destruct (Hrows6 _ _ Hi) as (x6 & Hx6 & ?).
  destruct (Hrows7 _ _ Hi) as (x7 & Hx7 & ?).
  destruct (Hrows8 _ _ Hi) as (x8 & Hx8 & ?).
  destruct (Hrows9 _ _ Hi) as (x9 & Hx9 & ?).
  destruct (Hrows10 _ _ Hi) as (x10 & Hx10 & ?).
  destruct (Hrows11 _ _ Hi) as (x11 & Hx11 & ?).
  destruct (Hrows12 _ _ Hi) as (x12 & Hx12 & ?).
  destruct (Hrows13 _ _ Hi) as (x13 & Hx13 & ?).
  destruct (Hrows14 _ _ Hi) as (x14 & Hx14 & ?).
  eexists. split; [reflexivity |]. cbn [omap list_omap].
  rewrite Hx, Hx0, Hx1, Hx2, Hx3, Hx4, Hx5, Hx6, Hx7, Hx8, Hx9, Hx10,
    Hx11, Hx12, Hx13, Hx14.
  split; [reflexivity |]. unfold descriptor_order.
  repeat (constructor; [assumption |]). constructor. }
split; [split |].
- by rewrite length_fmap, length_seq.
- apply Forall_fmap, Forall_forall. intros i Hi%elem_of_seq.
  destruct (lookup_lt_is_Some_2 timeseries i) as [series Hs]; [lia |].
  destruct (Hrow _ _ Hs) as (features & Heq & Hf & _).
  unfold compose. by rewrite Heq.
- intros i series Hi.
  destruct (Hrow _ _ Hi) as (features & Hf & _ & Hall).
  exists features. split; [| done].
  rewrite list_lookup_fmap, lookup_seq_lt; [by rewrite <- Hf |].
  rewrite <- Hn. by eapply lookup_lt_Some.
Qed.

(** C10. The assertion at the head of the bank: a block with at least as
    many rows as columns raises AssertionError whatever the descriptors
    would do, and a result is returned only for a block with strictly more
    columns (timepoints) than rows (nodes). *)
Theorem calculate_stats_features_assertion (timeseries : list (list E)) :
  ((ncols timeseries ≤ nrows timeseries)%nat →
   calculate_stats_features timeseries = Raise AssertionError) ∧
  (∀ stats, calculate_stats_features timeseries = Ok stats →
   (nrows timeseries < ncols timeseries)%nat).
Proof.
unfold calculate_stats_features.
destruct (Nat.ltb_spec (nrows timeseries) (ncols timeseries)) as [Hlt|Hge].
- split; [lia | done].
- split; [done |]. cbn [assert result_bind]. discriminate.
Qed.

End DescriptorsFacts.

Lemma calculate_stats_features_columns_witness :
  is_shape 2 3 example_block ∧ (2 < 3)%nat ∧ (0 < 2)%nat ∧
  describable example_block ∧
  ∃ stats, calculate_stats_features example_block = Ok stats ∧
    is_shape 2 16 stats ∧
    ∀ i series, example_block !! i = Some series →
      ∃ features, stats !! i = Some features ∧
        Forall2 (λ d x, d series = Ok x) descriptor_order features.
Proof.
assert (Hshape : is_shape 2 3 example_block)
  by (split; [reflexivity | repeat constructor]).
assert (Hdesc : describable example_block)
  by (repeat constructor; eexists; reflexivity).
split; [exact Hshape |]. split; [lia |]. split; [lia |].
split; [exact Hdesc |].
apply (calculate_stats_features_columns example_block 2 3 Hshape);
  [lia | lia | exact Hdesc].
Defined.

(** A square block fails the assertion. *)
Lemma calculate_stats_features_assertion_witness :
  (ncols [[inject_Z 1; inject_Z 2]; [inject_Z 3; inject_Z 4]]
   ≤ nrows [[inject_Z 1; inject_Z 2]; [inject_Z 3; inject_Z 4]])%nat ∧
  calculate_stats_features
    [[inject_Z 1; inject_Z 2]; [inject_Z 3; inject_Z 4]]
  = Raise AssertionError.
Proof.
split; [unfold ncols, nrows; simpl; lia |].
apply (proj1 (calculate_stats_features_assertion
                [[inject_Z 1; inject_Z 2]; [inject_Z 3; inject_Z 4]])).
unfold ncols, nrows. simpl. lia.
Defined.

(** ** Properties of [UKBDataset.process] *)

Section UKBProcessFacts.
Context {E Sample : Type}.
Variable loadtxt : Z → result (list (list E)).
Variable fit_transform :
  list (list (list E)) → result (list (list (list E))).

Abbreviation loop := (@process_loop E Sample loadtxt fit_transform FMRI).
Abbreviation sample := (@ukb_sample E Sample fit_transform).











End UKBProcessFacts.


(** Runs of the loop: only subjects with too few rows; a subject of 523
    columns passes the assertion and stops at line 346. *)
Example ukb_process_example :
  process (Sample := unit) example_loadtxt example_fit_transform FMRI [2; 2]
  = Ok [] ∧
  process (Sample := unit) example_loadtxt example_fit_transform FMRI [2; 5]
  = Raise AttributeError.
Proof. vm_compute. done. Qed.


(** For the thresholds of the edge-count property the two evaluations
    agree (checked here for up to 400 nodes). *)
Lemma num_to_filter_binary64_agrees :
  forallb (λ threshold,
    forallb (λ n, bool_decide (num_to_filter_binary64 threshold n
                               = Some (num_to_filter threshold n)))
      (seq 0 401))
    [0; 5; 20; 50; 100] = true.
Proof. vm_compute. reflexivity. Qed.

(** For other thresholds they can differ by one: 0.29 in binary64 lies
    below 29/100.  No property below depends on the value there. *)
Example num_to_filter_binary64_differs :
  num_to_filter_binary64 29 225 = Some 7307 ∧ num_to_filter 29 225 = 7308.
Proof. vm_compute. done. Qed.

(** ** Further properties of the thresholded-graph builder *)

Lemma StronglySorted_reverse {T} (R : relation T) (l : list T) :
  StronglySorted R l → StronglySorted (flip R) (reverse l).
Proof.
induction 1 as [|x l Hl IH Hx]; [constructor |].
rewrite reverse_cons. apply StronglySorted_app_2.
- intros x1 x2 Hx1 Hx2. rewrite elem_of_reverse in Hx1.
  apply list_elem_of_singleton in Hx2. subst x2.
  rewrite Forall_forall in Hx. by apply Hx.
- exact IH.
- repeat constructor.
Qed.

Lemma StronglySorted_fmap_inv {T U} (f : T → U) (R : relation U) (l : list T) :
  StronglySorted R (f <$> l) → StronglySorted (λ x y, R (f x) (f y)) l.
Proof.
induction l as [|x l IH]; csimpl; [constructor |].
rewrite !StronglySorted_cons, Forall_fmap. intros [Hx Hl]. split; [done |].
by apply IH.
Qed.

Lemma gather_take_at (A : list (list Z)) (idx : list (nat * nat))
    (positions : list nat) :
  Forall (λ s, (s < length idx)%nat) positions →
  gather A (take_at idx positions) = take_at (gather A idx) positions.
Proof.
intros Hpos. unfold gather, take_at. rewrite <- list_fmap_compose.
apply Forall_fmap_ext_1. eapply Forall_impl; [exact Hpos |].
intros s Hs. simpl.
exact (eq_sym (list_lookup_total_fmap (λ p : nat * nat, get A p.1 p.2) idx s Hs)).
Qed.

Section BuilderOrder.
Context `{ArgSort}.

(** The ranking lists the nonzero positions from the strongest entry to
    the weakest. *)
Lemma ranked_descending (A : list (list Z)) :
  StronglySorted (λ p q, get A q.1 q.2 ≤ get A p.1 p.2) (ranked A).
Proof.
apply (StronglySorted_fmap_inv (λ p, get A p.1 p.2) (flip Z.le)).
fold (gather A (ranked A)). unfold ranked. rewrite gather_take_at.
- unfold take_at. rewrite fmap_reverse. apply StronglySorted_reverse.
  apply argsort_sorted.
- apply Forall_forall. intros s Hs. rewrite elem_of_reverse in Hs.
  rewrite argsort_perm in Hs. apply elem_of_seq in Hs.
  unfold gather in Hs. rewrite length_fmap in Hs. lia.
Qed.

Lemma kept_at_least_filtered_out k (A : list (list Z)) p q :
  p ∈ kept k A → q ∈ filtered_out k A → get A q.1 q.2 ≤ get A p.1 p.2.
Proof.
intros Hp Hq. pose proof (ranked_descending A) as Hsorted.
rewrite <- (kept_filtered_out k A) in Hsorted.
by apply (StronglySorted_app_1_elem_of _ _ _ p q Hsorted).
Qed.

(** X1. The builder keeps the strongest entries: a pair that is joined by
    an edge is at least as strong as any pair with a nonzero strength that
    is not joined. *)
Theorem thresholded_graph_keeps_strongest
    (h : heap) (r : loc) (A : list (list Z)) (k : Z) (n : nat) :
  h !! r = Some A → is_shape n n A →
  ∃ G h', create_thresholded_graph_from k r n h = Ok (G, h') ∧
    ∀ i j i' j', (i < j)%nat → (i' < j')%nat →
      (i, j) ∈ edges G → (i', j') ∉ edges G → get A i' j' ≠ 0 →
      get A i' j' ≤ get A i j.
Proof.
intros Hr HA.
destruct (create_thresholded_graph_from_run k r n h A Hr HA) as [h' Hrun].
eexists _, h'. split; [exact Hrun |].
intros i j i' j' Hij Hij' Hedge Hnot Hnz.
rewrite (elem_of_returned_edges _ _ _ _ _ HA) in Hedge.
rewrite (elem_of_returned_edges _ _ _ _ _ HA) in Hnot.
pose proof (is_shape_zero_tril _ _ n _ HA) as HA1.
assert ((i, j) ∈ kept k (zero_tril n A)) as Hkept.
{ destruct Hedge as [[? _]|[?|Hji]]; [lia | done |].
  apply (kept_upper _ _ _ _ _ HA) in Hji. lia. }
assert ((i', j') ∈ filtered_out k (zero_tril n A)) as Hout.
{ assert ((i', j') ∈ ranked (zero_tril n A)) as Hin.
  { rewrite ranked_perm. apply (elem_of_np_where _ _ _ _ _ HA1).
    rewrite (get_zero_tril _ _ _ _ HA). by rewrite decide_True. }
  apply (elem_of_kept_ranked k) in Hin as [Hin|Hin]; [| done].
  destruct Hnot. right. by left. }
pose proof (kept_at_least_filtered_out k _ _ _ Hkept Hout) as Hle.
cbn [fst snd] in Hle. rewrite !(get_zero_tril _ _ _ _ HA) in Hle.
by rewrite !decide_True in Hle.
Qed.

(** X2. The returned adjacency matrix is symmetric with ones on the
    diagonal, and an entry off the diagonal is the strength recorded for
    the pair when the pair is joined and zero otherwise: strengths are
    kept, not binarised. *)
Theorem threshold_adj_array_weights
    (h : heap) (r : loc) (A : list (list Z)) (k : Z) (n : nat) :
  h !! r = Some A → is_shape n n A →
  ∃ r' h' B, threshold_adj_array_from k r n h = Ok (r', h') ∧
    h' !! r' = Some B ∧
    (∀ i j, get B i j = get B j i) ∧
    (∀ i, (i < n)%nat → get B i i = 1) ∧
    (∀ i j, i ≠ j →
       get B i j = (if decide (get B i j ≠ 0) then upper_entry A i j else 0)).
Proof.
intros Hr HA.
destruct (threshold_adj_array_from_run k r n h A Hr HA)
  as (r' & Hfresh & Hrun).
eexists r', _, (returned_array k n A). split; [exact Hrun |].
split; [by rewrite lookup_insert_eq |].
pose proof (get_returned_array k n A) as HB.
pose proof (get_caller_array k n A) as HC.
split_and!.
- intros i j. rewrite !HB by done.
  repeat case_decide; try done; try lia. all: lia.
- intros i Hi. rewrite HB by done. by rewrite decide_True.
- intros i j Hne. rewrite HB by done. rewrite decide_False by lia.
  rewrite !HC by done. unfold upper_entry.
  pose proof (kept_upper k n A i j HA) as Hij.
  pose proof (kept_upper k n A j i HA) as Hji.
  destruct (decide ((i, j) ∈ kept k (zero_tril n A))) as [Hk|Hk];
    destruct (decide ((j, i) ∈ kept k (zero_tril n A))) as [Hk'|Hk'].
  + specialize (Hij Hk). specialize (Hji Hk'). lia.
  + specialize (Hij Hk). rewrite Nat.min_l, Nat.max_r by lia.
    rewrite Z.add_0_r. by case_decide.
  + specialize (Hji Hk'). rewrite Nat.min_r, Nat.max_l by lia.
    rewrite Z.add_0_l. by case_decide.
  + by rewrite decide_False by lia.
Qed.

(** X3. Keeping more entries never removes an edge: with [0 <= k <= k'] the
    graph built for [k] is contained in the graph built for [k']. *)
Theorem thresholded_graph_monotone
    (h : heap) (r : loc) (A : list (list Z)) (k k' : Z) (n : nat) :
  h !! r = Some A → is_shape n n A → 0 ≤ k ≤ k' →
  ∃ G G' h1 h2,
    create_thresholded_graph_from k r n h = Ok (G, h1) ∧
    create_thresholded_graph_from k' r n h = Ok (G', h2) ∧
    ∀ p, p ∈ edges G → p ∈ edges G'.
Proof.
intros Hr HA Hk.
destruct (create_thresholded_graph_from_run k r n h A Hr HA) as [h1 Hrun1].
destruct (create_thresholded_graph_from_run k' r n h A Hr HA) as [h2 Hrun2].
eexists _, _, h1, h2. split; [exact Hrun1 |]. split; [exact Hrun2 |].
assert (Hsub : ∀ p, p ∈ kept k (zero_tril n A) →
                    p ∈ kept k' (zero_tril n A)).
{ intros p. unfold kept, keep_len.
  rewrite !(proj2 (Z.leb_le 0 _)) by lia.
  rewrite !elem_of_take. intros (i & Hi & Hlt). exists i. split; [done | lia]. }
intros [i j]. rewrite !(elem_of_returned_edges _ _ _ _ _ HA).
intros [?|[?|?]]; [by left | right; left | right; right]; by apply Hsub.
Qed.

(** X4. With a negative [num_to_filter] the slice [[k:]] selects the last
    [|k|] ranked positions, so the builder does not return the empty graph:
    it drops the [|k|] weakest nonzero entries and keeps all the others. *)
Theorem thresholded_graph_negative_count
    (h : heap) (r : loc) (A : list (list Z)) (k : Z) (n : nat) :
  h !! r = Some A → is_shape n n A → k < 0 →
  ∃ G h', create_thresholded_graph_from k r n h = Ok (G, h') ∧
    non_loop_edge_count G
      = (2 * (upper_nonzero_count n A - Z.to_nat (- k)))%nat.
Proof.
intros Hr HA Hk.
destruct (create_thresholded_graph_from_run k r n h A Hr HA) as [h' Hrun].
eexists _, h'. split; [exact Hrun |].
rewrite (non_loop_edge_count_returned _ _ _ HA). unfold keep_len.
by rewrite (proj2 (Z.leb_gt 0 k)) by lia.
Qed.

(** X5. Once [num_to_filter] reaches the number of nonzero entries above
    the diagonal nothing is filtered any more: every such entry becomes an
    edge, and the caller's array keeps its whole upper triangle. *)
Theorem thresholded_graph_saturates
    (h : heap) (r : loc) (A : list (list Z)) (k : Z) (n : nat) :
  h !! r = Some A → is_shape n n A →
  Z.of_nat (upper_nonzero_count n A) ≤ k →
  ∃ r' h', threshold_adj_array_from k r n h = Ok (r', h') ∧
    h' !! r = Some (zero_tril n A) ∧
    h' !! r' = Some (returned_array k n A) ∧
    ∀ i j, (i, j) ∈ np_where (returned_array k n A) ↔
      (i < n ∧ j < n)%nat ∧ (i = j ∨ upper_entry A i j ≠ 0).
Proof.
intros Hr HA Hk.
destruct (threshold_adj_array_from_run k r n h A Hr HA)
  as (r' & Hfresh & Hrun).
assert (r' ≠ r) as Hne by congruence.
pose proof (is_shape_zero_tril _ _ n _ HA) as HA1.
assert (Hlen : length (ranked (zero_tril n A)) = upper_nonzero_count n A).
{ rewrite (Permutation_length (ranked_perm _)).
  by rewrite (np_where_zero_tril _ _ HA). }
assert (Hnone : filtered_out k (zero_tril n A) = []).
{ unfold filtered_out. rewrite py_slice_from_drop. apply drop_ge.
  unfold keep_len. rewrite (proj2 (Z.leb_le 0 k)) by lia. lia. }
assert (Hkept : ∀ p, p ∈ kept k (zero_tril n A) ↔ upper_nonzero A p).
{ intros p. rewrite <- (app_nil_r (kept k (zero_tril n A))), <- Hnone.
  rewrite kept_filtered_out, ranked_perm, (np_where_zero_tril _ _ HA).
  rewrite list_elem_of_filter. split; [tauto |]. intros Hp.
  split; [done |]. destruct p as [a b], Hp as [Hlt Hnz].
  simpl in *. apply elem_of_grid.
  destruct (decide (a < n ∧ b < n)%nat); [done |].
  by rewrite (get_outside n n) in Hnz. }
eexists r', _. split; [exact Hrun |]. split_and!.
- rewrite lookup_insert_ne, lookup_insert_eq by done.
  unfold caller_array. by rewrite Hnone.
- by rewrite lookup_insert_eq.
- intros i j.
  pose proof (elem_of_returned_edges k n A i j HA) as Hedge.
  simpl in Hedge. rewrite Hedge, !Hkept.
  unfold upper_nonzero, upper_entry. cbn [fst snd].
  assert (∀ a b, get A a b ≠ 0 → (a < n ∧ b < n)%nat) as Hin.
  { intros a b Hnz. destruct (decide (a < n ∧ b < n)%nat); [done |].
    by rewrite (get_outside n n) in Hnz. }
  split.
  + intros [[-> Hi]|[[Hlt Hnz]|[Hlt Hnz]]].
    * tauto.
    * rewrite Nat.min_l, Nat.max_r by lia. split; [by apply Hin | tauto].
    * rewrite Nat.min_r, Nat.max_l by lia.
      split; [apply Hin in Hnz; lia | tauto].
  + intros [[Hi Hj] [->|Hnz]]; [tauto |].
    destruct (Nat.lt_trichotomy i j) as [Hlt|[->|Hlt]]; [| tauto |].
    * rewrite Nat.min_l, Nat.max_r in Hnz by lia. tauto.
    * rewrite Nat.min_r, Nat.max_l in Hnz by lia. tauto.
Qed.

(** X6. An array with fewer rows than [num_nodes] is rejected by the first
    indexed assignment: the call raises IndexError. *)
Theorem threshold_adj_array_too_small
    (h : heap) (r : loc) (A : list (list Z)) (k : Z) (m n : nat) :
  h !! r = Some A → is_shape m m A → (m < n)%nat →
  threshold_adj_array_from k r n h = Raise IndexError.
Proof.
intros Hr HA Hlt.
unfold threshold_adj_array_from, py_bind, load, lift. rewrite Hr.
unfold setitem.
assert (forallb (in_bounds A) (tril_indices n) = false) as ->; [| done].
apply not_true_iff_false. rewrite forallb_forall. intros Hall.
specialize (Hall (n - 1, 0)%nat).
assert (In (n - 1, 0)%nat (tril_indices n)) as Hin.
{ apply list_elem_of_In, elem_of_tril_indices. lia. }
specialize (Hall Hin). unfold in_bounds in Hall.
apply andb_true_iff in Hall as [Hrow _]. simpl in Hrow.
rewrite (is_shape_nrows _ _ _ HA) in Hrow. apply Nat.ltb_lt in Hrow. lia.
Qed.
End BuilderOrder.

Lemma thresholded_graph_keeps_strongest_witness :
  ({[0%nat := example_matrix]} : heap) !! 0%nat = Some example_matrix ∧
  is_shape 4 4 example_matrix ∧
  ∃ G h', create_thresholded_graph_from 3 0%nat 4 {[0%nat := example_matrix]}
            = Ok (G, h') ∧
    ∀ i j i' j', (i < j)%nat → (i' < j')%nat →
      (i, j) ∈ edges G → (i', j') ∉ edges G → get example_matrix i' j' ≠ 0 →
      get example_matrix i' j' ≤ get example_matrix i j.
Proof.
split; [reflexivity |]. split; [split; [reflexivity | repeat constructor] |].
apply (thresholded_graph_keeps_strongest
         {[0%nat := example_matrix]} 0%nat example_matrix 3 4);
  [reflexivity | split; [reflexivity | repeat constructor]].
Defined.

Lemma threshold_adj_array_weights_witness :
  ({[0%nat := example_matrix]} : heap) !! 0%nat = Some example_matrix ∧
  is_shape 4 4 example_matrix ∧
  ∃ r' h' B,
    threshold_adj_array_from 3 0%nat 4 {[0%nat := example_matrix]}
      = Ok (r', h') ∧
    h' !! r' = Some B ∧
    (∀ i j, get B i j = get B j i) ∧
    (∀ i, (i < 4)%nat → get B i i = 1) ∧
    (∀ i j, i ≠ j →
       get B i j
       = (if decide (get B i j ≠ 0) then upper_entry example_matrix i j
          else 0)).
Proof.
split; [reflexivity |]. split; [split; [reflexivity | repeat constructor] |].
apply (threshold_adj_array_weights
         {[0%nat := example_matrix]} 0%nat example_matrix 3 4);
  [reflexivity | split; [reflexivity | repeat constructor]].
Defined.

Lemma thresholded_graph_monotone_witness :
  ({[0%nat := example_matrix]} : heap) !! 0%nat = Some example_matrix ∧
  is_shape 4 4 example_matrix ∧ 0 ≤ 1 ≤ 3 ∧
  ∃ G G' h1 h2,
    create_thresholded_graph_from 1 0%nat 4 {[0%nat := example_matrix]}
      = Ok (G, h1) ∧
    create_thresholded_graph_from 3 0%nat 4 {[0%nat := example_matrix]}
      = Ok (G', h2) ∧
    ∀ p, p ∈ edges G → p ∈ edges G'.
Proof.
split; [reflexivity |]. split; [split; [reflexivity | repeat constructor] |].
split; [lia |].
apply (thresholded_graph_monotone
         {[0%nat := example_matrix]} 0%nat example_matrix 1 3 4);
  [reflexivity | split; [reflexivity | repeat constructor] | lia].
Defined.

(** With [num_to_filter = -2] the two weakest of the five nonzero entries
    are dropped and three pairs stay joined. *)
Example create_thresholded_graph_negative_example :
  ∃ h', create_thresholded_graph_from (-2) 0%nat 4
          {[0%nat := example_matrix]} =
    Ok ({| nodes := [0; 1; 2; 3]%nat;
           edges := [(0, 0); (0, 1); (0, 2); (1, 0); (1, 1); (2, 0); (2, 2);
                     (2, 3); (3, 2); (3, 3)]%nat |}, h').
Proof. eexists. vm_compute. reflexivity. Qed.

Lemma thresholded_graph_negative_count_witness :
  ({[0%nat := example_matrix]} : heap) !! 0%nat = Some example_matrix ∧
  is_shape 4 4 example_matrix ∧ -2 < 0 ∧
  ∃ G h',
    create_thresholded_graph_from (-2) 0%nat 4 {[0%nat := example_matrix]}
      = Ok (G, h') ∧
    non_loop_edge_count G
      = (2 * (upper_nonzero_count 4 example_matrix - Z.to_nat (- -2)))%nat.
Proof.
split; [reflexivity |]. split; [split; [reflexivity | repeat constructor] |].
split; [lia |].
apply (thresholded_graph_negative_count
         {[0%nat := example_matrix]} 0%nat example_matrix (-2) 4);
  [reflexivity | split; [reflexivity | repeat constructor] | lia].
Defined.

Lemma thresholded_graph_saturates_witness :
  ({[0%nat := example_matrix]} : heap) !! 0%nat = Some example_matrix ∧
  is_shape 4 4 example_matrix ∧
  Z.of_nat (upper_nonzero_count 4 example_matrix) ≤ 6 ∧
  ∃ r' h',
    threshold_adj_array_from 6 0%nat 4 {[0%nat := example_matrix]}
      = Ok (r', h') ∧
    h' !! 0%nat = Some (zero_tril 4 example_matrix) ∧
    h' !! r' = Some (returned_array 6 4 example_matrix) ∧
    ∀ i j, (i, j) ∈ np_where (returned_array 6 4 example_matrix) ↔
      (i < 4 ∧ j < 4)%nat ∧ (i = j ∨ upper_entry example_matrix i j ≠ 0).
Proof.
split; [reflexivity |]. split; [split; [reflexivity | repeat constructor] |].
split; [by vm_compute |].
apply (thresholded_graph_saturates
         {[0%nat := example_matrix]} 0%nat example_matrix 6 4);
  [reflexivity | split; [reflexivity | repeat constructor] | by vm_compute].
Defined.

Lemma threshold_adj_array_too_small_witness :
  ({[0%nat := [[1; 2]; [3; 4]]]} : heap) !! 0%nat = Some [[1; 2]; [3; 4]] ∧
  is_shape 2 2 [[1; 2]; [3; 4]] ∧ (2 < 3)%nat ∧
  threshold_adj_array_from 1 0%nat 3 {[0%nat := [[1; 2]; [3; 4]]]}
  = Raise IndexError.
Proof.
split; [reflexivity |]. split; [split; [reflexivity | repeat constructor] |].
split; [lia |].
apply (threshold_adj_array_too_small
         {[0%nat := [[1; 2]; [3; 4]]]} 0%nat [[1; 2]; [3; 4]] 1 2 3);
  [reflexivity | split; [reflexivity | repeat constructor] | lia].
Defined.

(** ** Further properties of [random_downsample] *)

Lemma pick_sublist_from {A} (numbers : list nat) (l : list A) (start : nat) :
  (filter (λ p : nat * A, p.1 ∈ numbers) (zip (seq start (length l)) l)).*2
    `sublist_of` l.
Proof.
revert start. induction l as [|a l IH]; intros start; [done |].
simpl. rewrite filter_cons. simpl. case_decide; csimpl.
- by apply sublist_skip.
- by apply sublist_cons.
Qed.

Lemma pick_sublist {A} (numbers : list nat) (l : list A) :
  pick numbers l `sublist_of` l.
Proof. apply pick_sublist_from. Qed.

Lemma filter_disjoint_submseteq {A} (P Q : A → Prop)
    `{∀ a, Decision (P a)} `{∀ a, Decision (Q a)} (l : list A) :
  (∀ a, P a → ¬ Q a) → filter P l ++ filter Q l ⊆+ l.
Proof.
intros Hdisj. induction l as [|a l IH]; [done |].
rewrite !filter_cons. destruct (decide (P a)) as [HP|HP].
- rewrite decide_False by by apply Hdisj. simpl. by apply submseteq_skip.
- destruct (decide (Q a)) as [HQ|HQ].
  + rewrite <- Permutation_middle. by apply submseteq_skip.
  + by apply submseteq_cons.
Qed.

Section DownsampleMore.
Context `{Generator}.

(** X7. Balancing only selects: the result is a sub-multiset of the input
    (no sample is invented or returned twice), samples whose label is
    neither 0 nor 1 are dropped, and the result has twice the minority
    count of samples, the minority samples first. *)
Theorem random_downsample_selects
    (data_list : list Data) (stdout : list string) :
  ∃ sampled chosen stdout',
    random_downsample data_list stdout = Ok (sampled, stdout') ∧
    sampled = filter (λ x, y x = minority_label data_list) data_list
              ++ chosen ∧
    chosen `sublist_of`
      filter (λ x, y x = 1 - minority_label data_list) data_list ∧
    sampled ⊆+ data_list ∧
    Forall (λ x, y x = 0 ∨ y x = 1) sampled ∧
    length sampled
      = (2 * Nat.min (label_count 0 data_list) (label_count 1 data_list))%nat.
Proof.
destruct (random_downsample_run data_list stdout)
  as (numbers & out & Hrun & Hnum).
set (s := minority_label data_list) in *.
set (c0 := label_count 0 data_list) in *.
set (c1 := label_count 1 data_list) in *.
assert (Hcounts : label_count s data_list = Nat.min c0 c1
                  ∧ label_count (1 - s) data_list = Nat.max c0 c1
                  ∧ (s = 0 ∨ s = 1)).
{ unfold s, minority_label. fold (label_count 1 data_list).
  fold (label_count 0 data_list). fold c0 c1.
  destruct (Nat.ltb_spec c1 c0); simpl; fold c0 c1.
  - change (1 - 1) with 0. fold c0. lia.
  - change (1 - 0) with 1. fold c1. lia. }
destruct Hcounts as (Hmin & Hmax & Hbin).
assert (Hlen : length (pick numbers (filter (λ x, y x = 1 - s) data_list))
               = Nat.min c0 c1).
{ rewrite length_pick.
  - rewrite Hnum. apply choice_length. lia.
  - rewrite Hnum. apply choice_NoDup. lia.
  - intros x Hx. rewrite Hnum in Hx. apply choice_lt in Hx; [| lia].
    fold (label_count (1 - s) data_list). by rewrite Hmax. }
eexists _, (pick numbers (filter (λ x, y x = 1 - s) data_list)), out.
split; [exact Hrun |]. split; [done |]. split; [apply pick_sublist |].
split_and!.
- transitivity (filter (λ x, y x = s) data_list
                ++ filter (λ x, y x = 1 - s) data_list).
  + apply submseteq_app; [done |]. apply sublist_submseteq, pick_sublist.
  + apply filter_disjoint_submseteq. intros a. lia.
- apply Forall_app. split.
  + eapply Forall_impl; [apply Forall_filter_label |]. simpl. lia.
  + eapply Forall_impl; [apply Forall_pick, Forall_filter_label |].
    simpl. lia.
- rewrite length_app, Hlen. fold (label_count s data_list). lia.
Qed.
End DownsampleMore.

(** ** Further properties of [calculate_stats_features] *)

Lemma apply_along_rows_Ok_inv {E} (f : list E → result E)
    (X : list (list E)) (vs : list E) :
  apply_along_rows f X = Ok vs → Forall (λ row, succeeds (f row)) X.
Proof.
revert vs. induction X as [|row X IH]; intros vs Hrun; [constructor |].
simpl in Hrun. destruct (f row) as [v|e] eqn:Hv; [| done].
simpl in Hrun. destruct (apply_along_rows f X) as [vs'|e]; [| done].
constructor; [by exists v | by eapply IH].
Qed.

Section DescriptorsMore.
Context {E : Type} `{DescriptorBank E}.

(** X8. The bank returns a matrix only when every descriptor is defined
    on every row: one exception inside any descriptor ends the call, and
    nothing partial is returned. *)
Theorem calculate_stats_features_only_if_describable
    (timeseries stats : list (list E)) :
  calculate_stats_features timeseries = Ok stats → describable timeseries.
Proof.
intros Hrun. unfold calculate_stats_features in Hrun.
destruct (assert _); [| discriminate]. cbn [result_bind] in Hrun.
repeat match type of Hrun with
| context [apply_along_rows ?d timeseries] =>
    let Hd := fresh "Hd" in
    destruct (apply_along_rows d timeseries) eqn:Hd; [| discriminate];
    apply apply_along_rows_Ok_inv in Hd;
    cbn [result_bind] in Hrun
end.
unfold describable, descriptor_order. apply Forall_forall. intros row Hrow.
repeat (constructor;
        [match goal with
         | Hd : Forall (λ r, succeeds (?d r)) timeseries
             |- succeeds (?d row) =>
             rewrite Forall_forall in Hd; by apply Hd
         end |]).
constructor.
Qed.
End DescriptorsMore.

(** ** Further properties of [UKBDataset.process] *)

Section UKBProcessMore.
Context {E Sample : Type}.
Variable loadtxt : Z → result (list (list E)).
Variable fit_transform :
  list (list (list E)) → result (list (list (list E))).


End UKBProcessMore.

(** The example block is described by the stand-in library. *)
Lemma calculate_stats_features_only_if_describable_witness :
  calculate_stats_features example_block
  = Ok [[inject_Z 2; 0%Q; inject_Z 1; inject_Z 3; 0%Q; 0%Q; 0%Q; 0%Q; 0%Q;
         0%Q; 0%Q; 0%Q; 0%Q; 0%Q; 0%Q; 0%Q];
        [inject_Z 6; 0%Q; inject_Z 4; inject_Z 8; 0%Q; 0%Q; 0%Q; 0%Q; 0%Q;
         0%Q; 0%Q; 0%Q; 0%Q; 0%Q; 0%Q; 0%Q]] ∧
  describable example_block.
Proof.
assert (Hrun : calculate_stats_features example_block
  = Ok [[inject_Z 2; 0%Q; inject_Z 1; inject_Z 3; 0%Q; 0%Q; 0%Q; 0%Q; 0%Q;
         0%Q; 0%Q; 0%Q; 0%Q; 0%Q; 0%Q; 0%Q];
        [inject_Z 6; 0%Q; inject_Z 4; inject_Z 8; 0%Q; 0%Q; 0%Q; 0%Q; 0%Q;
         0%Q; 0%Q; 0%Q; 0%Q; 0%Q; 0%Q; 0%Q]])
  by (vm_compute; reflexivity).
split; [exact Hrun |].
exact (calculate_stats_features_only_if_describable example_block _ Hrun).
Defined.

(** ** Properties of [HCPDataset.__create_data_object] *)

Lemma apply_along_rows_length {E} (f : list E → result E)
    (X : list (list E)) (vs : list E) :
  apply_along_rows f X = Ok vs → length vs = length X.
Proof.
revert vs. induction X as [|row X IH]; intros vs Hrun; simpl in Hrun.
- by simplify_eq.
- destruct (f row) as [v|e]; [| done]. simpl in Hrun.
  destruct (apply_along_rows f X) as [vs'|e]; [| done]. simpl in Hrun.
  simplify_eq. simpl. f_equal. by apply IH.
Qed.

(** What the bank returns has one row per row of the block and sixteen
    columns. *)
Lemma calculate_stats_features_Ok_shape {E} `{DescriptorBank E}
    (timeseries stats : list (list E)) :
  calculate_stats_features timeseries = Ok stats →
  is_shape (nrows timeseries) 16 stats.
Proof.
intros Hrun. unfold calculate_stats_features in Hrun.
destruct (Nat.ltb_spec (nrows timeseries) (ncols timeseries)) as [Hlt|];
  [| discriminate].
cbn [assert result_bind] in Hrun.
repeat match type of Hrun with
| context [apply_along_rows ?d timeseries] =>
    let Hd := fresh "Hd" in
    destruct (apply_along_rows d timeseries) eqn:Hd; [| discriminate];
    apply apply_along_rows_length in Hd;
    cbn [result_bind] in Hrun
end.
destruct (vstack _) as [merged|e] eqn:Hstack; [| discriminate].
cbn [result_bind] in Hrun. simplify_eq.
unfold vstack in Hstack. destruct (forallb _ _) eqn:Hall; [| discriminate].
simplify_eq. apply is_shape_transpose; [| lia].
split; [reflexivity |]. unfold nrows.
repeat (constructor; [assumption |]). constructor.
Qed.

Section NanFacts.
Context {E : Type} `{NanTest E}.

Lemma is_shape_nan_to_zero r c (X : list (list E)) :
  is_shape r c X → is_shape r c (nan_to_zero X).
Proof.
intros [Hr Hc]. unfold nan_to_zero. split; [by rewrite length_fmap |].
apply Forall_fmap. eapply Forall_impl; [exact Hc |].
intros row Hrow. simpl. by rewrite length_fmap.
Qed.

Lemma nan_to_zero_clean (X : list (list E)) :
  Forall (Forall (λ v, isnan v = false)) (nan_to_zero X).
Proof.
unfold nan_to_zero. apply Forall_fmap, Forall_forall. intros row _.
apply Forall_fmap, Forall_forall. intros v _. simpl.
destruct (isnan v) eqn:Hv; [apply float_zero_not_nan | done].
Qed.

Lemma has_nan_false (X : list (list E)) :
  Forall (Forall (λ v, isnan v = false)) X → has_nan X = false.
Proof.
intros HX. unfold has_nan. apply not_true_iff_false.
rewrite existsb_exists. intros (row & Hrow%list_elem_of_In & Hex).
rewrite existsb_exists in Hex. destruct Hex as (v & Hv%list_elem_of_In & Hnan).
rewrite Forall_forall in HX. specialize (HX row Hrow).
rewrite Forall_forall in HX. specialize (HX v Hv). congruence.
Qed.
End NanFacts.

Lemma is_shape_zip_app {E} r c1 c2 (X Y : list (list E)) :
  is_shape r c1 X → is_shape r c2 Y →
  is_shape r (c1 + c2) (zip_with app X Y).
Proof.
intros [HrX HcX] [HrY HcY]. split; [rewrite length_zip_with; lia |].
apply Forall_lookup. intros i row Hi.
apply lookup_zip_with_Some in Hi as (a & b & -> & Ha & Hb).
rewrite Forall_lookup in HcX, HcY.
by rewrite length_app, (HcX _ _ Ha), (HcY _ _ Hb).
Qed.

Section CreateDataObjectFacts.
Context {E : Type} `{RobustScaler E} `{DescriptorBank E} `{NanTest E}.
Variable num_nodes time_length : nat.
Variable normalisation : Normalisation.
Variable analysis_type : AnalysisType.
Variable nodefeats : Z → result (list (list E)).
Variable info_gender : Z → result E.

(** What a normalised block looks like when the call returns one. *)
Lemma normalise_timeseries_Ok_shape (ts normalised : list (list E)) T N :
  is_shape T N ts → (0 < T)%nat → (0 < N)%nat →
  normalise_timeseries ts normalisation = Ok normalised →
  is_shape N T normalised.
Proof.
intros Hts HT HN Hrun. destruct normalisation; simpl in Hrun.
- simplify_eq. by apply is_shape_transpose.
- destruct (scaler_fit_transform ts _ _ Hts HT HN)
    as (s & Y & Hfit & Htrans & HY).
  rewrite Hfit in Hrun. simpl in Hrun. rewrite Htrans in Hrun.
  simpl in Hrun. simplify_eq. by apply is_shape_transpose.
- pose proof (is_shape_reshape_column ts) as Hcol.
  rewrite (length_flatten _ _ _ Hts) in Hcol.
  destruct (scaler_fit_transform _ _ _ Hcol)
    as (s & Y & Hfit & Htrans & HY); [nia | lia |].
  rewrite Hfit in Hrun. simpl in Hrun. rewrite Htrans in Hrun.
  simpl in Hrun.
  rewrite (is_shape_nrows _ _ _ Hts), (is_shape_ncols _ _ _ Hts) in Hrun
    by done.
  destruct (reshape_Ok T N _ _ Y HY) as (Z & HZ & HsZ); [lia |].
  rewrite HZ in Hrun. simpl in Hrun. simplify_eq.
  by apply is_shape_transpose.
Qed.

(** X10. With the descriptor encoding, a series of [time_length] rows and
    [num_nodes] columns whose normalisation and descriptors return is
    assembled without any assertion failing: the sixteen descriptor columns
    have every NaN replaced by 0 and follow the static covariates of the
    node; identifiers, label and edges are passed on. *)
Theorem create_data_object_stats
    (person : Z) (ts normalised stats covariates : list (list E))
    (ind width : nat) (edge_index : list (nat * nat)) (gender : E) :
  is_shape time_length num_nodes ts →
  (num_nodes < time_length)%nat → (0 < num_nodes)%nat →
  normalise_timeseries ts normalisation = Ok normalised →
  calculate_stats_features normalised = Ok stats →
  nodefeats person = Ok covariates → is_shape num_nodes width covariates →
  info_gender person = Ok gender →
  ∃ data,
    create_data_object num_nodes time_length normalisation
      EncodingStrategy.STATS ST_MULTIMODAL nodefeats info_gender
      person ts ind edge_index = Ok data ∧
    hcp_x data = zip_with app covariates (nan_to_zero stats) ∧
    is_shape num_nodes (width + 16) (hcp_x data) ∧
    Forall (Forall (λ v, isnan v = false)) (nan_to_zero stats) ∧
    hcp_edge_index data = edge_index ∧ hcp_y data = gender ∧
    hcp_id data = person ∧ hcp_index data = ind.
Proof.
intros Hts Hlt Hpos Hnorm Hstats Hcov Hcovshape Hgender.
pose proof (normalise_timeseries_Ok_shape _ _ _ _ Hts ltac:(lia) Hpos Hnorm)
  as Hshape.
pose proof (calculate_stats_features_Ok_shape _ _ Hstats) as Hstatshape.
rewrite (is_shape_nrows _ _ _ Hshape) in Hstatshape.
pose proof (is_shape_nan_to_zero _ _ _ Hstatshape) as Hclean.
unfold create_data_object.
rewrite (is_shape_nrows _ _ _ Hts), (is_shape_ncols _ _ _ Hts) by lia.
rewrite (proj2 (Nat.ltb_lt _ _) Hlt). cbn [assert result_bind].
rewrite Hnorm. cbn [result_bind]. unfold shape_is.
rewrite (is_shape_nrows _ _ _ Hshape), (is_shape_ncols _ _ _ Hshape) by lia.
rewrite !Nat.eqb_refl. cbn [andb assert result_bind].
rewrite Hstats. cbn [result_bind].
rewrite (is_shape_nrows _ _ _ Hstatshape),
  (is_shape_ncols _ _ _ Hstatshape) by lia.
rewrite !Nat.eqb_refl. cbn [andb assert result_bind].
rewrite (has_nan_false _ (nan_to_zero_clean stats)).
cbn [negb assert result_bind]. rewrite Hcov. cbn [result_bind].
unfold concatenate_columns.
rewrite (is_shape_nrows _ _ _ Hcovshape), (is_shape_nrows _ _ _ Hclean).
rewrite Nat.eqb_refl. cbn [result_bind]. rewrite Hgender. cbn [result_bind].
eexists. split; [reflexivity |]. simpl. split_and!; try done.
- by apply is_shape_zip_app.
- apply nan_to_zero_clean.
Qed.

(** X11. With the raw encoding the normalised series themselves follow the
    covariates, one row per node; the configured [num_nodes] and
    [time_length] are not consulted on this path. *)
Theorem create_data_object_raw
    (person : Z) (ts normalised covariates : list (list E))
    (ind width T N : nat) (edge_index : list (nat * nat)) (gender : E) :
  is_shape T N ts → (N < T)%nat → (0 < N)%nat →
  normalise_timeseries ts normalisation = Ok normalised →
  nodefeats person = Ok covariates → is_shape N width covariates →
  info_gender person = Ok gender →
  ∃ data,
    create_data_object num_nodes time_length normalisation
      EncodingStrategy.NONE ST_MULTIMODAL nodefeats info_gender
      person ts ind edge_index = Ok data ∧
    hcp_x data = zip_with app covariates normalised ∧
    is_shape N (width + T) (hcp_x data) ∧
    hcp_edge_index data = edge_index ∧ hcp_y data = gender ∧
    hcp_id data = person ∧ hcp_index data = ind.
Proof.
intros Hts Hlt Hpos Hnorm Hcov Hcovshape Hgender.
pose proof (normalise_timeseries_Ok_shape _ _ _ _ Hts ltac:(lia) Hpos Hnorm)
  as Hshape.
unfold create_data_object.
rewrite (is_shape_nrows _ _ _ Hts), (is_shape_ncols _ _ _ Hts) by lia.
rewrite (proj2 (Nat.ltb_lt _ _) Hlt). cbn [assert result_bind].
rewrite Hnorm. cbn [result_bind]. rewrite Hcov. cbn [result_bind].
unfold concatenate_columns.
rewrite (is_shape_nrows _ _ _ Hcovshape), (is_shape_nrows _ _ _ Hshape).
rewrite Nat.eqb_refl. cbn [result_bind]. rewrite Hgender. cbn [result_bind].
eexists. split; [reflexivity |]. simpl. split_and!; try done.
by apply is_shape_zip_app.
Qed.

(** X12. The assertions of the method: a series that is not longer than
    it is wide is refused at once, and with the descriptor encoding a
    normalised block whose shape is not the configured
    [(num_nodes, time_length)] is refused before any descriptor runs. *)
Theorem create_data_object_assertions
    (encoding_strategy : EncodingStrategy.t)
    (person : Z) (ts : list (list E)) (ind : nat)
    (edge_index : list (nat * nat)) :
  ((nrows ts ≤ ncols ts)%nat →
   create_data_object num_nodes time_length normalisation encoding_strategy
     analysis_type nodefeats info_gender person ts ind edge_index
   = Raise AssertionError) ∧
  (∀ normalised,
     (ncols ts < nrows ts)%nat →
     normalise_timeseries ts normalisation = Ok normalised →
     ¬ (nrows normalised = num_nodes ∧ ncols normalised = time_length) →
     create_data_object num_nodes time_length normalisation
       EncodingStrategy.STATS analysis_type nodefeats info_gender
       person ts ind edge_index
     = Raise AssertionError).
Proof.
split.
- intros Hle. unfold create_data_object.
  by rewrite (proj2 (Nat.ltb_ge _ _) Hle).
- intros normalised Hlt Hnorm Hbad. unfold create_data_object.
  rewrite (proj2 (Nat.ltb_lt _ _) Hlt). cbn [assert result_bind].
  rewrite Hnorm. cbn [result_bind]. unfold shape_is.
  destruct (Nat.eqb_spec (nrows normalised) num_nodes);
    destruct (Nat.eqb_spec (ncols normalised) time_length); try done.
  by destruct Hbad.
Qed.
End CreateDataObjectFacts.

(** The descriptor columns of the example: mean, minimum and maximum are
    kept, the thirteen NaN become 0, and the covariate comes first. *)
Example create_data_object_example :
  create_data_object 2 3 NONE EncodingStrategy.STATS ST_MULTIMODAL
    example_nodefeats example_gender 7 example_series 1 [(0, 1); (1, 0)]%nat
  = Ok {| hcp_x :=
            [[Some (inject_Z 10); Some (inject_Z 2); Some 0%Q;
              Some (inject_Z 1); Some (inject_Z 3);
              Some 0%Q; Some 0%Q; Some 0%Q; Some 0%Q; Some 0%Q; Some 0%Q;
              Some 0%Q; Some 0%Q; Some 0%Q; Some 0%Q; Some 0%Q; Some 0%Q];
             [Some (inject_Z 20); Some (inject_Z 6); Some 0%Q;
              Some (inject_Z 4); Some (inject_Z 8);
              Some 0%Q; Some 0%Q; Some 0%Q; Some 0%Q; Some 0%Q; Some 0%Q;
              Some 0%Q; Some 0%Q; Some 0%Q; Some 0%Q; Some 0%Q; Some 0%Q]];
          hcp_edge_index := [(0, 1); (1, 0)]%nat;
          hcp_y := Some (inject_Z 1); hcp_id := 7; hcp_index := 1 |}.
Proof. vm_compute. reflexivity. Qed.

Lemma create_data_object_stats_witness :
  is_shape 3 2 example_series ∧ (2 < 3)%nat ∧ (0 < 2)%nat ∧
  normalise_timeseries example_series NONE = Ok example_normalised ∧
  calculate_stats_features example_normalised = Ok example_stats ∧
  example_nodefeats 7 = Ok [[Some (inject_Z 10)]; [Some (inject_Z 20)]] ∧
  is_shape 2 1 [[Some (inject_Z 10)]; [Some (inject_Z 20)]] ∧
  example_gender 7 = Ok (Some (inject_Z 1)) ∧
  ∃ data,
    create_data_object 2 3 NONE EncodingStrategy.STATS ST_MULTIMODAL
      example_nodefeats example_gender 7 example_series 1 [] = Ok data ∧
    hcp_x data
      = zip_with app [[Some (inject_Z 10)]; [Some (inject_Z 20)]]
          (nan_to_zero example_stats) ∧
    is_shape 2 (1 + 16) (hcp_x data) ∧
    Forall (Forall (λ v, isnan v = false)) (nan_to_zero example_stats) ∧
    hcp_edge_index data = [] ∧ hcp_y data = Some (inject_Z 1) ∧
    hcp_id data = 7 ∧ hcp_index data = 1%nat.
Proof.
assert (H1 : is_shape 3 2 example_series)
  by (split; [reflexivity | repeat constructor]).
assert (H2 : normalise_timeseries example_series NONE = Ok example_normalised)
  by reflexivity.
assert (H3 : calculate_stats_features example_normalised = Ok example_stats)
  by (vm_compute; reflexivity).
assert (H4 : is_shape 2 1 [[Some (inject_Z 10)]; [Some (inject_Z 20)]])
  by (split; [reflexivity | repeat constructor]).
split; [exact H1 |]. split; [lia |]. split; [lia |].
split; [exact H2 |]. split; [exact H3 |]. split; [reflexivity |].
split; [exact H4 |]. split; [reflexivity |].
apply (create_data_object_stats 2 3 NONE example_nodefeats example_gender
         7 example_series example_normalised example_stats
         [[Some (inject_Z 10)]; [Some (inject_Z 20)]] 1 1 [] (Some (inject_Z 1))
         H1); [lia | lia | exact H2 | exact H3 | reflexivity | exact H4
              | reflexivity].
Defined.

Lemma create_data_object_raw_witness :
  is_shape 3 2 example_series ∧ (2 < 3)%nat ∧ (0 < 2)%nat ∧
  normalise_timeseries example_series NONE = Ok example_normalised ∧
  example_nodefeats 7 = Ok [[Some (inject_Z 10)]; [Some (inject_Z 20)]] ∧
  is_shape 2 1 [[Some (inject_Z 10)]; [Some (inject_Z 20)]] ∧
  example_gender 7 = Ok (Some (inject_Z 1)) ∧
  ∃ data,
    create_data_object 68 1200 NONE EncodingStrategy.NONE ST_MULTIMODAL
      example_nodefeats example_gender 7 example_series 1 [] = Ok data ∧
    hcp_x data
      = zip_with app [[Some (inject_Z 10)]; [Some (inject_Z 20)]]
          example_normalised ∧
    is_shape 2 (1 + 3) (hcp_x data) ∧
    hcp_edge_index data = [] ∧ hcp_y data = Some (inject_Z 1) ∧
    hcp_id data = 7 ∧ hcp_index data = 1%nat.
Proof.
assert (H1 : is_shape 3 2 example_series)
  by (split; [reflexivity | repeat constructor]).
assert (H2 : normalise_timeseries example_series NONE = Ok example_normalised)
  by reflexivity.
assert (H4 : is_shape 2 1 [[Some (inject_Z 10)]; [Some (inject_Z 20)]])
  by (split; [reflexivity | repeat constructor]).
split; [exact H1 |]. split; [lia |]. split; [lia |].
split; [exact H2 |]. split; [reflexivity |].
split; [exact H4 |]. split; [reflexivity |].
apply (create_data_object_raw 68 1200 NONE example_nodefeats example_gender
         7 example_series example_normalised
         [[Some (inject_Z 10)]; [Some (inject_Z 20)]] 1 1 3 2 []
         (Some (inject_Z 1)) H1);
  [lia | lia | exact H2 | reflexivity | exact H4 | reflexivity].
Defined.

(** A series with as many timepoints as nodes is refused. *)
Lemma create_data_object_assertions_witness :
  (nrows [[Some 0%Q; Some 0%Q]; [Some 0%Q; Some 0%Q]]
   ≤ ncols [[Some 0%Q; Some 0%Q]; [Some 0%Q; Some 0%Q]])%nat ∧
  create_data_object 2 2 NONE EncodingStrategy.STATS ST_MULTIMODAL
    example_nodefeats example_gender 7
    [[Some 0%Q; Some 0%Q]; [Some 0%Q; Some 0%Q]] 0 []
  = Raise AssertionError.
Proof.
split; [unfold nrows, ncols; simpl; lia |].
apply (proj1 (create_data_object_assertions 2 2 NONE ST_MULTIMODAL
                example_nodefeats example_gender EncodingStrategy.STATS 7
                [[Some 0%Q; Some 0%Q]; [Some 0%Q; Some 0%Q]] 0%nat [])).
unfold nrows, ncols. simpl. lia.
Defined.

(** ** Properties of [HCPDataset.process] *)

Lemma result_bind_Ok {A B} (m : result A) (f : A → result B) (b : B) :
  result_bind m f = Ok b → ∃ a, m = Ok a ∧ f a = Ok b.
Proof. destruct m as [a|e]; [| done]. intros Hf. by exists a. Qed.

Lemma assert_Ok (b : bool) (u : unit) : assert b = Ok u → b = true.
Proof. by destruct b. Qed.

Lemma StronglySorted_le_NoDup_lt (l : list Z) :
  StronglySorted Z.le l → NoDup l → StronglySorted Z.lt l.
Proof.
induction 1 as [|x l Hl IH Hx]; intros Hnd; [constructor |].
apply NoDup_cons in Hnd as [Hnotin Hnd]. constructor; [by apply IH |].
apply Forall_forall. intros y Hy. rewrite Forall_forall in Hx.
specialize (Hx y Hy). assert (x ≠ y) by (intros ->; done). lia.
Qed.

Lemma StronglySorted_lt_NoDup (l : list Z) :
  StronglySorted Z.lt l → NoDup l.
Proof.
induction 1 as [|x l Hl IH Hx]; [constructor |].
apply NoDup_cons. split; [| done]. intros Hin.
rewrite Forall_forall in Hx. specialize (Hx x Hin). lia.
Qed.

Lemma sorted_intersection_sorted (a b : list Z) :
  StronglySorted Z.lt (sorted_intersection a b).
Proof.
unfold sorted_intersection. apply StronglySorted_le_NoDup_lt.
- apply (StronglySorted_merge_sort Z.le).
- rewrite merge_sort_Permutation. apply NoDup_remove_dups.
Qed.

Lemma elem_of_sorted_intersection (a b : list Z) (p : Z) :
  p ∈ sorted_intersection a b ↔ p ∈ a ∧ p ∈ b.
Proof.
unfold sorted_intersection.
by rewrite merge_sort_Permutation, elem_of_remove_dups,
  list_elem_of_intersection.
Qed.

Lemma Forall2_elem_of_l {A B} (P : A → B → Prop) (l : list A) (k : list B)
    (x : A) :
  Forall2 P l k → x ∈ l → ∃ y, y ∈ k ∧ P x y.
Proof.
intros HF (i & Hi)%list_elem_of_lookup.
destruct (Forall2_lookup_l _ _ _ _ _ HF Hi) as (y & Hy & HP).
exists y. split; [| done]. apply list_elem_of_lookup. by exists i.
Qed.

Lemma Forall2_elem_of_r {A B} (P : A → B → Prop) (l : list A) (k : list B)
    (y : B) :
  Forall2 P l k → y ∈ k → ∃ x, x ∈ l ∧ P x y.
Proof.
intros HF (i & Hi)%list_elem_of_lookup.
destruct (Forall2_lookup_r _ _ _ _ _ HF Hi) as (x & Hx & HP).
exists x. split; [| done]. apply list_elem_of_lookup. by exists i.
Qed.

Lemma elem_of_concat {A} (x : A) (ls : list (list A)) :
  x ∈ concat ls ↔ ∃ l, x ∈ l ∧ l ∈ ls.
Proof.
rewrite list_elem_of_In, in_concat. split.
- intros (l & Hl & Hx). exists l. by rewrite !list_elem_of_In.
- intros (l & Hx & Hl). exists l. by rewrite <- !list_elem_of_In.
Qed.

Section HCPProcessFacts.
Context {E : Type} `{RobustScaler E} `{DescriptorBank E} `{NanTest E}.
Context `{ArgSort}.
Variable num_nodes time_length : nat.
Variable threshold : Z.
Variable connectivity_type : ConnType.
Variable normalisation : Normalisation.
Variable encoding_strategy : EncodingStrategy.t.
Variable analysis_type : AnalysisType.
Variable nodefeats : Z → result (list (list E)).
Variable info_gender : Z → result E.
Variable DESIKAN_COMPLETE_TS DESIKAN_TRACKS : list Z.
Variable genfromtxt_tracks : Z → result (list (list Z)).
Variable genfromtxt_ts : Z → string → result (list (list E)).

Abbreviation data_object :=
  (create_data_object num_nodes time_length normalisation encoding_strategy
     analysis_type nodefeats info_gender).
Abbreviation scans :=
  (HCPDataset.direction_loop num_nodes time_length normalisation
     encoding_strategy analysis_type nodefeats info_gender genfromtxt_ts).
Abbreviation subjects :=
  (HCPDataset.person_loop num_nodes time_length threshold connectivity_type
     normalisation encoding_strategy analysis_type nodefeats info_gender
     genfromtxt_tracks genfromtxt_ts).
Abbreviation hcp_process :=
  (HCPDataset.process num_nodes time_length threshold connectivity_type
     normalisation encoding_strategy analysis_type nodefeats info_gender
     DESIKAN_COMPLETE_TS DESIKAN_TRACKS genfromtxt_tracks genfromtxt_ts).
Abbreviation sample_of :=
  (HCPDataset.scan_sample num_nodes time_length normalisation
     encoding_strategy analysis_type nodefeats info_gender genfromtxt_ts).
Abbreviation graph_of_subject :=
  (HCPDataset.subject_graph num_nodes threshold genfromtxt_tracks).
Abbreviation filtered_people :=
  (sorted_intersection DESIKAN_COMPLETE_TS DESIKAN_TRACKS).

Lemma create_data_object_Ok_inv person ts ind edge_index data :
  data_object person ts ind edge_index = Ok data →
  hcp_id data = person ∧ hcp_index data = ind
  ∧ hcp_edge_index data = edge_index.
Proof.
unfold create_data_object. intros Hrun.
repeat (apply result_bind_Ok in Hrun as (? & _ & Hrun)).
by simplify_eq.
Qed.

Lemma direction_loop_Ok person edge_index todo data_list out :
  scans person edge_index todo data_list = Ok out →
  ∃ new, out = data_list ++ new
         ∧ Forall2 (sample_of person edge_index) todo new.
Proof.
revert data_list. induction todo as [|[ind direction] todo IH];
  intros data_list Hrun; simpl in Hrun.
- simplify_eq. exists []. by rewrite app_nil_r.
- apply result_bind_Ok in Hrun as (raw & Hraw & Hrun).
  apply result_bind_Ok in Hrun as (ts & Hts & Hrun).
  apply result_bind_Ok in Hrun as (u1 & Hrows%assert_Ok & Hrun).
  apply result_bind_Ok in Hrun as (u2 & Hcols%assert_Ok & Hrun).
  apply result_bind_Ok in Hrun as (data & Hdata & Hrun).
  apply IH in Hrun as (new & -> & Hnew).
  exists (data :: new). split; [by rewrite <- app_assoc |].
  constructor; [| done]. exists raw, ts. simpl.
  apply Nat.eqb_eq in Hrows, Hcols. done.
Qed.

Lemma person_loop_Returned people data_list out :
  subjects people data_list = Returned out →
  (people = [] ∨ connectivity_type = STRUCT) ∧
  ∃ groups, out = data_list ++ concat groups ∧
    Forall2 (λ person group, ∃ G,
               graph_of_subject person G ∧
               Forall2 (sample_of person (edges G))
                 (enumerate HCPDataset.directions) group)
      people groups.
Proof.
revert data_list. induction people as [|person people IH];
  intros data_list Hrun; simpl in Hrun.
- simplify_eq. split; [by left |]. exists []. simpl.
  by rewrite app_nil_r.
- destruct connectivity_type eqn:Hconn; [done |].
  destruct (HCPDataset.struct_body _ _ _ _ _ _ _ _ _ _ _ _) as [mid|e]
    eqn:Hbody; [| done].
  apply IH in Hrun as [_ (groups & -> & Hgroups)].
  split; [by right |].
  unfold HCPDataset.struct_body in Hbody.
  apply result_bind_Ok in Hbody as (tracks & Htracks & Hbody).
  apply result_bind_Ok in Hbody as (rows & Hrows & Hbody).
  apply result_bind_Ok in Hbody as (arr & Harr & Hbody).
  apply result_bind_Ok in Hbody as (G & HG & Hbody).
  apply direction_loop_Ok in Hbody as (new & -> & Hnew).
  exists (new :: groups). split; [simpl; by rewrite <- app_assoc |].
  constructor; [| done]. exists G. split; [| done].
  by exists tracks, rows, arr.
Qed.

Lemma process_Returned data_list :
  hcp_process = Returned data_list →
  time_length = 1200%nat ∧ num_nodes ≠ 50%nat ∧
  (filtered_people = [] ∨ connectivity_type = STRUCT) ∧
  ∃ groups, data_list = concat groups ∧
    Forall2 (λ person group, ∃ G,
               graph_of_subject person G ∧
               Forall2 (sample_of person (edges G))
                 (enumerate HCPDataset.directions) group)
      filtered_people groups.
Proof.
unfold HCPDataset.process. intros Hrun.
destruct (Nat.eqb_spec time_length 1200) as [Ht|]; [| done].
destruct (Nat.eqb_spec num_nodes 50) as [|Hn]; [done |].
cbn [negb] in Hrun. apply person_loop_Returned in Hrun as [Hc (g & Hg & HF)].
by eauto 10.
Qed.



Lemma scan_samples_labels person edge_index todo group :
  Forall2 (sample_of person edge_index) todo group →
  (λ d, (hcp_id d, hcp_index d)) <$> group = (λ s, (person, s.1)) <$> todo.
Proof.
induction 1 as [|scan d todo group (raw & ts & _ & _ & _ & _ & Hd) _ IH];
  [done |].
apply create_data_object_Ok_inv in Hd as (Hid & Hind & _).
rewrite !fmap_cons, IH. cbn beta. by rewrite Hid, Hind.
Qed.

Lemma subject_groups_labels (people : list Z) (groups : list (list (HCPData E))) :
  Forall2 (λ person group, ∃ G,
             graph_of_subject person G ∧
             Forall2 (sample_of person (edges G))
               (enumerate HCPDataset.directions) group)
    people groups →
  (λ d, (hcp_id d, hcp_index d)) <$> concat groups
  = person ← people; (λ ind, (person, ind)) <$> seq 0 4.
Proof.
induction 1 as [|person group people groups (G & _ & Hgroup) _ IH]; [done |].
simpl. rewrite fmap_app, IH. f_equal.
by rewrite (scan_samples_labels _ _ _ _ Hgroup).
Qed.

(** X13. A run that completes has made, for every subject of the
    population in turn, the four samples with the indexes 0, 1, 2, 3, in
    this order, and nothing else. *)
Theorem hcp_process_samples (data_list : list (HCPData E)) :
  hcp_process = Returned data_list →
  (λ d, (hcp_id d, hcp_index d)) <$> data_list
  = person ← filtered_people; (λ ind, (person, ind)) <$> seq 0 4.
Proof.
intros (_ & _ & _ & groups & -> & Hgroups)%process_Returned.
by apply subject_groups_labels.
Qed.

(** X14. In a run that completes no scan is made twice, the subjects
    come in ascending order, and a subject has a sample with the index
    [ind] exactly when it is in both of [DESIKAN_COMPLETE_TS] and
    [DESIKAN_TRACKS] and [ind] is below 4. *)
Theorem hcp_process_population (data_list : list (HCPData E)) :
  hcp_process = Returned data_list →
  NoDup ((λ d, (hcp_id d, hcp_index d)) <$> data_list) ∧
  StronglySorted Z.le (hcp_id <$> data_list) ∧
  length data_list = (4 * length filtered_people)%nat ∧
  ∀ person ind,
    (person, ind) ∈ (λ d, (hcp_id d, hcp_index d)) <$> data_list ↔
    person ∈ DESIKAN_COMPLETE_TS ∧ person ∈ DESIKAN_TRACKS ∧ (ind < 4)%nat.
Proof.
intros (_ & _ & _ & groups & -> & Hgroups)%process_Returned.
apply subject_groups_labels in Hgroups.
pose proof (sorted_intersection_sorted DESIKAN_COMPLETE_TS DESIKAN_TRACKS)
  as Hsorted.
assert (Hmem : ∀ person ind,
  (person, ind) ∈ (λ d, (hcp_id d, hcp_index d)) <$> concat groups ↔
  person ∈ filtered_people ∧ (ind < 4)%nat).
{ intros person ind. rewrite Hgroups, list_elem_of_bind. split.
  - intros (p & (i & Heq & Hi)%list_elem_of_fmap & Hp). simplify_eq.
    apply elem_of_seq in Hi. split; [done | lia].
  - intros [Hp Hi]. exists person. split; [| done].
    apply list_elem_of_fmap. exists ind. split; [done |].
    apply elem_of_seq. lia. }
split_and!.
- rewrite Hgroups. apply NoDup_bind.
  + intros p q pair _ _ (i & -> & _)%list_elem_of_fmap
      (j & Heq & _)%list_elem_of_fmap. by simplify_eq.
  + intros p _. apply NoDup_fmap; [by intros ?? [=] | apply NoDup_seq].
  + by apply StronglySorted_lt_NoDup.
- assert (hcp_id <$> concat groups
          = fst <$> ((λ d, (hcp_id d, hcp_index d)) <$> concat groups))
    as -> by (rewrite <- list_fmap_compose; done).
  rewrite Hgroups. clear Hgroups Hmem.
  induction Hsorted as [|p people Hpeople IH Hp]; [constructor |].
  rewrite bind_cons, fmap_app.
  change (fst <$> ((λ ind : nat, (p, ind)) <$> seq 0 4)) with [p; p; p; p].
  assert (Forall (Z.le p)
            (fst <$> (people ≫= λ person : Z,
                        (λ ind : nat, (person, ind)) <$> seq 0 4))) as Hall.
  { rewrite Forall_forall. intros q (pair & -> & Hq)%list_elem_of_fmap.
    apply list_elem_of_bind in Hq as (p' & (i & -> & _)%list_elem_of_fmap
                                      & Hp').
    rewrite Forall_forall in Hp. specialize (Hp _ Hp'). simpl. lia. }
  cbn [app].
  repeat (constructor; [| repeat (constructor; [lia |]); exact Hall]).
  exact IH.
- rewrite <- (length_fmap (λ d, (hcp_id d, hcp_index d))), Hgroups.
  clear. induction filtered_people as [|p people IH]; [done |].
  rewrite bind_cons, length_app, IH, length_fmap, length_seq. simpl. lia.
- intros person ind. rewrite Hmem, elem_of_sorted_intersection. tauto.
Qed.


Lemma subject_graph_unique person G G' :
  graph_of_subject person G → graph_of_subject person G' → G = G'.
Proof.
intros (t & r & a & Ht & Hr & Ha & HG) (t' & r' & a' & Ht' & Hr' & Ha' & HG').
rewrite Ht in Ht'. simplify_eq. rewrite Hr in Hr'. simplify_eq.
rewrite Ha in Ha'. simplify_eq. rewrite HG in HG'. by simplify_eq.
Qed.

Lemma process_Returned_sample data_list d :
  hcp_process = Returned data_list → d ∈ data_list →
  ∃ G scan, graph_of_subject (hcp_id d) G
            ∧ hcp_id d ∈ filtered_people
            ∧ scan ∈ enumerate HCPDataset.directions
            ∧ sample_of (hcp_id d) (edges G) scan d.
Proof.
intros (_ & _ & _ & groups & -> & Hgroups)%process_Returned Hd.
apply elem_of_concat in Hd as (group & Hd & Hgroup).
destruct (Forall2_elem_of_r _ _ _ _ Hgroups Hgroup)
  as (person & Hperson & G & HG & Hscans).
destruct (Forall2_elem_of_r _ _ _ _ Hscans Hd) as (scan & Hscan & Hsample).
pose proof Hsample as (raw & ts & _ & _ & _ & _ & Hdata).
apply create_data_object_Ok_inv in Hdata as (-> & _ & _).
by exists G, scan.
Qed.

(** X15. Where the binary64 evaluation of line 42 gives the exact value of
    [num_to_filter], the edges of every sample of a completed run are those
    of the graph built from the cortical block of the tract matrix of its
    subject: the four samples of a subject carry the same edges. *)
Theorem hcp_process_edge_index (data_list : list (HCPData E)) :
  num_to_filter_binary64 threshold num_nodes
  = Some (num_to_filter threshold num_nodes) →
  hcp_process = Returned data_list →
  (∀ d, d ∈ data_list →
     ∃ G, graph_of_subject (hcp_id d) G ∧ hcp_edge_index d = edges G) ∧
  (∀ d d', d ∈ data_list → d' ∈ data_list → hcp_id d = hcp_id d' →
     hcp_edge_index d = hcp_edge_index d').
Proof.
intros _ Hrun.
assert (Hone : ∀ d, d ∈ data_list →
  ∃ G, graph_of_subject (hcp_id d) G ∧ hcp_edge_index d = edges G).
{ intros d Hd.
  destruct (process_Returned_sample _ _ Hrun Hd)
    as (G & scan & HG & _ & _ & raw & ts & _ & _ & _ & _ & Hdata).
  apply create_data_object_Ok_inv in Hdata as (_ & _ & Hedges).
  by exists G. }
split; [exact Hone |]. intros d d' Hd Hd' Hid.
destruct (Hone d Hd) as (G & HG & ->).
destruct (Hone d' Hd') as (G' & HG' & ->).
rewrite Hid in HG. by rewrite (subject_graph_unique _ _ _ HG HG').
Qed.

(** X16. No scan is skipped: a run completes only with
    [time_length = 1200] and [num_nodes] other than 50, and then every
    scan of every subject of the population was read, had 1200 timepoints
    and 68 regions after the selection of the cortical columns, and its
    sample is in the result. *)
Theorem hcp_process_checks_every_scan (data_list : list (HCPData E)) :
  hcp_process = Returned data_list →
  time_length = 1200%nat ∧ num_nodes ≠ 50%nat ∧
  ∀ person scan,
    person ∈ filtered_people → scan ∈ enumerate HCPDataset.directions →
    connectivity_type = STRUCT ∧
    ∃ d, d ∈ data_list ∧ sample_of person (hcp_edge_index d) scan d.
Proof.
intros (Ht & Hn & Hc & groups & -> & Hgroups)%process_Returned.
split; [done |]. split; [done |]. intros person scan Hperson Hscan.
split. { destruct Hc as [Hc|Hc]; [| done]. rewrite Hc in Hperson.
         by apply elem_of_nil in Hperson. }
destruct (Forall2_elem_of_l _ _ _ _ Hgroups Hperson)
  as (group & Hgroup & G & HG & Hscans).
destruct (Forall2_elem_of_l _ _ _ _ Hscans Hscan) as (d & Hd & Hsample).
exists d. split; [apply elem_of_concat; by exists group |].
pose proof Hsample as (raw & ts & _ & _ & _ & _ & Hdata).
apply create_data_object_Ok_inv in Hdata as (_ & _ & ->). done.
Qed.

Lemma person_loop_Exited people data_list code :
  subjects people data_list = Exited code ↔
  people ≠ [] ∧ connectivity_type = FMRI ∧ code = -2.
Proof.
revert data_list. induction people as [|person people IH];
  intros data_list; simpl.
- split; [done | by intros [? _]].
- destruct connectivity_type eqn:Hconn.
  + split; [intros [= <-]; done | by intros (_ & _ & ->)].
  + destruct (HCPDataset.struct_body _ _ _ _ _ _ _ _ _ _ _ _) as [mid|e].
    * rewrite IH. split; [by intros (_ & ? & _) | by intros (_ & ? & _)].
    * split; [done | by intros (_ & ? & _)].
Qed.

(** X17. The run leaves the interpreter in two cases only, both after the
    check of [time_length]: with status -1 when [num_nodes] is 50, and with
    status -2 when the connectivity is functional and the population is not
    empty. *)
Theorem hcp_process_exits (code : Z) :
  HCPDataset.process num_nodes time_length threshold connectivity_type
    normalisation encoding_strategy analysis_type nodefeats info_gender
    DESIKAN_COMPLETE_TS DESIKAN_TRACKS genfromtxt_tracks genfromtxt_ts
  = Exited code ↔
  time_length = 1200%nat ∧
  ((num_nodes = 50%nat ∧ code = -1) ∨
   (num_nodes ≠ 50%nat ∧ connectivity_type = FMRI
    ∧ sorted_intersection DESIKAN_COMPLETE_TS DESIKAN_TRACKS ≠ []
    ∧ code = -2)).
Proof.
unfold HCPDataset.process.
destruct (Nat.eqb_spec time_length 1200) as [Ht|Ht]; cbn [negb].
- destruct (Nat.eqb_spec num_nodes 50) as [Hn|Hn].
  + split; [intros [= <-]; tauto |].
    intros [_ [[_ ->]|[? _]]]; done.
  + rewrite person_loop_Exited. split; [tauto |].
    intros [_ [[? _]|(_ & ? & ? & ?)]]; done.
- split; [done | tauto].
Qed.

End HCPProcessFacts.

(** *** Index arrays *)

Lemma omap_all_Some {A B} (f : A → option B) (l : list A) :
  Forall (λ x, is_Some (f x)) l → Forall2 (λ x y, f x = Some y) l (omap f l).
Proof.
induction 1 as [|x l [y Hy] _ IH]; [constructor |].
simpl. rewrite Hy. by constructor.
Qed.

Lemma take_rows_Ok {E} (idx : list nat) (A rows : list (list E)) :
  take_rows idx A = Ok rows → Forall2 (λ a row, A !! a = Some row) idx rows.
Proof.
unfold take_rows. destruct (mapM _ idx) as [rows'|] eqn:Hm; [| done].
intros [= <-]. by apply mapM_Some.
Qed.

Lemma take_columns_Ok {E} (idx : list nat) (A B : list (list E)) r c :
  is_shape r c A → (0 < r)%nat → take_columns idx A = Ok B →
  Forall2 (λ row row', Forall2 (λ b v, row !! b = Some v) idx row') A B.
Proof.
intros HA Hr. unfold take_columns.
rewrite (is_shape_ncols _ _ _ HA Hr).
destruct (forallb _ idx) eqn:Hidx; [| done]. intros [= <-].
apply Forall2_fmap_r, Forall_Forall2_diag.
destruct HA as [_ Hc]. eapply Forall_impl; [exact Hc |].
intros row Hrow. cbn beta in Hrow. apply omap_all_Some.
apply Forall_forall. intros b Hb%list_elem_of_In.
rewrite forallb_forall in Hidx. specialize (Hidx b Hb).
apply Nat.ltb_lt in Hidx. apply lookup_lt_is_Some. lia.
Qed.

Lemma take_rows_shape {E} (idx : list nat) (A rows : list (list E)) r c :
  is_shape r c A → take_rows idx A = Ok rows → is_shape (length idx) c rows.
Proof.
intros [_ Hc] HF%take_rows_Ok. split; [symmetry; by eapply Forall2_length |].
apply Forall_forall. intros row Hrow.
destruct (Forall2_elem_of_r _ _ _ _ HF Hrow) as (a & _ & Ha).
rewrite Forall_forall in Hc. apply Hc. by eapply list_elem_of_lookup_2.
Qed.

Lemma take_columns_shape {E} (idx : list nat) (A B : list (list E)) r c :
  is_shape r c A → (0 < r)%nat → take_columns idx A = Ok B →
  is_shape r (length idx) B.
Proof.
intros HA Hr HB. pose proof (take_columns_Ok _ _ _ _ _ HA Hr HB) as HF.
split; [rewrite <- (Forall2_length _ _ _ HF); apply HA |].
apply Forall_forall. intros row' Hrow'.
destruct (Forall2_elem_of_r _ _ _ _ HF Hrow') as (row & _ & Hrow).
symmetry. by eapply Forall2_length.
Qed.

(** An entry of [A[idx, :][:, idx]] is the entry of [A] at the selected
    row and column. *)
Lemma entry_take_rows_columns {E} (idx : list nat)
    (A rows B : list (list E)) r c i j a b :
  is_shape r c A → (0 < length idx)%nat →
  take_rows idx A = Ok rows → take_columns idx rows = Ok B →
  idx !! i = Some a → idx !! j = Some b →
  entry B i j = entry A a b.
Proof.
intros HA Hpos Hrows HB Hi Hj.
pose proof (take_rows_shape _ _ _ _ _ HA Hrows) as Hshape.
pose proof (take_columns_Ok _ _ _ _ _ Hshape Hpos HB) as HF.
apply take_rows_Ok in Hrows.
destruct (Forall2_lookup_l _ _ _ _ _ Hrows Hi) as (row & Hrow & Ha).
destruct (Forall2_lookup_l _ _ _ _ _ HF Hrow) as (row' & Hrow' & Hcols).
destruct (Forall2_lookup_l _ _ _ _ _ Hcols Hj) as (v & Hv & Hb).
unfold entry. rewrite Hrow', Ha. simpl. by rewrite Hv, Hb.
Qed.

Lemma take_columns_nrows {E} (idx : list nat) (A B : list (list E)) :
  take_columns idx A = Ok B → nrows B = nrows A.
Proof.
unfold take_columns. destruct (forallb _ idx); [| discriminate].
intros [= <-]. unfold nrows. by rewrite length_fmap.
Qed.

Lemma nrows_transpose {E} (X : list (list E)) : nrows (transpose X) = ncols X.
Proof. unfold transpose, nrows. by rewrite length_fmap, length_seq. Qed.


Lemma graph_of_copy_Ok `{ArgSort} (arr : list (list Z)) threshold n G :
  is_shape n n arr → graph_of_copy arr threshold n = Ok G →
  G = from_numpy_array (returned_array (num_to_filter threshold n) n arr).
Proof.
intros Harr. unfold graph_of_copy, py_bind, alloc. cbv beta iota zeta.
match goal with
| |- context [create_thresholded_graph ?r _ _ ?h] =>
    destruct (create_thresholded_graph_run r threshold n h arr) as [h' Hrun];
      [apply lookup_insert_eq | done |]
end.
rewrite Hrun. by intros [= <-].
Qed.

Section HCPProcessShapes.
Context {E : Type} `{RobustScaler E} `{DescriptorBank E} `{NanTest E}.
Context `{ArgSort}.
Variable num_nodes time_length : nat.
Variable threshold : Z.
Variable connectivity_type : ConnType.
Variable normalisation : Normalisation.
Variable encoding_strategy : EncodingStrategy.t.
Variable analysis_type : AnalysisType.
Variable nodefeats : Z → result (list (list E)).
Variable info_gender : Z → result E.
Variable DESIKAN_COMPLETE_TS DESIKAN_TRACKS : list Z.
Variable genfromtxt_tracks : Z → result (list (list Z)).
Variable genfromtxt_ts : Z → string → result (list (list E)).

Abbreviation hcp_run :=
  (HCPDataset.process num_nodes time_length threshold connectivity_type
     normalisation encoding_strategy analysis_type nodefeats info_gender
     DESIKAN_COMPLETE_TS DESIKAN_TRACKS genfromtxt_tracks genfromtxt_ts).
Abbreviation made_from :=
  (HCPDataset.scan_sample num_nodes time_length normalisation
     encoding_strategy analysis_type nodefeats info_gender genfromtxt_ts).
Abbreviation graph_for :=
  (HCPDataset.subject_graph num_nodes threshold genfromtxt_tracks).

Lemma scan_sample_shape person edge_index scan d :
  (∀ p direction raw, genfromtxt_ts p direction = Ok raw →
                      ∃ r c, is_shape r c raw) →
  made_from person edge_index scan d →
  ∃ ts, is_shape 1200 68 ts ∧
    create_data_object num_nodes time_length normalisation encoding_strategy
      analysis_type nodefeats info_gender person ts scan.1 edge_index = Ok d.
Proof.
intros Hrect (raw & ts & Hraw & Hts & Hrows & Hcols & Hdata).
exists ts. split; [| done].
destruct (Hrect _ _ _ Hraw) as (r & c & Hshape).
assert (ncols raw = 1200%nat) as Hc.
{ rewrite <- nrows_transpose, <- (take_columns_nrows _ _ _ Hts). exact Hrows. }
assert (0 < r)%nat as Hr.
{ destruct Hshape as [<- _]. destruct raw; [done | simpl; lia]. }
rewrite (is_shape_ncols _ _ _ Hshape Hr) in Hc. subst c.
pose proof (is_shape_transpose _ _ _ Hshape Hr) as Htr.
exact (take_columns_shape _ _ _ _ _ Htr ltac:(lia) Hts).
Qed.

Lemma create_data_object_stats_inv person ts ind edge_index d :
  encoding_strategy = EncodingStrategy.STATS →
  is_shape 1200 68 ts →
  create_data_object num_nodes time_length normalisation encoding_strategy
    analysis_type nodefeats info_gender person ts ind edge_index = Ok d →
  num_nodes = 68%nat ∧ nrows (hcp_x d) = 68%nat.
Proof.
intros -> Hts Hrun. unfold create_data_object in Hrun.
apply result_bind_Ok in Hrun as (u & _ & Hrun).
apply result_bind_Ok in Hrun as (normalised & Hnorm & Hrun).
apply result_bind_Ok in Hrun as (timeseries & Hstats & Hrun).
apply result_bind_Ok in Hrun as (x & Hx & Hrun).
apply result_bind_Ok in Hrun as (y & _ & Hrun). simplify_eq. simpl.
apply (normalise_timeseries_Ok_shape _ _ _ _ _ Hts) in Hnorm; [| lia ..].
apply result_bind_Ok in Hstats as (u1 & Hs1%assert_Ok & Hstats).
apply result_bind_Ok in Hstats as (stats & _ & Hstats).
apply result_bind_Ok in Hstats as (u2 & Hs2%assert_Ok & Hstats).
apply result_bind_Ok in Hstats as (u3 & _ & Hstats). simplify_eq.
unfold shape_is in Hs1, Hs2.
apply andb_true_iff in Hs1 as [Hn%Nat.eqb_eq _].
apply andb_true_iff in Hs2 as [Hrows%Nat.eqb_eq _].
rewrite (is_shape_nrows _ _ _ Hnorm) in Hn. subst num_nodes.
split; [done |].
assert (nrows (nan_to_zero stats) = 68%nat) as Hclean.
{ unfold nan_to_zero, nrows. by rewrite length_fmap. }
destruct analysis_type.
- by simplify_eq.
- apply result_bind_Ok in Hx as (cov & _ & Hx).
  unfold concatenate_columns in Hx.
  destruct (Nat.eqb_spec (nrows cov) (nrows (nan_to_zero stats))) as [Heq|];
    [| done].
  simplify_eq. unfold nrows in *. rewrite length_zip_with. lia.
Qed.

(** X18. With the descriptor encoding a run over a population that is not
    empty completes only if [num_nodes] is 68, the number of cortical
    regions that line 267 selects; every sample then has 68 rows of node
    features. *)
Theorem hcp_process_stats_needs_68_nodes (data_list : list (HCPData E)) :
  encoding_strategy = EncodingStrategy.STATS →
  (∀ p direction raw, genfromtxt_ts p direction = Ok raw →
                      ∃ r c, is_shape r c raw) →
  hcp_run = Returned data_list → data_list ≠ [] →
  num_nodes = 68%nat ∧ ∀ d, d ∈ data_list → nrows (hcp_x d) = 68%nat.
Proof.
intros Henc Hrect Hrun Hne.
assert (Hone : ∀ d, d ∈ data_list →
                    num_nodes = 68%nat ∧ nrows (hcp_x d) = 68%nat).
{ intros d Hd.
  destruct (process_Returned_sample _ _ _ _ _ _ _ _ _ _ _ _ _ _ _ Hrun Hd)
    as (G & scan & _ & _ & _ & Hsample).
  destruct (scan_sample_shape _ _ _ _ Hrect Hsample) as (ts & Hts & Hdata).
  exact (create_data_object_stats_inv _ _ _ _ _ Henc Hts Hdata). }
destruct data_list as [|d0 rest]; [done |]. split.
- apply (Hone d0). by left.
- intros d Hd. by apply Hone.
Qed.

Lemma subject_graph_edges person G :
  num_nodes = 68%nat →
  (∀ p tracks, genfromtxt_tracks p = Ok tracks → ∃ r c, is_shape r c tracks) →
  graph_for person G →
  ∃ tracks arr_struct,
    genfromtxt_tracks person = Ok tracks ∧ is_shape 68 68 arr_struct ∧
    (∀ i j a b, HCPDataset.idx_to_filter !! i = Some a →
                HCPDataset.idx_to_filter !! j = Some b →
                get arr_struct i j = get tracks a b) ∧
    G = from_numpy_array
          (returned_array (num_to_filter threshold 68) 68 arr_struct).
Proof.
intros Hn Hrect (tracks & rows & arr & Htracks & Hrows & Harr & HG).
destruct (Hrect _ _ Htracks) as (r & c & Hshape).
pose proof (take_rows_shape _ _ _ _ _ Hshape Hrows) as Hshape1.
assert (0 < length HCPDataset.idx_to_filter)%nat as Hpos by (simpl; lia).
pose proof (take_columns_shape _ _ _ _ _ Hshape1 Hpos Harr) as Hshape2.
change (length HCPDataset.idx_to_filter) with 68%nat in Hshape2.
exists tracks, arr. split_and!; [done | done | |].
- intros i j a b Hi Hj. unfold get.
  by rewrite (entry_take_rows_columns _ _ _ _ _ _ _ _ _ _ Hshape
                Hpos Hrows Harr Hi Hj).
- subst num_nodes. by apply graph_of_copy_Ok.
Qed.

(** X19. With [num_nodes = 68], the edges of every sample of a completed
    run form a symmetric relation on the regions 0 to 67 with a loop at
    every region, and an edge between two different regions is backed by a
    nonzero entry of the tract matrix of the subject, in the upper triangle
    of its cortical block. *)
Theorem hcp_process_edge_index_symmetric
    (data_list : list (HCPData E)) (d : HCPData E) :
  num_nodes = 68%nat →
  (∀ p tracks, genfromtxt_tracks p = Ok tracks → ∃ r c, is_shape r c tracks) →
  hcp_run = Returned data_list → d ∈ data_list →
  (∀ i j, (i, j) ∈ hcp_edge_index d →
          (j, i) ∈ hcp_edge_index d ∧ (i < 68)%nat ∧ (j < 68)%nat) ∧
  (∀ i, (i < 68)%nat → (i, i) ∈ hcp_edge_index d) ∧
  (∀ i j, (i, j) ∈ hcp_edge_index d → (i < j)%nat →
     ∃ tracks a b,
       genfromtxt_tracks (hcp_id d) = Ok tracks ∧
       HCPDataset.idx_to_filter !! i = Some a ∧
       HCPDataset.idx_to_filter !! j = Some b ∧
       get tracks a b ≠ 0).
Proof.
intros Hn Hrect Hrun Hd.
destruct (process_Returned_sample _ _ _ _ _ _ _ _ _ _ _ _ _ _ _ Hrun Hd)
  as (G & scan & HG & _ & _ & raw & ts & _ & _ & _ & _ & Hdata).
apply create_data_object_Ok_inv in Hdata as (_ & _ & ->).
destruct (subject_graph_edges _ _ Hn Hrect HG)
  as (tracks & arr & Htracks & Harr & Hget & ->).
pose proof (elem_of_returned_edges (num_to_filter threshold 68) 68 arr)
  as Hedges.
pose proof (kept_upper (num_to_filter threshold 68) 68 arr) as Hupper.
split_and!.
- intros i j Hij. apply (Hedges _ _ Harr) in Hij.
  rewrite (Hedges j i Harr). destruct Hij as [[-> Hi]|[Hk|Hk]].
  + split; [by left | lia].
  + specialize (Hupper _ _ Harr Hk). split; [tauto | lia].
  + specialize (Hupper _ _ Harr Hk). split; [tauto | lia].
- intros i Hi. apply (Hedges _ _ Harr). by left.
- intros i j Hij Hlt. apply (Hedges _ _ Harr) in Hij.
  destruct Hij as [[-> _]|[Hk|Hk]]; [lia | |].
  + pose proof (kept_nonzero 68 68 _ _ _ _
                  (is_shape_zero_tril _ _ 68 _ Harr) Hk) as Hnz.
    rewrite (get_zero_tril _ _ _ _ Harr) in Hnz.
    specialize (Hupper _ _ Harr Hk).
    rewrite decide_True in Hnz by done.
    destruct (lookup_lt_is_Some_2 HCPDataset.idx_to_filter i) as [a Ha];
      [simpl; lia |].
    destruct (lookup_lt_is_Some_2 HCPDataset.idx_to_filter j) as [b Hb];
      [simpl; lia |].
    exists tracks, a, b. split_and!; try done.
    by rewrite <- (Hget _ _ _ _ Ha Hb).
  + specialize (Hupper _ _ Harr Hk). lia.
Qed.

End HCPProcessShapes.

(** *** The example run *)

Lemma example_hcp_completes : returned_some example_hcp_process = true.
Proof. vm_compute. reflexivity. Qed.

Lemma example_hcp_run :
  example_hcp_process = Returned example_hcp_samples
  ∧ example_hcp_samples ≠ []
  ∧ example_hcp_sample ∈ example_hcp_samples.
Proof.
pose proof example_hcp_completes as Hrun.
unfold example_hcp_sample, example_hcp_samples.
destruct example_hcp_process as [[|d data_list]| |]; try discriminate Hrun.
split; [reflexivity |]. split; [discriminate |]. apply list_elem_of_here.
Qed.

Lemma example_hcp_returned :
  example_hcp_process = Returned example_hcp_samples.
Proof. exact (proj1 example_hcp_run). Qed.

Lemma example_hcp_not_empty : example_hcp_samples ≠ [].
Proof. exact (proj1 (proj2 example_hcp_run)). Qed.

Lemma example_hcp_sample_made : example_hcp_sample ∈ example_hcp_samples.
Proof. exact (proj2 (proj2 example_hcp_run)). Qed.

Lemma example_scan_rectangular p direction raw :
  example_scan p direction = Ok raw → ∃ r c, is_shape r c raw.
Proof.
intros Hraw.
assert (shape_eqb 83 1200
          (match example_scan p direction with
           | Ok a => a
           | Raise _ => []
           end) = true) as Hshape by (vm_compute; reflexivity).
rewrite Hraw in Hshape. exists 83%nat, 1200%nat. by apply shape_eqb_spec.
Qed.

Lemma example_tracks_rectangular p tracks :
  example_tracks p = Ok tracks → ∃ r c, is_shape r c tracks.
Proof.
intros Htracks.
assert (shape_eqb 83 83
          (match example_tracks p with
           | Ok a => a
           | Raise _ => []
           end) = true) as Hshape by (vm_compute; reflexivity).
rewrite Htracks in Hshape. exists 83%nat, 83%nat. by apply shape_eqb_spec.
Qed.

Lemma hcp_process_samples_witness :
  example_hcp_process = Returned example_hcp_samples ∧
  (λ d, (hcp_id d, hcp_index d)) <$> example_hcp_samples
  = person ← sorted_intersection example_complete_ts example_with_tracks;
    (λ ind, (person, ind)) <$> seq 0 4.
Proof.
split; [exact example_hcp_returned |].
apply (hcp_process_samples 68 1200 20 STRUCT NONE EncodingStrategy.STATS
         ST_MULTIMODAL example_cortical_nodefeats example_subject_gender
         example_complete_ts example_with_tracks
         example_tracks example_scan example_hcp_samples).
exact example_hcp_returned.
Defined.

Lemma hcp_process_population_witness :
  example_hcp_process = Returned example_hcp_samples ∧
  NoDup ((λ d, (hcp_id d, hcp_index d)) <$> example_hcp_samples) ∧
  StronglySorted Z.le (hcp_id <$> example_hcp_samples) ∧
  length example_hcp_samples
  = (4 * length (sorted_intersection example_complete_ts example_with_tracks))%nat ∧
  ∀ person ind,
    (person, ind) ∈ (λ d, (hcp_id d, hcp_index d)) <$> example_hcp_samples ↔
    person ∈ example_complete_ts ∧ person ∈ example_with_tracks
    ∧ (ind < 4)%nat.
Proof.
split; [exact example_hcp_returned |].
apply (hcp_process_population 68 1200 20 STRUCT NONE EncodingStrategy.STATS
         ST_MULTIMODAL example_cortical_nodefeats example_subject_gender
         example_complete_ts example_with_tracks
         example_tracks example_scan example_hcp_samples).
exact example_hcp_returned.
Defined.

Lemma hcp_process_edge_index_witness :
  num_to_filter_binary64 20 68 = Some (num_to_filter 20 68) ∧
  example_hcp_process = Returned example_hcp_samples ∧
  (∀ d, d ∈ example_hcp_samples →
     ∃ G, HCPDataset.subject_graph 68 20 example_tracks (hcp_id d) G
          ∧ hcp_edge_index d = edges G) ∧
  (∀ d d', d ∈ example_hcp_samples → d' ∈ example_hcp_samples →
     hcp_id d = hcp_id d' → hcp_edge_index d = hcp_edge_index d').
Proof.
assert (num_to_filter_binary64 20 68 = Some (num_to_filter 20 68)) as Hline42
  by (vm_compute; reflexivity).
split; [exact Hline42 |]. split; [exact example_hcp_returned |].
apply (hcp_process_edge_index 68 1200 20 STRUCT NONE EncodingStrategy.STATS
         ST_MULTIMODAL example_cortical_nodefeats example_subject_gender
         example_complete_ts example_with_tracks
         example_tracks example_scan example_hcp_samples Hline42).
exact example_hcp_returned.
Defined.

Lemma hcp_process_checks_every_scan_witness :
  example_hcp_process = Returned example_hcp_samples ∧
  1200%nat = 1200%nat ∧ 68%nat ≠ 50%nat ∧
  ∀ person scan,
    person ∈ sorted_intersection example_complete_ts example_with_tracks →
    scan ∈ enumerate HCPDataset.directions →
    STRUCT = STRUCT ∧
    ∃ d, d ∈ example_hcp_samples ∧
      HCPDataset.scan_sample 68 1200 NONE EncodingStrategy.STATS
        ST_MULTIMODAL example_cortical_nodefeats example_subject_gender example_scan
        person (hcp_edge_index d) scan d.
Proof.
split; [exact example_hcp_returned |].
apply (hcp_process_checks_every_scan 68 1200 20 STRUCT NONE
         EncodingStrategy.STATS ST_MULTIMODAL example_cortical_nodefeats
         example_subject_gender example_complete_ts example_with_tracks
         example_tracks example_scan example_hcp_samples).
exact example_hcp_returned.
Defined.

Lemma hcp_process_stats_needs_68_nodes_witness :
  example_hcp_process = Returned example_hcp_samples ∧
  example_hcp_samples ≠ [] ∧
  68%nat = 68%nat ∧
  ∀ d, d ∈ example_hcp_samples → nrows (hcp_x d) = 68%nat.
Proof.
split; [exact example_hcp_returned |]. split; [exact example_hcp_not_empty |].
apply (hcp_process_stats_needs_68_nodes 68 1200 20 STRUCT NONE
         EncodingStrategy.STATS ST_MULTIMODAL example_cortical_nodefeats
         example_subject_gender example_complete_ts example_with_tracks
         example_tracks example_scan example_hcp_samples eq_refl
         example_scan_rectangular).
- exact example_hcp_returned.
- exact example_hcp_not_empty.
Defined.

Lemma hcp_process_edge_index_symmetric_witness :
  example_hcp_process = Returned example_hcp_samples ∧
  example_hcp_sample ∈ example_hcp_samples ∧
  (∀ i j, (i, j) ∈ hcp_edge_index example_hcp_sample →
          (j, i) ∈ hcp_edge_index example_hcp_sample
          ∧ (i < 68)%nat ∧ (j < 68)%nat) ∧
  (∀ i, (i < 68)%nat → (i, i) ∈ hcp_edge_index example_hcp_sample) ∧
  (∀ i j, (i, j) ∈ hcp_edge_index example_hcp_sample → (i < j)%nat →
     ∃ tracks a b,
       example_tracks (hcp_id example_hcp_sample) = Ok tracks ∧
       HCPDataset.idx_to_filter !! i = Some a ∧
       HCPDataset.idx_to_filter !! j = Some b ∧
       get tracks a b ≠ 0).
Proof.
split; [exact example_hcp_returned |]. split; [exact example_hcp_sample_made |].
apply (hcp_process_edge_index_symmetric 68 1200 20 STRUCT NONE
         EncodingStrategy.STATS ST_MULTIMODAL example_cortical_nodefeats
         example_subject_gender example_complete_ts example_with_tracks
         example_tracks example_scan example_hcp_samples example_hcp_sample
         eq_refl example_tracks_rectangular).
- exact example_hcp_returned.
- exact example_hcp_sample_made.
Defined.

(** ** Properties of [create_hcp_correlation_vals] *)

Lemma elem_of_triu_indices n i j :
  (i, j) ∈ triu_indices n ↔ (i < j ∧ j < n)%nat.
Proof.
unfold triu_indices. rewrite list_elem_of_bind. split.
- intros (a & Hj & Ha). apply list_elem_of_fmap in Hj as (b & Heq & Hb).
  apply elem_of_seq in Ha, Hb. simplify_eq. lia.
- intros [Hi Hj]. exists i. split; [| apply elem_of_seq; lia].
  apply list_elem_of_fmap. exists j. split; [done | apply elem_of_seq; lia].
Qed.

Lemma NoDup_triu_indices n : NoDup (triu_indices n).
Proof.
unfold triu_indices. apply NoDup_bind.
- intros a b p _ _ (j & -> & _)%list_elem_of_fmap
    (j' & Heq & _)%list_elem_of_fmap. by simplify_eq.
- intros a _. apply NoDup_fmap; [by intros ?? [=] | apply NoDup_seq].
- apply NoDup_seq.
Qed.

Lemma NoDup_strict_lower n : NoDup (strict_lower n).
Proof.
unfold strict_lower. apply NoDup_bind.
- intros a b p _ _ (j & -> & _)%list_elem_of_fmap
    (j' & Heq & _)%list_elem_of_fmap. by simplify_eq.
- intros a _. apply NoDup_fmap; [by intros ?? [=] | apply NoDup_seq].
- apply NoDup_seq.
Qed.

Lemma length_triu_indices n :
  (2 * length (triu_indices n) = n * (n - 1))%nat.
Proof.
rewrite <- (length_strict_lower n). f_equal.
rewrite <- (length_fmap prod_swap (strict_lower n)).
apply Permutation_length, NoDup_Permutation.
- apply NoDup_triu_indices.
- apply NoDup_fmap; [apply _ | apply NoDup_strict_lower].
- intros [i j]. rewrite elem_of_triu_indices, list_elem_of_fmap. split.
  + intros Hij. exists (j, i). split; [done |].
    apply elem_of_strict_lower. lia.
  + intros ([a b] & Heq & Hp%elem_of_strict_lower). simpl in Heq.
    simplify_eq. lia.
Qed.

Lemma getitem_Ok n ps (A : list (list Z)) :
  is_shape n n A → Forall (λ p, (p.1 < n ∧ p.2 < n)%nat) ps →
  getitem ps A = Ok (gather A ps).
Proof.
intros HA Hps. unfold getitem.
assert (forallb (in_bounds A) ps = true) as ->; [| done].
apply forallb_forall. intros p Hp%list_elem_of_In.
rewrite Forall_forall in Hps. unfold in_bounds.
rewrite (is_shape_nrows _ _ _ HA), (is_square_ncols _ _ HA).
specialize (Hps p Hp). apply andb_true_iff. rewrite !Nat.ltb_lt. lia.
Qed.

Lemma getitem_triu n (A : list (list Z)) :
  is_shape n n A → getitem (triu_indices n) A = Ok (gather A (triu_indices n)).
Proof.
intros HA. apply (getitem_Ok n); [done |]. apply Forall_forall.
intros [i j] Hp%elem_of_triu_indices. simpl. lia.
Qed.

Section CorrelationFacts.
Context `{ArgSort}.

Lemma thresholded_copy_Ok (arr : list (list Z)) threshold n :
  is_shape n n arr →
  thresholded_copy arr threshold n
  = Ok (returned_array (num_to_filter threshold n) n arr).
Proof.
intros Harr. unfold thresholded_copy, py_bind, alloc, threshold_adj_array.
cbv beta iota zeta.
match goal with
| |- context [threshold_adj_array_from ?k ?r _ ?h] =>
    destruct (threshold_adj_array_from_run k r n h arr) as (r' & _ & Hrun);
      [apply lookup_insert_eq | done |]
end.
rewrite Hrun. unfold load. by rewrite lookup_insert_eq.
Qed.

(** When as many positions are kept as there are nonzero entries above
    the diagonal, all of them are kept. *)
Lemma kept_saturated k n (A : list (list Z)) p :
  is_shape n n A → Z.of_nat (upper_nonzero_count n A) ≤ k →
  p ∈ kept k (zero_tril n A) ↔ upper_nonzero A p ∧ p ∈ grid n n.
Proof.
intros HA Hk.
assert (Hlen : length (ranked (zero_tril n A)) = upper_nonzero_count n A).
{ rewrite (Permutation_length (ranked_perm _)).
  by rewrite (np_where_zero_tril _ _ HA). }
assert (Hnone : filtered_out k (zero_tril n A) = []).
{ unfold filtered_out. rewrite py_slice_from_drop. apply drop_ge.
  unfold keep_len. rewrite (proj2 (Z.leb_le 0 k)) by lia. lia. }
rewrite <- (app_nil_r (kept k (zero_tril n A))), <- Hnone.
rewrite kept_filtered_out, ranked_perm, (np_where_zero_tril _ _ HA).
by rewrite list_elem_of_filter.
Qed.

Lemma length_filter_fmap {A B} (P : B → Prop) `{∀ y, Decision (P y)}
    (f : A → B) (l : list A) :
  length (filter P (f <$> l)) = length (filter (λ x, P (f x)) l).
Proof.
induction l as [|x l IH]; [done |].
rewrite fmap_cons, !filter_cons. destruct (decide (P (f x))); simpl; lia.
Qed.

(** The vector of a thresholded matrix marks the kept positions. *)
Lemma flatten_array_kept (corr : list (list Z)) threshold n :
  is_shape n n corr →
  flatten_array n true threshold corr
  = Ok ((λ p, if decide (p ∈ kept (num_to_filter threshold n)
                              (zero_tril n corr))
              then 1 else 0) <$> triu_indices n).
Proof.
intros HA. unfold flatten_array.
rewrite (thresholded_copy_Ok _ _ _ HA). cbn [result_bind].
rewrite (getitem_triu _ _ (is_shape_returned_array _ _ _ HA)).
cbn [result_bind]. f_equal. unfold set_nonzero_to_one, gather.
rewrite <- list_fmap_compose. apply list_fmap_ext.
intros s [i j] Hs. apply list_elem_of_lookup_2, elem_of_triu_indices in Hs.
simpl. rewrite (get_returned_array _ _ _ _ _ HA).
rewrite !(get_caller_array _ _ _ _ _ HA).
rewrite (decide_False (P := (i = j ∧ i < n)%nat)) by lia.
rewrite (decide_False (P := (j, i) ∈ _)).
2: { intros Hk%(kept_upper _ _ _ _ _ HA). lia. }
destruct (decide ((i, j) ∈ kept _ _)) as [Hk|Hk]; [| done].
pose proof (kept_nonzero n n _ _ _ _ (is_shape_zero_tril _ _ n _ HA) Hk)
  as Hnz.
rewrite (get_zero_tril _ _ _ _ HA), decide_True in Hnz by lia.
rewrite Z.add_0_r. by rewrite decide_True.
Qed.

(** X20. For a square matrix and a threshold in {0, 5, 20, 50, 100} the
    binarised vector has one entry, 0 or 1, for every pair of different
    regions; a 1 stands only where the correlation is not zero, and the
    number of ones is the smaller of [floor(threshold/100 * n(n-1)/2)] and
    the number of nonzero entries above the diagonal.  With the default
    threshold of 100 the vector marks exactly the nonzero correlations. *)
Theorem hcp_correlation_vector_binarised
    (corr : list (list Z)) (threshold : Z) (n : nat) :
  is_shape n n corr → count_threshold threshold →
  ∃ v, flatten_array n true threshold corr = Ok v ∧
    (2 * length v = n * (n - 1))%nat ∧
    Forall (λ x, x = 0 ∨ x = 1) v ∧
    (∀ s i j, triu_indices n !! s = Some (i, j) → v !! s = Some 1 →
              get corr i j ≠ 0) ∧
    Z.of_nat (length (filter (λ x, x = 1) v))
    = Z.min (floor_keep threshold n)
        (Z.of_nat (upper_nonzero_count n corr)) ∧
    (threshold = 100 →
     v = (λ p, if decide (get corr p.1 p.2 ≠ 0) then 1 else 0)
           <$> triu_indices n).
Proof.
intros HA Ht.
assert (0 ≤ threshold) as Hpos by (unfold count_threshold in Ht; lia).
pose proof (num_to_filter_floor threshold n Hpos) as Hk.
eexists. split; [apply (flatten_array_kept _ _ _ HA) |].
set (k := num_to_filter threshold n) in *. split_and!.
- rewrite length_fmap. apply length_triu_indices.
- apply Forall_fmap, Forall_forall. intros p _. simpl.
  case_decide; [by right | by left].
- intros s i j Hs Hv. rewrite list_lookup_fmap, Hs in Hv. simpl in Hv.
  destruct (decide ((i, j) ∈ kept k (zero_tril n corr))) as [Hin|];
    [| done].
  pose proof (kept_nonzero n n _ _ _ _ (is_shape_zero_tril _ _ n _ HA) Hin)
    as Hnz.
  apply list_elem_of_lookup_2, elem_of_triu_indices in Hs.
  by rewrite (get_zero_tril _ _ _ _ HA), decide_True in Hnz by lia.
- rewrite length_filter_fmap.
  assert (filter (λ p, (if decide (p ∈ kept k (zero_tril n corr))
                        then 1 else 0) = 1) (triu_indices n)
          ≡ₚ kept k (zero_tril n corr)) as Hperm.
  { apply NoDup_Permutation.
    - apply NoDup_filter, NoDup_triu_indices.
    - apply NoDup_kept.
    - intros [i j]. rewrite list_elem_of_filter, elem_of_triu_indices.
      split.
      + intros [Hone _]. by case_decide.
      + intros Hin. rewrite decide_True by done. split; [done |].
        exact (kept_upper k _ _ _ _ HA Hin). }
  rewrite (Permutation_length Hperm), length_kept.
  rewrite (np_where_zero_tril _ _ HA). fold (upper_nonzero_count n corr).
  unfold keep_len. rewrite <- Hk.
  assert (0 ≤ k) as Hk0.
  { rewrite Hk. unfold floor_keep. apply Z.div_pos; lia. }
  rewrite (proj2 (Z.leb_le 0 k) Hk0). lia.
- intros ->. apply list_fmap_ext. intros s [i j] Hs.
  apply list_elem_of_lookup_2, elem_of_triu_indices in Hs. simpl.
  assert (Z.of_nat (upper_nonzero_count n corr) ≤ k) as Hsat.
  { rewrite Hk. unfold floor_keep.
    rewrite Z.mul_comm, Z.div_mul by lia.
    pose proof (upper_nonzero_count_le n corr). lia. }
  pose proof (kept_saturated k n corr (i, j) HA Hsat) as Hkept.
  unfold upper_nonzero in Hkept. rewrite elem_of_grid in Hkept.
  simpl in Hkept.
  destruct (decide ((i, j) ∈ kept k (zero_tril n corr))) as [Hin|Hout];
    destruct (decide (get corr i j ≠ 0)) as [Hnz|Hz]; try done.
  + apply Hkept in Hin. tauto.
  + destruct Hout. apply Hkept. lia.
Qed.

End CorrelationFacts.

(** X21. Without binarisation the vector lists the entries above the
    diagonal of the top-left [num_nodes] block row by row, whatever the
    threshold; a matrix with fewer than [num_nodes] rows is refused as soon
    as there is a pair of regions to read. *)
Theorem hcp_correlation_vector_raw `{ArgSort}
    (corr : list (list Z)) (threshold : Z) (n m : nat) :
  is_shape m m corr →
  ((n ≤ m)%nat →
   flatten_array n false threshold corr = Ok (gather corr (triu_indices n))
   ∧ (2 * length (gather corr (triu_indices n)) = n * (n - 1))%nat) ∧
  ((m < n)%nat → (2 ≤ n)%nat →
   flatten_array n false threshold corr = Raise IndexError).
Proof.
intros HA. unfold flatten_array. cbn [result_bind]. split.
- intros Hle. split.
  + rewrite (getitem_Ok m); [done | done |].
    apply Forall_forall. intros [i j] Hp%elem_of_triu_indices. simpl. lia.
  + unfold gather. rewrite length_fmap. apply length_triu_indices.
- intros Hlt Hn. unfold getitem.
  destruct (forallb (in_bounds corr) (triu_indices n)) eqn:Hall; [| done].
  rewrite forallb_forall in Hall.
  assert ((0, n - 1)%nat ∈ triu_indices n) as Hin
    by (apply elem_of_triu_indices; lia).
  apply list_elem_of_In, Hall in Hin. unfold in_bounds in Hin.
  apply andb_true_iff in Hin as [_ Hcol%Nat.ltb_lt]. simpl in Hcol.
  rewrite (is_square_ncols _ _ HA) in Hcol. lia.
Qed.


Section CorrelationDict.
Context `{ArgSort}.
Variable OLD_NETMATS_PEOPLE : list Z.
Variable np_load : Z → nat → nat → result (list (list Z)).
Variable num_nodes ts_split_num : nat.
Variable binarise : bool.
Variable threshold : Z.

Abbreviation vector_of :=
  (stored_vector np_load num_nodes ts_split_num binarise threshold).
Abbreviation splits :=
  (split_loop np_load num_nodes ts_split_num binarise threshold).
Abbreviation people_splits :=
  (correlation_loop np_load num_nodes ts_split_num binarise threshold).

Lemma split_loop_Ok (person : Z) (inds : list nat)
    (d d' : gmap (Z * nat) (list Z)) :
  splits person inds d = Ok d' →
  (∀ ind, ind ∈ inds → ∃ v, vector_of person ind = Ok v) ∧
  ∀ p ind v, d' !! (p, ind) = Some v ↔
    (p = person ∧ ind ∈ inds ∧ vector_of person ind = Ok v)
    ∨ (¬ (p = person ∧ ind ∈ inds) ∧ d !! (p, ind) = Some v).
Proof.
revert d. induction inds as [|i inds IH]; intros d Hrun; simpl in Hrun.
- simplify_eq. split; [by intros ? ?%elem_of_nil |].
  intros p ind v. split.
  + intros Hv. right. split; [| done]. by intros (_ & ?%elem_of_nil).
  + intros [(_ & ?%elem_of_nil & _)|[_ Hv]]; done.
- apply result_bind_Ok in Hrun as (corr & Hload & Hrun).
  apply result_bind_Ok in Hrun as (val & Hval & Hrun).
  assert (vector_of person i = Ok val) as Hstored.
  { unfold stored_vector. by rewrite Hload. }
  apply IH in Hrun as [Hall Hlook]. split.
  + intros ind [->|Hin]%elem_of_cons; [by exists val | by apply Hall].
  + intros p ind v. rewrite Hlook, elem_of_cons.
    destruct (decide (p = person ∧ ind = i)) as [[-> ->]|Hne].
    * rewrite lookup_insert_eq. split.
      -- intros [(_ & Hin & Hv)|[Hnot Hv]]; left; split_and!; auto.
         simplify_eq. done.
      -- intros [(_ & Hin & Hv)|[Hnot _]]; [| destruct Hnot; auto].
         destruct (decide (i ∈ inds)); [left; auto |].
         right. split; [tauto |]. congruence.
    * rewrite lookup_insert_ne by (intros [= -> ->]; tauto). split.
      -- intros [(-> & Hin & Hv)|[Hnot Hv]]; [left; auto |].
         right. split; [| done]. intros (-> & [->|Hin]); tauto.
      -- intros [(-> & [->|Hin] & Hv)|[Hnot Hv]]; [tauto | left; auto |].
         right. split; [| done]. intros (-> & Hin). apply Hnot. auto.
Qed.

Lemma correlation_loop_Ok (people : list Z)
    (d d' : gmap (Z * nat) (list Z)) :
  people_splits people d = Ok d' →
  (∀ p ind, p ∈ people → (ind < ts_split_num)%nat →
            ∃ v, vector_of p ind = Ok v) ∧
  ∀ p ind v, d' !! (p, ind) = Some v ↔
    (p ∈ people ∧ (ind < ts_split_num)%nat ∧ vector_of p ind = Ok v)
    ∨ (¬ (p ∈ people ∧ (ind < ts_split_num)%nat) ∧ d !! (p, ind) = Some v).
Proof.
revert d. induction people as [|person people IH]; intros d Hrun;
  simpl in Hrun.
- simplify_eq. split; [by intros ? ? ?%elem_of_nil |].
  intros p ind v. split.
  + intros Hv. right. split; [| done]. by intros (?%elem_of_nil & _).
  + intros [(?%elem_of_nil & _)|[_ Hv]]; done.
- apply result_bind_Ok in Hrun as (d1 & Hsplit & Hrun).
  apply split_loop_Ok in Hsplit as [Hall1 Hlook1].
  apply IH in Hrun as [Hall Hlook]. split.
  + intros p ind [->|Hin]%elem_of_cons Hind; [| by apply Hall].
    apply Hall1, elem_of_seq. lia.
  + intros p ind v. rewrite Hlook, Hlook1, elem_of_cons, elem_of_seq.
    split.
    * intros [(Hin & Hind & Hv)|[Hnot [(-> & Hind & Hv)|[Hnot1 Hv]]]].
      -- left. auto.
      -- left. split_and!; auto. lia.
      -- right. split; [| done]. intros [[->|Hin] Hind]; [| tauto].
         apply Hnot1. split; [done | lia].
    * intros [([->|Hin] & Hind & Hv)|[Hnot Hv]].
      -- destruct (decide (person ∈ people)); [left; auto |].
         right. split; [tauto |]. left. split_and!; auto. lia.
      -- left. auto.
      -- right. split; [tauto |]. right. split; [| done].
         intros (-> & _ & Hind). apply Hnot. split; [auto | lia].
Qed.

(** X22. When the call returns, the dictionary has a vector under
    [(person, ind)] exactly for the subjects of [OLD_NETMATS_PEOPLE] and the
    indexes below [ts_split_num], and it is the vector of the matrix loaded
    for this subject and index; no pair was skipped.  With binarisation
    this is stated where the binary64 evaluation of line 42 gives the exact
    value of [num_to_filter]. *)
Theorem hcp_correlation_vals_dict (final_dict : gmap (Z * nat) (list Z)) :
  (binarise = true →
   num_to_filter_binary64 threshold num_nodes
   = Some (num_to_filter threshold num_nodes)) →
  create_hcp_correlation_vals OLD_NETMATS_PEOPLE np_load num_nodes
    ts_split_num binarise threshold = Ok final_dict →
  (∀ person ind v,
     final_dict !! (person, ind) = Some v ↔
     person ∈ OLD_NETMATS_PEOPLE ∧ (ind < ts_split_num)%nat ∧
     ∃ corr_arr, np_load person ind ts_split_num = Ok corr_arr ∧
       flatten_array num_nodes binarise threshold corr_arr = Ok v) ∧
  (∀ person ind,
     person ∈ OLD_NETMATS_PEOPLE → (ind < ts_split_num)%nat →
     is_Some (final_dict !! (person, ind))).
Proof.
unfold create_hcp_correlation_vals.
intros _ [Hall Hlook]%correlation_loop_Ok.
assert (Hvec : ∀ person ind v, vector_of person ind = Ok v ↔
  ∃ corr_arr, np_load person ind ts_split_num = Ok corr_arr ∧
    flatten_array num_nodes binarise threshold corr_arr = Ok v).
{ intros person ind v. unfold stored_vector. split.
  - by intros (corr & ? & ?)%result_bind_Ok; exists corr.
  - intros (corr & -> & Hv). done. }
split.
- intros person ind v. rewrite Hlook, lookup_empty, <- Hvec.
  split; [intros [?|[_ [=]]]; tauto | tauto].
- intros person ind Hp Hind. destruct (Hall _ _ Hp Hind) as [v Hv].
  exists v. apply Hlook. left. auto.
Qed.

End CorrelationDict.


Example hcp_correlation_vector_example :
  flatten_array 4 true 50 example_matrix = Ok [1; 1; 0; 0; 0; 1].
Proof. vm_compute. reflexivity. Qed.

Lemma hcp_correlation_vector_binarised_witness :
  is_shape 4 4 example_matrix ∧ count_threshold 50 ∧
  ∃ v, flatten_array 4 true 50 example_matrix = Ok v ∧
    (2 * length v = 4 * (4 - 1))%nat ∧
    Forall (λ x, x = 0 ∨ x = 1) v ∧
    (∀ s i j, triu_indices 4 !! s = Some (i, j) → v !! s = Some 1 →
              get example_matrix i j ≠ 0) ∧
    Z.of_nat (length (filter (λ x, x = 1) v))
    = Z.min (floor_keep 50 4)
        (Z.of_nat (upper_nonzero_count 4 example_matrix)) ∧
    (50 = 100 →
     v = (λ p, if decide (get example_matrix p.1 p.2 ≠ 0) then 1 else 0)
           <$> triu_indices 4).
Proof.
assert (is_shape 4 4 example_matrix) as Hshape
  by (split; [reflexivity | repeat constructor]).
assert (count_threshold 50) as Hthreshold by (unfold count_threshold; lia).
split; [exact Hshape |]. split; [exact Hthreshold |].
exact (hcp_correlation_vector_binarised example_matrix 50 4 Hshape
         Hthreshold).
Defined.

Lemma hcp_correlation_vector_raw_witness :
  is_shape 4 4 example_matrix ∧
  (((3 ≤ 4)%nat →
    flatten_array 3 false 100 example_matrix
    = Ok (gather example_matrix (triu_indices 3))
    ∧ (2 * length (gather example_matrix (triu_indices 3)) = 3 * (3 - 1))%nat)
   ∧ ((4 < 3)%nat → (2 ≤ 3)%nat →
      flatten_array 3 false 100 example_matrix = Raise IndexError)).
Proof.
assert (is_shape 4 4 example_matrix) as Hshape
  by (split; [reflexivity | repeat constructor]).
split; [exact Hshape |].
exact (hcp_correlation_vector_raw example_matrix 100 3 4 Hshape).
Defined.

Lemma example_correlation_returns :
  returned example_correlation_call = true.
Proof. vm_compute. reflexivity. Qed.

Lemma example_correlation_run :
  example_correlation_call = Ok example_correlation_vals.
Proof.
pose proof example_correlation_returns as Hrun.
unfold example_correlation_vals.
destruct example_correlation_call; [reflexivity | discriminate Hrun].
Qed.

Lemma hcp_correlation_vals_dict_witness :
  (true = true → num_to_filter_binary64 50 4 = Some (num_to_filter 50 4)) ∧
  example_correlation_call = Ok example_correlation_vals ∧
  (∀ person ind v,
     example_correlation_vals !! (person, ind) = Some v ↔
     person ∈ [100206; 100307] ∧ (ind < 2)%nat ∧
     ∃ corr_arr, example_np_load person ind 2 = Ok corr_arr ∧
       flatten_array 4 true 50 corr_arr = Ok v) ∧
  (∀ person ind,
     person ∈ [100206; 100307] → (ind < 2)%nat →
     is_Some (example_correlation_vals !! (person, ind))).
Proof.
assert (true = true → num_to_filter_binary64 50 4 = Some (num_to_filter 50 4))
  as Hline42 by (intros _; vm_compute; reflexivity).
split; [exact Hline42 |]. split; [exact example_correlation_run |].
exact (hcp_correlation_vals_dict [100206; 100307] example_np_load 4 2 true 50
         example_correlation_vals Hline42 example_correlation_run).
Defined.
